(** * tsinfer: the epoch-scheduled matching pipeline of [tsinfer/inference.py]

    A shallow embedding of [ResultBuffer], of the epoch partition computed by
    [AncestorMatcher.__init__], of the single-threaded matching loops, of the
    epoch commit, of the producer and the worker bodies of the multi-threaded
    schedulers and of [verify], followed by the properties of the
    specification that can be settled on them and by further properties of
    the code.

    Conventions.
    - Python integers that count things (sizes, capacities, indices, node
      ids) are [nat]; integers supplied by a caller ([chunk_size],
      [num_threads]) and time values are [Z].
    - A numpy column is a [list Z] whose entries are values of the column's
      dtype; the arrays handed to a buffer carry the dtype of the column they
      are stored in, so a slice assignment stores them as they are.
    - A method that mutates [self] is a computation in the state and
      exception monad [M] over the state of [self]: an exception leaves the
      state as it was when it was raised.
    - Logging, the progress bar and the floating point statistics
      ([mean_traceback_size], [num_matches]) do not influence any value
      modelled here and are left out. *)

From stdpp Require Import base numbers list option sorting.

(** ** Exceptions and the state/exception monad *)

Inductive exn : Type :=
  | ValueError
  | AssertionError
  | IndexError
  | StopIteration
  | ExternalError.

Inductive result (A : Type) : Type :=
  | Ok (a : A)
  | Raise (e : exn).
Arguments Ok {A} a.
Arguments Raise {A} e.

Definition M (S A : Type) : Type := S → result A * S.

Definition M_ret {S A} (a : A) : M S A := λ s, (Ok a, s).

Definition M_bind {S A B} (f : A → M S B) (m : M S A) : M S B :=
  λ s, match m s with
       | (Ok a, s') => f a s'
       | (Raise e, s') => (Raise e, s')
       end.

Definition raise {S A} (e : exn) : M S A := λ s, (Raise e, s).

#[global] Instance M_MRet S : MRet (M S) := @M_ret S.
#[global] Instance M_MBind S : MBind (M S) := @M_bind S.

Definition get {S} : M S S := λ s, (Ok s, s).
Definition gets {S A} (f : S → A) : M S A := λ s, (Ok (f s), s).
Definition put {S} (s : S) : M S unit := λ _, (Ok tt, s).
Definition modify {S} (f : S → S) : M S unit := λ s, (Ok tt, f s).

#[global] Instance nat_gt_decision (x y : nat) : Decision (x > y) :=
  decide (y < x).

(** [assert cond] *)
Definition assert {S} (cond : bool) : M S unit :=
  if cond then mret tt else raise AssertionError.

(** A fallible pure computation run inside [M]. *)
Definition lift {S A} (r : result A) : M S A := λ s, (r, s).

(** [for x in xs: body x] *)
Fixpoint for_ {S A} (xs : list A) (body : A → M S unit) : M S unit :=
  match xs with
  | [] => mret tt
  | x :: xs' => body x ;; for_ xs' body
  end.

(** The outcome and the final state of a computation. *)
Definition outcome {S A} (m : M S A) (s : S) : result A := fst (m s).
Definition exec {S A} (m : M S A) (s : S) : S := snd (m s).

(** A method of a member object run from the object that owns it. *)
Definition zoom {S T A} (getf : S → T) (setf : T → S → S) (m : M T A)
  : M S A :=
  λ s, let '(r, t') := m (getf s) in (r, setf t' s).

(** A method of [objs[i]] run on a list of objects. *)
Definition zoom_index {T A} (i : nat) (m : M T A) : M (list T) A :=
  λ objs, match objs !! i with
          | Some o => let '(r, o') := m o in (r, <[i := o']> objs)
          | None => (Raise IndexError, objs)
          end.

(** A method of a local object [obj]: the updated object is handed back. *)
Definition call_on {S T A} (obj : T) (m : M T A) : M S (A * T) :=
  λ s, match m obj with
       | (Ok a, obj') => (Ok (a, obj'), s)
       | (Raise e, _) => (Raise e, s)
       end.

(** [for x in xs: acc = body x acc] for a loop that updates a local. *)
Fixpoint for_acc {S A B} (xs : list A) (acc : B) (body : A → B → M S B)
  : M S B :=
  match xs with
  | [] => mret acc
  | x :: xs' => acc' ← body x acc; for_acc xs' acc' body
  end.

(** ** The numpy operations the source uses *)

Module np.

(** The right-hand side of an assignment to a slice: a scalar, which is
    broadcast, or an array. *)
Inductive operand : Type :=
  | Scalar (z : Z)
  | Array (a : list Z).

Section Uninitialised.
(** What [np.empty] finds in freshly allocated memory. *)
Context (uninit : nat → Z).

(** [np.empty(n)] *)
Definition empty (n : nat) : list Z := uninit <$> seq 0 n.
End Uninitialised.

(** [a.resize(n)]: in place; new entries are zero. *)
Definition resize (a : list Z) (n : nat) : list Z :=
  take n a ++ replicate (n - length a) 0%Z.

(** The value [v] broadcast to shape [(n,)]: a scalar or a one-element
    array is repeated, an array of [n] elements is taken as it is, anything
    else is numpy's broadcast ValueError. *)
Definition broadcast (n : nat) (v : operand) : result (list Z) :=
  match v with
  | Scalar z => Ok (replicate n z)
  | Array a =>
      if decide (length a = n) then Ok a
      else match a with
           | [z] => Ok (replicate n z)
           | _ => Raise ValueError
           end
  end.

(** [a[lo:hi] = v] for [0 <= lo], [0 <= hi]: the slice is clipped to the
    array. *)
Definition slice_assign (a : list Z) (lo hi : nat) (v : operand)
  : result (list Z) :=
  let lo' := lo `min` length a in
  let hi' := hi `min` length a in
  let n := hi' - lo' in
  match broadcast n v with
  | Ok vs => Ok (take lo' a ++ vs ++ drop (lo' + n) a)
  | Raise e => Raise e
  end.

(** [a[i] = z] for [0 <= i] *)
Definition index_assign (a : list Z) (i : nat) (z : Z) : result (list Z) :=
  if decide (i < length a) then Ok (<[i := z]> a) else Raise IndexError.

(** [a[i]] for [0 <= i] *)
Definition index (a : list Z) (i : nat) : result Z :=
  match a !! i with
  | Some z => Ok z
  | None => Raise IndexError
  end.

(** [a[idx]] for an index array [idx] *)
Fixpoint take_indices (a : list Z) (idx : list nat) : result (list Z) :=
  match idx with
  | [] => Ok []
  | i :: idx' =>
      match a !! i, take_indices a idx' with
      | Some z, Ok zs => Ok (z :: zs)
      | None, _ => Raise IndexError
      | _, Raise e => Raise e
      end
  end.

(** [np.where(a == c)[0]] *)
Definition where_eq (a : list Z) (c : Z) : list nat :=
  filter (λ i, a !! i = Some c) (seq 0 (length a)).

(** [np.where(a != b)[0]] for arrays of one shape *)
Definition where_ne (a b : list Z) : list nat :=
  filter (λ i, a !! i ≠ b !! i) (seq 0 (length a)).

(** [a[idx] = z] for an index array [idx] *)
Fixpoint indices_assign (a : list Z) (idx : list nat) (z : Z)
  : result (list Z) :=
  match idx with
  | [] => Ok a
  | i :: idx' =>
      match index_assign a i z with
      | Ok a' => indices_assign a' idx' z
      | Raise e => Raise e
      end
  end.

(** [l[j]] for a Python integer [j]: a negative index counts from the end. *)
Definition item {A} (l : list A) (j : Z) : result A :=
  let n := Z.of_nat (length l) in
  let k := if decide (j < 0)%Z then (n + j)%Z else j in
  if decide (0 ≤ k)%Z then
    match l !! Z.to_nat k with
    | Some x => Ok x
    | None => Raise IndexError
    end
  else Raise IndexError.

(** [range(lo, hi)] *)
Definition range (lo hi : Z) : list Z :=
  (λ k, lo + Z.of_nat k)%Z <$> seq 0 (Z.to_nat (hi - lo)).

(** [a.shape[0]] of an array *)
Definition shape0 (a : list Z) : nat := length a.

End np.

(** ** ResultBuffer *)

Module ResultBuffer.

Record t : Type := mk {
  chunk_size : nat;
  (* edges *)
  __left : list Z;
  __right : list Z;
  __parent : list Z;
  __child : list Z;
  num_edges : nat;
  max_edges : nat;
  (* mutations *)
  __site : list Z;
  __node : list Z;
  __derived_state : list Z;
  num_mutations : nat;
  max_mutations : nat
}.

Section Uninitialised.
Context (uninit : nat → Z).

(** [ResultBuffer(chunk_size)] *)
Definition __init__ (chunk_size : Z) : result t :=
  if decide (chunk_size < 1)%Z then Raise ValueError
  else
    let n := Z.to_nat chunk_size in
    Ok {| chunk_size := n;
          __left := np.empty uninit n;
          __right := np.empty uninit n;
          __parent := np.empty uninit n;
          __child := np.empty uninit n;
          num_edges := 0;
          max_edges := n;
          __site := np.empty uninit n;
          __node := np.empty uninit n;
          __derived_state := np.empty uninit n;
          num_mutations := 0;
          max_mutations := n |}.
End Uninitialised.

(** The read-only views. *)
Definition left (self : t) : list Z := take (num_edges self) (__left self).
Definition right (self : t) : list Z := take (num_edges self) (__right self).
Definition parent (self : t) : list Z := take (num_edges self) (__parent self).
Definition child (self : t) : list Z := take (num_edges self) (__child self).
Definition site (self : t) : list Z := take (num_mutations self) (__site self).
Definition node (self : t) : list Z := take (num_mutations self) (__node self).
Definition derived_state (self : t) : list Z :=
  take (num_mutations self) (__derived_state self).

(** Field updates. *)
Definition set_edges (l r p c : list Z) (self : t) : t :=
  {| chunk_size := chunk_size self;
     __left := l; __right := r; __parent := p; __child := c;
     num_edges := num_edges self; max_edges := max_edges self;
     __site := __site self; __node := __node self;
     __derived_state := __derived_state self;
     num_mutations := num_mutations self;
     max_mutations := max_mutations self |}.

Definition set_left (l : list Z) (self : t) : t :=
  set_edges l (__right self) (__parent self) (__child self) self.
Definition set_right (r : list Z) (self : t) : t :=
  set_edges (__left self) r (__parent self) (__child self) self.
Definition set_parent (p : list Z) (self : t) : t :=
  set_edges (__left self) (__right self) p (__child self) self.
Definition set_child (c : list Z) (self : t) : t :=
  set_edges (__left self) (__right self) (__parent self) c self.

Definition set_num_edges (n : nat) (self : t) : t :=
  {| chunk_size := chunk_size self;
     __left := __left self; __right := __right self;
     __parent := __parent self; __child := __child self;
     num_edges := n; max_edges := max_edges self;
     __site := __site self; __node := __node self;
     __derived_state := __derived_state self;
     num_mutations := num_mutations self;
     max_mutations := max_mutations self |}.

Definition set_max_edges (n : nat) (self : t) : t :=
  {| chunk_size := chunk_size self;
     __left := __left self; __right := __right self;
     __parent := __parent self; __child := __child self;
     num_edges := num_edges self; max_edges := n;
     __site := __site self; __node := __node self;
     __derived_state := __derived_state self;
     num_mutations := num_mutations self;
     max_mutations := max_mutations self |}.

Definition set_mutations (s n d : list Z) (self : t) : t :=
  {| chunk_size := chunk_size self;
     __left := __left self; __right := __right self;
     __parent := __parent self; __child := __child self;
     num_edges := num_edges self; max_edges := max_edges self;
     __site := s; __node := n; __derived_state := d;
     num_mutations := num_mutations self;
     max_mutations := max_mutations self |}.

Definition set_site (s : list Z) (self : t) : t :=
  set_mutations s (__node self) (__derived_state self) self.
Definition set_node (n : list Z) (self : t) : t :=
  set_mutations (__site self) n (__derived_state self) self.
Definition set_derived_state (d : list Z) (self : t) : t :=
  set_mutations (__site self) (__node self) d self.

Definition set_num_mutations (n : nat) (self : t) : t :=
  {| chunk_size := chunk_size self;
     __left := __left self; __right := __right self;
     __parent := __parent self; __child := __child self;
     num_edges := num_edges self; max_edges := max_edges self;
     __site := __site self; __node := __node self;
     __derived_state := __derived_state self;
     num_mutations := n; max_mutations := max_mutations self |}.

Definition set_max_mutations (n : nat) (self : t) : t :=
  {| chunk_size := chunk_size self;
     __left := __left self; __right := __right self;
     __parent := __parent self; __child := __child self;
     num_edges := num_edges self; max_edges := max_edges self;
     __site := __site self; __node := __node self;
     __derived_state := __derived_state self;
     num_mutations := num_mutations self; max_mutations := n |}.

(** [clear] *)
Definition clear : M t unit :=
  modify (set_num_edges 0) ;;
  modify (set_num_mutations 0).

(** [check_edges_size(additional)] *)
Definition check_edges_size (additional : nat) : M t unit :=
  self ← get;
  if decide (num_edges self + additional > max_edges self) then
    let new_size := max_edges self + additional `max` chunk_size self in
    modify (set_left (np.resize (__left self) new_size)) ;;
    modify (set_right (np.resize (__right self) new_size)) ;;
    modify (set_parent (np.resize (__parent self) new_size)) ;;
    modify (set_child (np.resize (__child self) new_size)) ;;
    modify (set_max_edges new_size)
  else mret tt.

(** [add_edges(left, right, parent, child)]: [left], [right] and [parent]
    are arrays, [child] an array or a single value. *)
Definition add_edges (left right parent : list Z) (child : np.operand)
  : M t unit :=
  let size := np.shape0 left in
  assert (bool_decide (np.shape0 right = size)) ;;
  assert (bool_decide (np.shape0 parent = size)) ;;
  check_edges_size size ;;
  self ← get;
  l ← lift (np.slice_assign (__left self) (num_edges self)
              (num_edges self + size) (np.Array left));
  modify (set_left l) ;;
  r ← lift (np.slice_assign (__right self) (num_edges self)
              (num_edges self + size) (np.Array right));
  modify (set_right r) ;;
  p ← lift (np.slice_assign (__parent self) (num_edges self)
              (num_edges self + size) (np.Array parent));
  modify (set_parent p) ;;
  c ← lift (np.slice_assign (__child self) (num_edges self)
              (num_edges self + size) child);
  modify (set_child c) ;;
  modify (set_num_edges (num_edges self + size)).

(** [check_mutations_size(additional)] *)
Definition check_mutations_size (additional : nat) : M t unit :=
  self ← get;
  if decide (num_mutations self + additional > max_mutations self) then
    let new_size := max_mutations self + additional `max` chunk_size self in
    modify (set_site (np.resize (__site self) new_size)) ;;
    modify (set_node (np.resize (__node self) new_size)) ;;
    modify (set_derived_state (np.resize (__derived_state self) new_size)) ;;
    modify (set_max_mutations new_size)
  else mret tt.

(** [add_mutations(site, node, derived_state=None)]: [site] is an array,
    [node] an array or a single value, [derived_state] likewise or [None]. *)
Definition add_mutations (site : list Z) (node : np.operand)
    (derived_state : option np.operand) : M t unit :=
  let size := np.shape0 site in
  check_mutations_size size ;;
  self ← get;
  s ← lift (np.slice_assign (__site self) (num_mutations self)
              (num_mutations self + size) (np.Array site));
  modify (set_site s) ;;
  n ← lift (np.slice_assign (__node self) (num_mutations self)
              (num_mutations self + size) node);
  modify (set_node n) ;;
  let fill := match derived_state with
              | None => np.Scalar 1
              | Some d => d
              end in
  d ← lift (np.slice_assign (__derived_state self) (num_mutations self)
              (num_mutations self + size) fill);
  modify (set_derived_state d) ;;
  modify (set_num_mutations (num_mutations self + size)).

(** [add_back_mutation(site, node)] *)
Definition add_back_mutation (site node : Z) : M t unit :=
  check_mutations_size 1 ;;
  self ← get;
  s ← lift (np.index_assign (__site self) (num_mutations self) site);
  modify (set_site s) ;;
  n ← lift (np.index_assign (__node self) (num_mutations self) node);
  modify (set_node n) ;;
  d ← lift (np.index_assign (__derived_state self) (num_mutations self) 0);
  modify (set_derived_state d) ;;
  modify (set_num_mutations (num_mutations self + 1)).

Section Uninitialised.
Context (uninit : nat → Z).

(** [ResultBuffer.combine(result_buffers)]: the state is the list of the
    buffers handed in, the value is the new buffer. *)
Definition combine : M (list t) t :=
  result_buffers ← get;
  let size := 1 `max` sum_list (num_edges <$> result_buffers) in
  combined ← lift (__init__ uninit (Z.of_nat size));
  for_acc result_buffers combined (λ result combined,
    '(_, combined) ← call_on combined
       (add_edges (left result) (right result) (parent result)
          (np.Array (child result)));
    '(_, combined) ← call_on combined
       (add_mutations (site result) (np.Array (node result))
          (Some (np.Array (derived_state result))));
    mret combined).

End Uninitialised.

End ResultBuffer.

(** ** The collaborators of the orchestrators *)

(** What the orchestrators read from the genotype source
    ([tsinfer.formats.InputFile]). *)
Record InputFile : Type := {
  input_num_samples : nat;
  input_num_sites : nat;
  input_sample_haplotypes : list (list Z)
}.

(** What the orchestrators read from the ancestor store
    ([tsinfer.formats.AncestorFile]); [ancestor_haplotypes] lists the
    haplotype of every ancestor, in ancestor order. *)
Record AncestorFile : Type := {
  file_num_ancestors : nat;
  file_time : list Z;
  file_focal_sites : list (list nat);
  file_start : list nat;
  file_end : list nat;
  file_ancestor_haplotypes : list (list Z)
}.

(** Modelled from the spec: [AncestorFile.ancestor_haplotypes(first)] is not
    among the sources; the spec has it as the lazy sequence of ancestor
    haplotypes beginning at a given index. *)
Definition ancestor_haplotypes (f : AncestorFile) (first_ancestor : nat)
  : list (list Z) :=
  drop first_ancestor (file_ancestor_haplotypes f).

(** The tables of an [msprime] tree sequence, as far as they are read back:
    nodes are [(flags, time)], edges [(left, right, parent, child)],
    mutations [(site, node, derived_state)] with the derived state as the
    character code the tables store. *)
Record TreeSequence : Type := {
  ts_nodes : list (Z * Z);
  ts_edges : list (Z * Z * Z * Z);
  ts_mutations : list (Z * Z * Z)
}.

(** [ts.num_samples]: the nodes that carry the sample flag. *)
Definition ts_num_samples (ts : TreeSequence) : nat :=
  length (filter (λ n, Z.testbit n.1 0 = true) (ts_nodes ts)).

(** [ord('0')] *)
Definition ord_0 : Z := 48.

Definition UNKNOWN_ALLELE : Z := 255.

Module TreeSequenceBuilder.

(** Modelled from the spec: the calls an orchestrator makes on the builder,
    each with the value it returned. The builder classes
    ([_tsinfer.TreeSequenceBuilder], [tsinfer.algorithm.TreeSequenceBuilder])
    are not among the sources. *)
Inductive call : Type :=
  | AddNode (time : Z) (node_id : nat)
  | AddPath (node_id : nat) (left right parent : list Z)
  | AddMutations (site node derived_state : list Z).

(** Modelled from the spec: the builder, an append-only structure of nodes
    [(flags, time)], edges [(left, right, parent, child)] and mutations
    [(site, node, derived_state)]; [calls] records the calls it received. *)
Record t : Type := mk {
  nodes : list (Z * Z);
  edges : list (Z * Z * Z * Z);
  mutations : list (Z * Z * Z);
  calls : list call
}.

(** Modelled from the spec: a builder as its constructor leaves it. *)
Definition new : t :=
  {| nodes := []; edges := []; mutations := []; calls := [] |}.

Definition num_nodes (self : t) : nat := length (nodes self).
Definition num_edges (self : t) : nat := length (edges self).
Definition num_mutations (self : t) : nat := length (mutations self).

(** Modelled from the spec: [add_node(time) -> node_id]; ids are assigned
    sequentially and never reused, and every node carries the sample flag
    (the docstring of [Matcher.get_tree_sequence]). *)
Definition add_node (time : Z) : M t nat :=
  self ← get;
  let node_id := num_nodes self in
  put {| nodes := nodes self ++ [(1%Z, time)];
         edges := edges self;
         mutations := mutations self;
         calls := calls self ++ [AddNode time node_id] |} ;;
  mret node_id.

(** Modelled from the spec: [add_path(node_id, left[], right[], parent[])],
    the bulk insertion of the edges of one child in a single call. *)
Definition add_path (node_id : nat) (left right parent : list Z) : M t unit :=
  self ← get;
  put {| nodes := nodes self;
         edges := edges self ++
           ((λ '(l, (r, p)), (l, r, p, Z.of_nat node_id)) <$>
              zip left (zip right parent));
         mutations := mutations self;
         calls := calls self ++ [AddPath node_id left right parent] |}.

(** Modelled from the spec: [add_mutations(site[], node[], derived_state[])],
    the bulk insertion of mutations. *)
Definition add_mutations (site node derived_state : list Z) : M t unit :=
  self ← get;
  put {| nodes := nodes self;
         edges := edges self;
         mutations := mutations self ++
           ((λ '(s, (n, d)), (s, n, d)) <$>
              zip site (zip node derived_state));
         calls := calls self ++ [AddMutations site node derived_state] |}.

(** Modelled from the spec: [restore_nodes], [restore_edges] and
    [restore_mutations] reconstruct the builder state from persisted
    tables. *)
Definition restore_nodes (time flags : list Z) : M t unit :=
  self ← get;
  put {| nodes := nodes self ++ zip flags time;
         edges := edges self;
         mutations := mutations self;
         calls := calls self |}.

Definition restore_edges (left right parent child : list Z) : M t unit :=
  self ← get;
  put {| nodes := nodes self;
         edges := edges self ++
           ((λ '(l, (r, (p, c))), (l, r, p, c)) <$>
              zip left (zip right (zip parent child)));
         mutations := mutations self;
         calls := calls self |}.

Definition restore_mutations (site node derived_state : list Z) : M t unit :=
  self ← get;
  put {| nodes := nodes self;
         edges := edges self;
         mutations := mutations self ++
           ((λ '(s, (n, d)), (s, n, d)) <$>
              zip site (zip node derived_state));
         calls := calls self |}.

(** The ids the recorded [add_node] calls returned, in call order. *)
Definition add_node_ids (cs : list call) : list nat :=
  omap (λ c, match c with AddNode _ node_id => Some node_id | _ => None end)
       cs.

End TreeSequenceBuilder.

(** ** The matching orchestrator (base class [Matcher]) *)

(** How [match_ancestors] and [match_samples] run the matching: inline, or
    through a bounded queue of the given depth consumed by the worker
    threads of the given indices. *)
Inductive scheduling : Type :=
  | SingleThreaded
  | MultiThreaded (queue_depth : Z) (match_threads : list Z).

Module Matcher.

Record t : Type := mk {
  num_threads : Z;
  num_samples : nat;
  num_sites : nat;
  tree_sequence_builder : TreeSequenceBuilder.t;
  match_ : list (list Z);
  results : list ResultBuffer.t
}.

Definition set_tree_sequence_builder (b : TreeSequenceBuilder.t) (self : t)
  : t :=
  {| num_threads := num_threads self; num_samples := num_samples self;
     num_sites := num_sites self; tree_sequence_builder := b;
     match_ := match_ self; results := results self |}.

Definition set_match (m : list (list Z)) (self : t) : t :=
  {| num_threads := num_threads self; num_samples := num_samples self;
     num_sites := num_sites self;
     tree_sequence_builder := tree_sequence_builder self;
     match_ := m; results := results self |}.

Definition set_results (r : list ResultBuffer.t) (self : t) : t :=
  {| num_threads := num_threads self; num_samples := num_samples self;
     num_sites := num_sites self;
     tree_sequence_builder := tree_sequence_builder self;
     match_ := match_ self; results := r |}.

(** A call on [self.tree_sequence_builder]. *)
Definition on_builder {A} (m : M TreeSequenceBuilder.t A) : M t A :=
  zoom tree_sequence_builder set_tree_sequence_builder m.

(** A call on [self.results[thread_index]]. *)
Definition on_results {A} (thread_index : nat) (m : M ResultBuffer.t A)
  : M t A :=
  zoom results set_results (zoom_index thread_index m).

Section Collaborators.
Context (uninit : nat → Z).
(** The per-thread matcher ([ancestor_matcher_class], not among the
    sources): [find_path tsb haplotype start end] is what
    [matcher.find_path(haplotype, start, end, match)] returns for a matcher
    bound to the builder [tsb], the arrays [left], [right] and [parent],
    together with the contents it leaves in the scratch array [match]; it
    may raise. *)
Context (find_path : TreeSequenceBuilder.t → list Z → nat → nat →
                     result (list Z * list Z * list Z * list Z)).

(** [Matcher.__init__]: a new builder, and one scratch array and one
    [ResultBuffer()] for each of [max(1, num_threads)] threads. *)
Definition __init__ (input_file : InputFile) (num_threads : Z) : result t :=
  let n := Z.to_nat (Z.max 1 num_threads) in
  match ResultBuffer.__init__ uninit 1024 with
  | Ok buffer =>
      Ok {| num_threads := num_threads;
            num_samples := input_num_samples input_file;
            num_sites := input_num_sites input_file;
            tree_sequence_builder := TreeSequenceBuilder.new;
            match_ := replicate n (replicate (input_num_sites input_file) 0%Z);
            results := replicate n buffer |}
  | Raise e => Raise e
  end.

(** [_find_path(child_id, haplotype, start, end, thread_index)] with
    [traceback_file_pattern] left at [None]. *)
Definition _find_path (child_id : nat) (haplotype : list Z)
    (start end_ thread_index : nat) : M t (list Z * list Z * list Z) :=
  self ← get;
  _ ← lift (np.item (results self) (Z.of_nat thread_index));
  _ ← lift (np.item (match_ self) (Z.of_nat thread_index));
  '(l, r, p, m) ←
     lift (find_path (tree_sequence_builder self) haplotype start end_);
  modify (set_match (<[thread_index := m]> (match_ self))) ;;
  on_results thread_index
    (ResultBuffer.add_edges l r p (np.Scalar (Z.of_nat child_id))) ;;
  mret (l, r, p).

(** [restore_tree_sequence_builder(ancestors_ts)] *)
Definition restore_tree_sequence_builder (ancestors_ts : TreeSequence)
  : M t unit :=
  let nodes := ts_nodes ancestors_ts in
  let edges := ts_edges ancestors_ts in
  let mutations := ts_mutations ancestors_ts in
  on_builder (TreeSequenceBuilder.restore_nodes (snd <$> nodes)
                (fst <$> nodes)) ;;
  on_builder (TreeSequenceBuilder.restore_edges
                ((λ e, e.1.1.1) <$> edges) ((λ e, e.1.1.2) <$> edges)
                ((λ e, e.1.2) <$> edges) ((λ e, e.2) <$> edges)) ;;
  on_builder (TreeSequenceBuilder.restore_mutations
                ((λ m, m.1.1) <$> mutations) ((λ m, m.1.2) <$> mutations)
                ((λ m, (m.2 - ord_0)%Z) <$> mutations)).

(** [get_tree_sequence]: the tables dumped from the builder; the order in
    which [msprime.sort_tables] leaves the rows is not modelled. *)
Definition get_tree_sequence (self : t) : TreeSequence :=
  let tsb := tree_sequence_builder self in
  {| ts_nodes := TreeSequenceBuilder.nodes tsb;
     ts_edges := TreeSequenceBuilder.edges tsb;
     ts_mutations :=
       (λ m, (m.1.1, m.1.2, (m.2 + ord_0)%Z)) <$>
         TreeSequenceBuilder.mutations tsb |}.

(** The commit loop shared, line for line, by
    [AncestorMatcher.__complete_epoch] and [SampleMatcher.match_samples]:
    [[
      for j in range(n):
          c = results.child[0] + j
          index = np.where(results.child == c)
          node_id = self.tree_sequence_builder.add_node(time)
          self.tree_sequence_builder.add_path(
              node_id, results.left[index][::-1],
              results.right[index][::-1], results.parent[index][::-1])
      self.tree_sequence_builder.add_mutations(
          results.site, results.node, results.derived_state)
    ]] *)
Definition commit (n : nat) (time : Z) (epoch_results : ResultBuffer.t)
  : M t unit :=
  for_ (seq 0 n) (λ j,
    c0 ← lift (np.index (ResultBuffer.child epoch_results) 0);
    let c := (c0 + Z.of_nat j)%Z in
    let index := np.where_eq (ResultBuffer.child epoch_results) c in
    node_id ← on_builder (TreeSequenceBuilder.add_node time);
    left ← lift (np.take_indices (ResultBuffer.left epoch_results) index);
    right ← lift (np.take_indices (ResultBuffer.right epoch_results) index);
    parent ← lift (np.take_indices (ResultBuffer.parent epoch_results) index);
    on_builder (TreeSequenceBuilder.add_path node_id (reverse left)
                  (reverse right) (reverse parent))) ;;
  on_builder (TreeSequenceBuilder.add_mutations
                (ResultBuffer.site epoch_results)
                (ResultBuffer.node epoch_results)
                (ResultBuffer.derived_state epoch_results)).

(** The branch of [match_ancestors] and of [match_samples]:
    [[
      if self.num_threads <= 0:
          self.__match_..._single_threaded()
      else:
          self.__match_..._multi_threaded()
    ]]
    where the multi-threaded function starts with
    [queue_depth = 8 * self.num_threads], [queue.Queue(queue_depth)] and one
    [threads.queue_consumer_thread] for each [j in range(self.num_threads)]. *)
Definition scheduling_of (num_threads : Z) : scheduling :=
  if decide (num_threads ≤ 0)%Z then SingleThreaded
  else MultiThreaded (8 * num_threads) (np.range 0 num_threads).

End Collaborators.
End Matcher.

(** ** The ancestor-matching scheduler *)

Module AncestorMatcher.

Record t : Type := mk {
  base : Matcher.t;
  num_ancestors : nat;
  epoch : list Z;
  focal_sites : list (list nat);
  start : list nat;
  end_ : list nat;
  epoch_slices : list (nat * nat);
  num_epochs : nat;
  start_epoch : Z;
  haplotypes : list (list Z)
}.

Definition set_base (b : Matcher.t) (self : t) : t :=
  {| base := b; num_ancestors := num_ancestors self; epoch := epoch self;
     focal_sites := focal_sites self; start := start self;
     end_ := end_ self; epoch_slices := epoch_slices self;
     num_epochs := num_epochs self; start_epoch := start_epoch self;
     haplotypes := haplotypes self |}.

Definition set_start_epoch (e : Z) (self : t) : t :=
  {| base := base self; num_ancestors := num_ancestors self;
     epoch := epoch self; focal_sites := focal_sites self;
     start := start self; end_ := end_ self;
     epoch_slices := epoch_slices self; num_epochs := num_epochs self;
     start_epoch := e; haplotypes := haplotypes self |}.

Definition set_haplotypes (h : list (list Z)) (self : t) : t :=
  {| base := base self; num_ancestors := num_ancestors self;
     epoch := epoch self; focal_sites := focal_sites self;
     start := start self; end_ := end_ self;
     epoch_slices := epoch_slices self; num_epochs := num_epochs self;
     start_epoch := start_epoch self; haplotypes := h |}.

(** A method inherited from, or a member of, the base class. *)
Definition on_base {A} (m : M Matcher.t A) : M t A := zoom base set_base m.

Definition tree_sequence_builder (self : t) : TreeSequenceBuilder.t :=
  Matcher.tree_sequence_builder (base self).

(** The list of the id ranges of the epochs:
    [[
      breaks = np.where(self.epoch[1:] != self.epoch[:-1])[0]
      start = np.hstack([[0], breaks + 1])
      end = np.hstack([breaks + 1, [self.num_ancestors]])
      self.epoch_slices = np.vstack([start, end]).T
    ]] *)
Definition breaks_of (epoch : list Z) : list nat :=
  np.where_ne (drop 1 epoch) (take (length epoch - 1) epoch).

Definition epoch_slices_of (epoch : list Z) (num_ancestors : nat)
  : list (nat * nat) :=
  let breaks := breaks_of epoch in
  let start := [0] ++ ((λ b, b + 1) <$> breaks) in
  let end_ := ((λ b, b + 1) <$> breaks) ++ [num_ancestors] in
  zip start end_.

(** [__epoch_info_dict(epoch_index)], less the edge count it formats: the
    time of the epoch and its number of ancestors. *)
Definition __epoch_info_dict (epoch_index : Z) : M t (Z * nat) :=
  self ← get;
  '(start, end_) ← lift (np.item (epoch_slices self) epoch_index);
  time ← lift (np.item (epoch self) (Z.of_nat start));
  mret (time, end_ - start).

(** [next(self.haplotypes)] *)
Definition next_haplotype : M t (list Z) :=
  self ← get;
  match haplotypes self with
  | [] => raise StopIteration
  | a :: rest => modify (set_haplotypes rest) ;; mret a
  end.

(** [store_output()]: the tree sequence written to [output_path]. *)
Definition store_output : M t TreeSequence :=
  self ← get;
  mret (Matcher.get_tree_sequence (base self)).

Section Collaborators.
Context (uninit : nat → Z).
Context (find_path : TreeSequenceBuilder.t → list Z → nat → nat →
                     result (list Z * list Z * list Z * list Z)).

(** The body of [AncestorMatcher.__init__] after the fields are copied from
    the files; [resume] is the tree sequence loaded from [output_path] when
    the build is resumed. *)
Definition init_body (ancestors_file : AncestorFile)
    (resume : option TreeSequence) : M t unit :=
  first_ancestor ←
    match resume with
    | Some ancestor_ts =>
        on_base (Matcher.restore_tree_sequence_builder ancestor_ts) ;;
        let first_ancestor := ts_num_samples ancestor_ts in
        self ← get;
        time ← lift (np.item (epoch self) (Z.of_nat first_ancestor));
        modify (set_start_epoch (Z.of_nat (num_epochs self) - time + 1)) ;;
        mret first_ancestor
    | None =>
        self ← get;
        time ← lift (np.item (epoch self) 0);
        on_base (Matcher.on_builder (TreeSequenceBuilder.add_node time)) ;;
        mret 1
    end;
  modify (set_haplotypes (ancestor_haplotypes ancestors_file first_ancestor)) ;;
  self ← get;
  __epoch_info_dict (start_epoch self - 1) ;;
  mret tt.

(** [AncestorMatcher(input_file, ancestors_file, resume=..., num_threads=...)] *)
Definition __init__ (input_file : InputFile) (ancestors_file : AncestorFile)
    (resume : option TreeSequence) (num_threads : Z) : result t :=
  match Matcher.__init__ uninit input_file num_threads with
  | Raise e => Raise e
  | Ok b =>
      let epoch := file_time ancestors_file in
      let slices := epoch_slices_of epoch (file_num_ancestors ancestors_file) in
      let self :=
        {| base := b;
           num_ancestors := file_num_ancestors ancestors_file;
           epoch := epoch;
           focal_sites := file_focal_sites ancestors_file;
           start := file_start ancestors_file;
           end_ := file_end ancestors_file;
           epoch_slices := slices;
           num_epochs := length slices;
           start_epoch := 1;
           haplotypes := [] |} in
      match init_body ancestors_file resume self with
      | (Ok _, self') => Ok self'
      | (Raise e, _) => Raise e
      end
  end.

(** [__ancestor_find_path(ancestor_id, node_id, haplotype, thread_index)];
    the value is [haplotype] as the call leaves it. *)
Definition __ancestor_find_path (ancestor_id node_id : nat)
    (haplotype : list Z) (thread_index : nat) : M t (list Z) :=
  self ← get;
  focal ← lift (np.item (focal_sites self) (Z.of_nat ancestor_id));
  start ← lift (np.item (start self) (Z.of_nat ancestor_id));
  end_ ← lift (np.item (end_ self) (Z.of_nat ancestor_id));
  on_base (Matcher.on_results thread_index
             (ResultBuffer.add_mutations (Z.of_nat <$> focal)
                (np.Scalar (Z.of_nat node_id)) None)) ;;
  assert (bool_decide (Forall (λ x, x = UNKNOWN_ALLELE)
                         (take start haplotype))) ;;
  assert (bool_decide (Forall (λ x, x = UNKNOWN_ALLELE)
                         (drop end_ haplotype))) ;;
  at_focal ← lift (np.take_indices haplotype focal);
  assert (bool_decide (Forall (λ x, x = 1%Z) at_focal)) ;;
  _ ← on_base (Matcher._find_path find_path node_id haplotype start end_
                 thread_index);
  haplotype' ← lift (np.indices_assign haplotype focal 0);
  self' ← get;
  m ← lift (np.item (Matcher.match_ (base self')) (Z.of_nat thread_index));
  assert (bool_decide (m = haplotype')) ;;
  mret haplotype'.

(** [__complete_epoch(epoch_index)]. When the output interval has elapsed
    the source ends the method with [store_output()], which writes the
    checkpoint and leaves the state as it is. *)
Definition __complete_epoch (epoch_index : Z) : M t unit :=
  self ← get;
  '(start, end_) ← lift (np.item (epoch_slices self) epoch_index);
  let num_ancestors_in_epoch := end_ - start in
  current_time ← lift (np.item (epoch self) (Z.of_nat start));
  epoch_results ← on_base (zoom Matcher.results Matcher.set_results
                             (ResultBuffer.combine uninit));
  on_base (Matcher.commit num_ancestors_in_epoch current_time
             epoch_results) ;;
  self' ← get;
  for_ (seq 0 (length (Matcher.results (base self'))))
    (λ i, on_base (Matcher.on_results i ResultBuffer.clear)).

(** The body of the loop over the epochs in
    [__match_ancestors_single_threaded]. *)
Definition match_epoch_single_threaded (j : Z) : M t unit :=
  __epoch_info_dict j ;;
  self ← get;
  '(start, end_) ← lift (np.item (epoch_slices self) j);
  let node_id := TreeSequenceBuilder.num_nodes (tree_sequence_builder self) in
  for_acc (seq start (end_ - start)) node_id (λ ancestor_id node_id,
    a ← next_haplotype;
    __ancestor_find_path ancestor_id node_id a 0 ;;
    mret (node_id + 1)) ;;
  __complete_epoch j.

(** [__match_ancestors_single_threaded()] *)
Definition __match_ancestors_single_threaded : M t unit :=
  self ← get;
  for_ (np.range (start_epoch self) (Z.of_nat (num_epochs self)))
    match_epoch_single_threaded.

(** The producer side of the loop over the epochs in
    [__match_ancestors_multi_threaded]: the work items put on the queue for
    epoch [j], in order. *)
Definition epoch_dispatch (j : Z) : M t (list (nat * nat * list Z)) :=
  __epoch_info_dict j ;;
  self ← get;
  '(start, end_) ← lift (np.item (epoch_slices self) j);
  let node_id := TreeSequenceBuilder.num_nodes (tree_sequence_builder self) in
  '(_, work) ←
    for_acc (seq start (end_ - start)) (node_id, [])
      (λ ancestor_id '(node_id, work),
        a ← next_haplotype;
        mret (node_id + 1, work ++ [(ancestor_id, node_id, a)]));
  mret work.

(** The branch taken by [match_ancestors()]. *)
Definition match_ancestors_scheduling (self : t) : scheduling :=
  Matcher.scheduling_of (Matcher.num_threads (base self)).

(** [match_ancestors()] on its single-threaded branch. *)
Definition match_ancestors_single_threaded : M t TreeSequence :=
  __match_ancestors_single_threaded ;;
  store_output.

End Collaborators.
End AncestorMatcher.

(** ** The sample-matching scheduler *)

Module SampleMatcher.

Record t : Type := mk {
  base : Matcher.t;
  sample_haplotypes : list (list Z);
  sample_ids : list nat
}.

Definition set_base (b : Matcher.t) (self : t) : t :=
  {| base := b; sample_haplotypes := sample_haplotypes self;
     sample_ids := sample_ids self |}.

Definition on_base {A} (m : M Matcher.t A) : M t A := zoom base set_base m.

Section Collaborators.
Context (uninit : nat → Z).
Context (find_path : TreeSequenceBuilder.t → list Z → nat → nat →
                     result (list Z * list Z * list Z * list Z)).

(** [SampleMatcher(input_file, ancestors_ts, num_threads=...)] *)
Definition __init__ (input_file : InputFile) (ancestors_ts : TreeSequence)
    (num_threads : Z) : result t :=
  match Matcher.__init__ uninit input_file num_threads with
  | Raise e => Raise e
  | Ok b =>
      match Matcher.restore_tree_sequence_builder ancestors_ts b with
      | (Ok _, b') =>
          let start :=
            TreeSequenceBuilder.num_nodes (Matcher.tree_sequence_builder b') in
          Ok {| base := b';
                sample_haplotypes := input_sample_haplotypes input_file;
                sample_ids := seq start (Matcher.num_samples b') |}
      | (Raise e, _) => Raise e
      end
  end.

(** [__process_sample(sample_id, haplotype, thread_index)] *)
Definition __process_sample (sample_id : nat) (haplotype : list Z)
    (thread_index : nat) : M t unit :=
  self ← get;
  _ ← on_base (Matcher._find_path find_path sample_id haplotype 0
                 (Matcher.num_sites (base self)) thread_index);
  self' ← get;
  m ← lift (np.item (Matcher.match_ (base self')) (Z.of_nat thread_index));
  let diffs := np.where_ne haplotype m in
  derived_state ← lift (np.take_indices haplotype diffs);
  on_base (Matcher.on_results thread_index
             (ResultBuffer.add_mutations (Z.of_nat <$> diffs)
                (np.Scalar (Z.of_nat sample_id))
                (Some (np.Array derived_state)))).

(** [__match_samples_single_threaded()] *)
Definition __match_samples_single_threaded : M t unit :=
  self ← get;
  j ← for_acc (sample_haplotypes self) 0 (λ a j,
         self' ← get;
         let sample_id :=
           TreeSequenceBuilder.num_nodes
             (Matcher.tree_sequence_builder (base self')) + j in
         __process_sample sample_id a 0 ;;
         mret (j + 1));
  assert (bool_decide (j = Matcher.num_samples (base self))).

(** The branch taken by [match_samples()]. *)
Definition match_samples_scheduling (self : t) : scheduling :=
  Matcher.scheduling_of (Matcher.num_threads (base self)).

(** [match_samples()] after the matching: the commit. *)
Definition match_samples_commit : M t unit :=
  results ← on_base (zoom Matcher.results Matcher.set_results
                       (ResultBuffer.combine uninit));
  self ← get;
  on_base (Matcher.commit (Matcher.num_samples (base self)) 0 results).

(** [match_samples()] on its single-threaded branch. *)
Definition match_samples_single_threaded : M t unit :=
  __match_samples_single_threaded ;;
  match_samples_commit.

End Collaborators.
End SampleMatcher.

(** ** The worker threads, one work item at a time *)

Module Workers.

Section Collaborators.
Context (find_path : TreeSequenceBuilder.t → list Z → nat → nat →
                     result (list Z * list Z * list Z * list Z)).

(** One turn of the loop of [match_worker] in
    [__match_ancestors_multi_threaded], for a work item that is not [None]:
    [[
      ancestor_id, node_id, a = work
      self.__ancestor_find_path(ancestor_id, node_id, a, thread_index)
    ]] *)
Definition ancestor_match_worker_step (thread_index : nat)
    (work : nat * nat * list Z) : M AncestorMatcher.t unit :=
  let '(ancestor_id, node_id, a) := work in
  AncestorMatcher.__ancestor_find_path find_path ancestor_id node_id a
    thread_index ;;
  mret tt.

(** One turn of the loop of [match_worker] in
    [__match_samples_multi_threaded]:
    [[
      sample_id, a = work
      self.__process_sample(sample_id, a, thread_index)
    ]] *)
Definition sample_match_worker_step (thread_index : nat)
    (work : nat * list Z) : M SampleMatcher.t unit :=
  let '(sample_id, a) := work in
  SampleMatcher.__process_sample find_path sample_id a thread_index.

End Collaborators.

(** The work items [__match_samples_multi_threaded] puts on the queue:
    [zip(self.sample_ids, self.sample_haplotypes)]. *)
Definition samples_dispatch (self : SampleMatcher.t) : list (nat * list Z) :=
  zip (SampleMatcher.sample_ids self) (SampleMatcher.sample_haplotypes self).

End Workers.

(** ** Verification of a tree sequence of ancestors ([verify]) *)

Module Verify.

(** What [verify] reads from [ancestors_ts]: [num_nodes], [num_sites] and,
    for each variant that [variants()] yields, in order, its [index] and
    its [genotypes]. *)
Record TreeSequenceVariants : Type := {
  ts_num_nodes : nat;
  ts_num_sites : nat;
  ts_variants : list (nat * list Z)
}.

(** The arguments of the [ValueError]s that [verify] raises. *)
Inductive value_error : Type :=
  | Incorrect_number_of_ancestors
  | Incorrect_number_of_sites
  | Unequal_genotypes_at_site (index : nat)
  | Iteration_stopped_early.

(** How a call of [verify] ends: it returns, or it raises a [ValueError]. *)
Inductive ending : Type :=
  | Returns
  | Raises (e : value_error).

(** [g1[g1 == UNKNOWN_ALLELE] = 0] *)
Definition unknown_to_zero (g1 : list Z) : list Z :=
  (λ x, if decide (x = UNKNOWN_ALLELE) then 0%Z else x) <$> g1.

(** The loop over [zip(ancestors_file.site_genotypes(),
    ancestors_ts.variants())]; the value is [count]. *)
Fixpoint verify_loop (pairs : list (list Z * (nat * list Z))) (count : nat)
  : value_error + nat :=
  match pairs with
  | [] => inr count
  | (g1, (index, g2)) :: pairs' =>
      let g1 := unknown_to_zero g1 in
      if decide (g1 = g2) then verify_loop pairs' (count + 1)
      else inl (Unequal_genotypes_at_site index)
  end.

(** [verify(input_hdf5, ancestors_hdf5, ancestors_ts)], with
    [site_genotypes] the arrays that [ancestors_file.site_genotypes()]
    yields, in order. *)
Definition verify (input_file : InputFile) (ancestors_file : AncestorFile)
    (site_genotypes : list (list Z)) (ancestors_ts : TreeSequenceVariants)
  : ending :=
  if decide (ts_num_nodes ancestors_ts ≠ file_num_ancestors ancestors_file)
  then Raises Incorrect_number_of_ancestors
  else if decide (ts_num_sites ancestors_ts ≠ input_num_sites input_file)
  then Raises Incorrect_number_of_sites
  else
    match verify_loop (zip site_genotypes (ts_variants ancestors_ts)) 0 with
    | inl e => Raises e
    | inr count =>
        if decide (count ≠ ts_num_sites ancestors_ts)
        then Raises Iteration_stopped_early
        else Returns
    end.

End Verify.

(** * Specification vocabulary

    The predicates and functions the properties below are stated with. *)

(** A relation between the state before and the state after that every
    run of a computation satisfies, whatever its outcome. *)
Definition stable {S A} (R : relation S) (m : M S A) : Prop :=
  ∀ s, R s (m s).2.

Module BufferSpec.
Import ResultBuffer.

(** The representation invariant of a buffer. *)
Record wf (b : t) : Prop := {
  wf_chunk : 1 ≤ chunk_size b;
  wf_left : length (__left b) = max_edges b;
  wf_right : length (__right b) = max_edges b;
  wf_parent : length (__parent b) = max_edges b;
  wf_child : length (__child b) = max_edges b;
  wf_edges : num_edges b ≤ max_edges b;
  wf_site : length (__site b) = max_mutations b;
  wf_node : length (__node b) = max_mutations b;
  wf_derived_state : length (__derived_state b) = max_mutations b;
  wf_mutations : num_mutations b ≤ max_mutations b
}.

(** The seven views of a buffer. *)
Record columns : Type := Columns {
  c_left : list Z; c_right : list Z; c_parent : list Z; c_child : list Z;
  c_site : list Z; c_node : list Z; c_derived_state : list Z
}.

Definition views (b : t) : columns :=
  Columns (left b) (right b) (parent b) (child b)
          (site b) (node b) (derived_state b).

Definition no_columns : columns := Columns [] [] [] [] [] [] [].

Definition append (x y : columns) : columns :=
  Columns (c_left x ++ c_left y) (c_right x ++ c_right y)
          (c_parent x ++ c_parent y) (c_child x ++ c_child y)
          (c_site x ++ c_site y) (c_node x ++ c_node y)
          (c_derived_state x ++ c_derived_state y).

(** An operand as the column it fills in a batch of [n] records. *)
Definition expand (n : nat) (v : np.operand) : list Z :=
  match np.broadcast n v with
  | Ok vs => vs
  | Raise _ => []
  end.

(** The capacity after a successful request for [additional] records. *)
Definition grown (count capacity additional chunk : nat) : nat :=
  if decide (count + additional > capacity)
  then capacity + additional `max` chunk
  else capacity.

(** The operand [add_mutations] stores in the derived-state column. *)
Definition fill_of (derived_state : option np.operand) : np.operand :=
  match derived_state with
  | None => np.Scalar 1
  | Some d => d
  end.

(** The arguments [add_edges] and [add_mutations] accept. *)
Definition edges_accepted (l r p : list Z) (c : np.operand) : Prop :=
  length r = length l ∧ length p = length l ∧
  ∃ vs, np.broadcast (length l) c = Ok vs.

Definition mutations_accepted (s : list Z) (n : np.operand)
    (d : option np.operand) : Prop :=
  (∃ vs, np.broadcast (length s) n = Ok vs) ∧
  (∃ vs, np.broadcast (length s) (fill_of d) = Ok vs).

(** A call that appends records to a buffer. *)
Inductive request : Type :=
  | AddEdges (left right parent : list Z) (child : np.operand)
  | AddMutations (site : list Z) (node : np.operand)
      (derived_state : option np.operand)
  | AddBackMutation (site node : Z).

Definition perform (q : request) : M t unit :=
  match q with
  | AddEdges l r p c => add_edges l r p c
  | AddMutations s n d => add_mutations s n d
  | AddBackMutation s n => add_back_mutation s n
  end.

(** The records a request appends when it returns. *)
Definition batch (q : request) : columns :=
  match q with
  | AddEdges l r p c => Columns l r p (expand (length l) c) [] [] []
  | AddMutations s n d =>
      Columns [] [] [] [] s (expand (length s) n)
        (expand (length s) (fill_of d))
  | AddBackMutation s n => Columns [] [] [] [] [s] [n] [0%Z]
  end.

Definition batches (qs : list request) : columns :=
  foldr (λ q acc, append (batch q) acc) no_columns qs.

(** The numbers of edge and of mutation records a request needs room for. *)
Definition edges_needed (q : request) : nat :=
  match q with
  | AddEdges l _ _ _ => length l
  | _ => 0
  end.

Definition mutations_needed (q : request) : nat :=
  match q with
  | AddEdges _ _ _ _ => 0
  | AddMutations s _ _ => length s
  | AddBackMutation _ _ => 1
  end.

(** The buffers a program can hold: made by the constructor and then
    changed by the methods, whether they returned or raised. *)
Inductive reachable (uninit : nat → Z) : t → Prop :=
  | reachable_new cs b : __init__ uninit cs = Ok b → reachable uninit b
  | reachable_perform q b :
      reachable uninit b → reachable uninit (exec (perform q) b)
  | reachable_clear b : reachable uninit b → reachable uninit (exec clear b).

(** The views of a list of buffers, one after the other. *)
Definition concat_views (bufs : list t) : columns :=
  foldr (λ b acc, append (views b) acc) no_columns bufs.

(** The mutation records in a set of columns. *)
Definition mutation_rows (c : columns) : list (Z * Z * Z) :=
  (λ '(s, (n, d)), (s, n, d)) <$>
    zip (c_site c) (zip (c_node c) (c_derived_state c)).

(** The mutation columns have one length. *)
Definition aligned (c : columns) : Prop :=
  length (c_node c) = length (c_site c) ∧
  length (c_derived_state c) = length (c_site c).

(** A buffer keeps its invariant and the mutation records it holds. *)
Definition keeps_rows (b b' : t) : Prop :=
  wf b →
  wf b' ∧ ∀ row, row ∈ mutation_rows (views b) → row ∈ mutation_rows (views b').

(** The buffers of a list keep their invariants and their mutation
    records, each at its index. *)
Definition keeps_all (l l' : list ResultBuffer.t) : Prop :=
  Forall wf l →
  Forall wf l' ∧
  ∀ ti b row, l !! ti = Some b → row ∈ mutation_rows (views b) →
              ∃ b', l' !! ti = Some b' ∧ row ∈ mutation_rows (views b').

End BufferSpec.

Module BuilderSpec.
Import TreeSequenceBuilder.

(** The builder [b'] is [b] after [m] more calls of [add_node], which
    returned the next [m] ids in order. *)
Definition grows_by (m : nat) (b b' : t) : Prop :=
  add_node_ids (calls b') = add_node_ids (calls b) ++ seq (num_nodes b) m ∧
  num_nodes b' = num_nodes b + m.

Definition grows (b b' : t) : Prop := ∃ m, grows_by m b b'.

End BuilderSpec.

Module MatcherSpec.
Import BufferSpec BuilderSpec Matcher.

Definition matcher_grows (s s' : t) : Prop :=
  BuilderSpec.grows (tree_sequence_builder s) (tree_sequence_builder s').

(** The builder is the same object in the same state. *)
Definition same_builder (s s' : t) : Prop :=
  tree_sequence_builder s' = tree_sequence_builder s.

(** On the base class: the builder is untouched and the buffers keep
    their records. *)
Definition matching (s s' : Matcher.t) : Prop :=
  same_builder s s' ∧ keeps_all (Matcher.results s) (Matcher.results s').

(** What the commit does to the builder: [m] more nodes, with the next [m]
    ids, and the mutation table extended by [rows]; nothing else of the
    orchestrator changes. *)
Definition committed (m : nat) (rows : list (Z * Z * Z)) (s s' : Matcher.t)
  : Prop :=
  grows_by m (Matcher.tree_sequence_builder s)
    (Matcher.tree_sequence_builder s') ∧
  TreeSequenceBuilder.mutations (Matcher.tree_sequence_builder s') =
    TreeSequenceBuilder.mutations (Matcher.tree_sequence_builder s) ++ rows ∧
  Matcher.results s' = Matcher.results s ∧
  Matcher.match_ s' = Matcher.match_ s.

End MatcherSpec.

Module AncestorSpec.
Import BufferSpec BuilderSpec MatcherSpec AncestorMatcher.

(** The fence posts of the partition: [0], the ends of the epochs but the
    last, and [num_ancestors]. *)
Definition posts (epoch : list Z) (num_ancestors : nat) : list nat :=
  (0 :: ((λ b, b + 1) <$> breaks_of epoch)) ++ [num_ancestors].

(** What matching leaves alone: the data read from the ancestor file, the
    epoch ranges and the builder; and the buffers keep their records. *)
Definition steady (s s' : t) : Prop :=
  focal_sites s' = focal_sites s ∧ start s' = start s ∧ end_ s' = end_ s ∧
  epoch s' = epoch s ∧ epoch_slices s' = epoch_slices s ∧
  matching (base s) (base s').

(** The builder has only grown by calls of [add_node] that returned the
    next ids. *)
Definition advances (s s' : t) : Prop :=
  BuilderSpec.grows (tree_sequence_builder s) (tree_sequence_builder s').

(** The builder is untouched. *)
Definition same_tsb (s s' : t) : Prop :=
  tree_sequence_builder s' = tree_sequence_builder s.

(** The buffers keep their invariant. *)
Definition keeps_wf (s s' : t) : Prop :=
  Forall wf (Matcher.results (base s)) →
  Forall wf (Matcher.results (base s')).

(** The ids the builder of an orchestrator has handed out, and those it
    handed out between two states. *)
Definition node_ids (s : t) : list nat :=
  TreeSequenceBuilder.add_node_ids
    (TreeSequenceBuilder.calls (tree_sequence_builder s)).

Definition new_node_ids (s s' : t) : list nat :=
  drop (length (node_ids s)) (node_ids s').

Definition num_nodes (s : t) : nat :=
  TreeSequenceBuilder.num_nodes (tree_sequence_builder s).

(** The buffers of an orchestrator are the same objects in the same
    state. *)
Definition same_results (s s' : t) : Prop :=
  Matcher.results (base s') = Matcher.results (base s).

(** The node, edge and mutation tables of the builder of an orchestrator. *)
Definition tree_sequence_builder_tables (s : t) :=
  (TreeSequenceBuilder.nodes (tree_sequence_builder s),
   TreeSequenceBuilder.edges (tree_sequence_builder s),
   TreeSequenceBuilder.mutations (tree_sequence_builder s)).

End AncestorSpec.

(** ** A small instance *)

Module Example.

(** A matcher that copies every haplotype from node 0 over its whole span:
    one edge, and a scratch array that differs from the haplotype where the
    haplotype has the derived allele. *)
Definition find_path (tsb : TreeSequenceBuilder.t) (haplotype : list Z)
    (start end_ : nat) : result (list Z * list Z * list Z * list Z) :=
  Ok ([Z.of_nat start], [Z.of_nat end_], [0%Z],
      (λ x, if decide (x = 1%Z) then 0%Z else x) <$> haplotype).

Definition uninit (_ : nat) : Z := 0%Z.

Definition input_file : InputFile :=
  {| input_num_samples := 2; input_num_sites := 3;
     input_sample_haplotypes := [[1; 0; 1]; [0; 1; 1]]%Z |}.

(** Four ancestors in three epochs. *)
Definition ancestors_file : AncestorFile :=
  {| file_num_ancestors := 4;
     file_time := [4; 3; 3; 2]%Z;
     file_focal_sites := [[]; [0]; [1]; [2]];
     file_start := [0; 0; 1; 1];
     file_end := [3; 3; 3; 3];
     file_ancestor_haplotypes :=
       [[0; 0; 0]; [1; 0; 0]; [255; 1; 0]; [255; 0; 1]]%Z |}.

(** Three ancestors whose times are not consecutive down to 2. *)
Definition sparse_ancestors_file : AncestorFile :=
  {| file_num_ancestors := 3;
     file_time := [5; 4; 3]%Z;
     file_focal_sites := [[]; [0]; [1]];
     file_start := [0; 0; 0];
     file_end := [3; 3; 3];
     file_ancestor_haplotypes := [[0; 0; 0]; [1; 0; 0]; [0; 1; 0]]%Z |}.

End Example.

Module CommitSpec.
Import ResultBuffer BufferSpec.

(** The entries of the column [col] in the records whose child is [c], in
    buffer order. *)
Definition column_of_child (col child : list Z) (c : Z) : list Z :=
  fst <$> filter (λ x, x.2 = c) (zip col child).

(** The calls a commit of [n] nodes makes on a builder that has [first_id]
    nodes, for merged records whose first child is [c0]: for each node an
    [add_node] and then an [add_path] with the records whose child is
    [c0 + j], last record first; and one [add_mutations] at the end. *)
Definition commit_calls (first_id : nat) (c0 : Z) (n : nat) (time : Z)
    (er : ResultBuffer.t) : list TreeSequenceBuilder.call :=
  flat_map (λ j,
    let c := (c0 + Z.of_nat j)%Z in
    [TreeSequenceBuilder.AddNode time (first_id + j);
     TreeSequenceBuilder.AddPath (first_id + j)
       (reverse (column_of_child (left er) (child er) c))
       (reverse (column_of_child (right er) (child er) c))
       (reverse (column_of_child (parent er) (child er) c))]) (seq 0 n)
  ++ [TreeSequenceBuilder.AddMutations (site er) (node er) (derived_state er)].

End CommitSpec.

Module IsolationSpec.
Import Matcher.

(** What a call made for thread [ti] may change on the base class: the
    buffer and the scratch array of that thread, and nothing else. *)
Definition thread_local (ti : nat) (s s' : Matcher.t) : Prop :=
  tree_sequence_builder s' = tree_sequence_builder s ∧
  num_threads s' = num_threads s ∧
  num_samples s' = num_samples s ∧
  num_sites s' = num_sites s ∧
  length (results s') = length (results s) ∧
  length (match_ s') = length (match_ s) ∧
  ∀ tj, tj ≠ ti →
        results s' !! tj = results s !! tj ∧ match_ s' !! tj = match_ s !! tj.

(** The same for the two orchestrators: of their own fields none
    changes. *)
Definition ancestor_thread_local (ti : nat) (s s' : AncestorMatcher.t)
  : Prop :=
  AncestorMatcher.set_base (AncestorMatcher.base s) s' = s ∧
  thread_local ti (AncestorMatcher.base s) (AncestorMatcher.base s').

Definition sample_thread_local (ti : nat) (s s' : SampleMatcher.t) : Prop :=
  SampleMatcher.set_base (SampleMatcher.base s) s' = s ∧
  thread_local ti (SampleMatcher.base s) (SampleMatcher.base s').

End IsolationSpec.

Module RunSpec.
Import TreeSequenceBuilder.

(** The times the recorded [add_node] calls were given, in call order. *)
Definition add_node_times (cs : list call) : list Z :=
  omap (λ c, match c with AddNode time _ => Some time | _ => None end) cs.


(** Only the base class part of an orchestrator has changed. *)
Definition only_base (s s' : AncestorMatcher.t) : Prop :=
  AncestorMatcher.set_base (AncestorMatcher.base s) s' = s.

End RunSpec.

Module DispatchSpec.
Import AncestorMatcher.

(** A computation of the ancestor scheduler that neither reads nor moves
    the haplotype iterator. *)
Definition framed {A} (m : M AncestorMatcher.t A) : Prop :=
  ∀ H st,
    m (set_haplotypes H st) =
    (let '(r, st') := m st in (r, set_haplotypes H st')).

End DispatchSpec.

Module SampleSpec.


End SampleSpec.

Module ObservableSpec.
Import ResultBuffer BufferSpec.

(** What a program can observe of a buffer: its chunk size, its two
    capacities and its seven views. *)
Record observation : Type := Observation {
  o_chunk_size : nat;
  o_max_edges : nat;
  o_max_mutations : nat;
  o_views : columns
}.

Definition observe (b : t) : observation :=
  Observation (chunk_size b) (max_edges b) (max_mutations b) (views b).

(** A call of a method of a buffer. *)
Inductive method_call : Type :=
  | Request (q : request)
  | Clear.

Definition invoke (m : method_call) : M t unit :=
  match m with
  | Request q => perform q
  | Clear => clear
  end.

(** How a request ends, read off its arguments: the arrays of an edge
    batch must have one length, or [AssertionError] is raised; a value that
    is stored in a column must be a single value, an array of one element
    or an array of the length of the batch, or numpy's [ValueError] is
    raised. *)
Definition request_outcome (q : request) : result unit :=
  match q with
  | AddEdges l r p c =>
      if bool_decide (length r = length l) then
        if bool_decide (length p = length l) then
          match np.broadcast (length l) c with
          | Ok _ => Ok tt
          | Raise e => Raise e
          end
        else Raise AssertionError
      else Raise AssertionError
  | AddMutations s n d =>
      match np.broadcast (length s) n with
      | Ok _ =>
          match np.broadcast (length s) (fill_of d) with
          | Ok _ => Ok tt
          | Raise e => Raise e
          end
      | Raise e => Raise e
      end
  | AddBackMutation _ _ => Ok tt
  end.

(** The capacities after a request: the arrays are resized before the
    values are stored, so a request that raises [ValueError] may have grown
    them; one that raises [AssertionError] has not. *)
Definition capacity_after (q : request) (o : observation) : nat * nat :=
  match q with
  | AddEdges l r p c =>
      if bool_decide (length r = length l) && bool_decide (length p = length l)
      then (grown (length (c_left (o_views o))) (o_max_edges o) (length l)
              (o_chunk_size o),
            o_max_mutations o)
      else (o_max_edges o, o_max_mutations o)
  | AddMutations s _ _ =>
      (o_max_edges o,
       grown (length (c_site (o_views o))) (o_max_mutations o) (length s)
         (o_chunk_size o))
  | AddBackMutation _ _ =>
      (o_max_edges o,
       grown (length (c_site (o_views o))) (o_max_mutations o) 1
         (o_chunk_size o))
  end.

(** What a call does to what can be observed. *)
Definition observed_call (m : method_call) (o : observation)
  : result unit * observation :=
  match m with
  | Request q =>
      let '(me, mm) := capacity_after q o in
      (request_outcome q,
       Observation (o_chunk_size o) me mm
         (match request_outcome q with
          | Ok _ => append (o_views o) (batch q)
          | Raise _ => o_views o
          end))
  | Clear =>
      (Ok tt,
       Observation (o_chunk_size o) (o_max_edges o) (o_max_mutations o)
         no_columns)
  end.

(** A program that makes the calls [ms] on a buffer one after the other and
    goes on after an exception: the outcomes of the calls, and the buffer
    in the end. *)
Fixpoint run_calls (ms : list method_call) (b : t) : list (result unit) * t :=
  match ms with
  | [] => ([], b)
  | m :: ms' =>
      let '(r, b') := invoke m b in
      let '(rs, b'') := run_calls ms' b' in
      (r :: rs, b'')
  end.

End ObservableSpec.

Module PathSpec.
Import ResultBuffer BufferSpec.

(** What the matching of one ancestor finds: the focal sites of the
    ancestor, and the edges of the path the matcher returned for its
    haplotype. *)
Record ancestor_path : Type := Path {
  path_focal : list nat;
  path_left : list Z;
  path_right : list Z;
  path_parent : list Z
}.

(** The records one matching call appends for an ancestor: a mutation with
    derived state 1 at each focal site and the edges of the path, all under
    the node id. *)
Definition ancestor_block (nid : nat) (x : ancestor_path) : columns :=
  Columns (path_left x) (path_right x) (path_parent x)
    (replicate (length (path_left x)) (Z.of_nat nid))
    (Z.of_nat <$> path_focal x)
    (replicate (length (path_focal x)) (Z.of_nat nid))
    (replicate (length (path_focal x)) 1%Z).

(** The same for ancestors matched one after the other under consecutive
    node ids. *)
Fixpoint ancestor_blocks (nid : nat) (found : list ancestor_path) : columns :=
  match found with
  | [] => no_columns
  | x :: found' =>
      append (ancestor_block nid x) (ancestor_blocks (S nid) found')
  end.

End PathSpec.

(** * Properties *)

(** ** The monad and the numpy operations *)

Ltac munfold :=
  cbv [mbind mret M_MBind M_MRet M_bind M_ret get gets put modify raise lift
       assert zoom zoom_index call_on outcome exec].

(** Names the value of a closed computation. *)
Ltac evaluate_ok t name :=
  let r := eval vm_compute in t in
  match r with
  | Ok ?s => pose (name := s)
  | (Ok _, ?s) => pose (name := s)
  end.

Lemma bind_run {S A B} (m : M S A) (f : A → M S B) (s : S) :
  (m ≫= f) s =
  match m s with
  | (Ok a, s') => f a s'
  | (Raise e, s') => (Raise e, s')
  end.
Proof. reflexivity. Qed.

Section NumpyFacts.
Implicit Types (a vs : list Z) (v : np.operand).

Lemma broadcast_length n v vs : np.broadcast n v = Ok vs → length vs = n.
Proof.
  destruct v as [z|a]; simpl.
  - intros [= <-]. apply length_replicate.
  - destruct (decide (length a = n)) as [<-|Hne]; [by intros [= <-]|].
    destruct a as [|z [|? ?]]; try done. intros [= <-]. apply length_replicate.
Qed.

Lemma broadcast_array a n : length a = n → np.broadcast n (np.Array a) = Ok a.
Proof. intros Hn. simpl. by rewrite decide_True. Qed.

Lemma slice_assign_run a lo k v :
  lo + k ≤ length a →
  np.slice_assign a lo (lo + k) v =
  match np.broadcast k v with
  | Ok vs => Ok (take lo a ++ vs ++ drop (lo + k) a)
  | Raise e => Raise e
  end.
Proof.
  intros Hle. unfold np.slice_assign.
  replace (lo `min` length a) with lo by lia.
  replace ((lo + k) `min` length a - lo) with k by lia.
  reflexivity.
Qed.

Lemma written_take a lo vs :
  lo + length vs ≤ length a →
  take (lo + length vs) (take lo a ++ vs ++ drop (lo + length vs) a)
  = take lo a ++ vs.
Proof.
  intros Hle. rewrite app_assoc.
  rewrite take_app_le by (rewrite length_app, length_take; lia).
  rewrite take_ge; [done|]. rewrite length_app, length_take. lia.
Qed.

Lemma written_length a lo vs :
  lo + length vs ≤ length a →
  length (take lo a ++ vs ++ drop (lo + length vs) a) = length a.
Proof.
  intros Hle. rewrite !length_app, length_take, length_drop. lia.
Qed.

Lemma written_prefix a lo vs k :
  k ≤ lo → lo ≤ length a →
  take k (take lo a ++ vs ++ drop (lo + length vs) a) = take k a.
Proof.
  intros Hk Hlo. rewrite take_app_le by (rewrite length_take; lia).
  rewrite take_take. f_equal. lia.
Qed.

Lemma resize_length a n : length a ≤ n → length (np.resize a n) = n.
Proof.
  intros Hle. unfold np.resize.
  rewrite length_app, length_take, length_replicate. lia.
Qed.

Lemma resize_prefix a n k :
  k ≤ length a → length a ≤ n → take k (np.resize a n) = take k a.
Proof.
  intros Hk Hn. unfold np.resize. rewrite (take_ge a n) by done.
  rewrite take_app_le by done. done.
Qed.

Lemma index_assign_run a i z :
  i < length a → np.index_assign a i z = Ok (<[i := z]> a).
Proof. intros Hi. unfold np.index_assign. by rewrite decide_True. Qed.

Lemma insert_take_snoc a i z :
  i < length a → take (i + 1) (<[i := z]> a) = take i a ++ [z].
Proof.
  intros Hi. replace (i + 1) with (S i) by lia.
  rewrite (take_S_r _ i z) by (by apply list_lookup_insert_eq).
  by rewrite take_insert_ge.
Qed.

Lemma insert_prefix a i z k : k ≤ i → take k (<[i := z]> a) = take k a.
Proof. intros Hk. by rewrite take_insert_ge. Qed.

End NumpyFacts.

Section Stable.
Context {S : Type} (R : relation S) `{!Reflexive R, !Transitive R}.

Lemma stable_ret {A} (a : A) : stable R (mret a).
Proof. intros s. simpl. reflexivity. Qed.

Lemma stable_raise {A} e : stable R (raise e : M S A).
Proof. intros s. simpl. reflexivity. Qed.

Lemma stable_lift {A} (r : result A) : stable R (lift r).
Proof. intros s. simpl. reflexivity. Qed.

Lemma stable_get : stable R get.
Proof. intros s. simpl. reflexivity. Qed.

Lemma stable_assert c : stable R (assert c).
Proof. intros s. destruct c; simpl; reflexivity. Qed.

Lemma stable_modify g : (∀ s, R s (g s)) → stable R (modify g).
Proof. intros Hg s. apply Hg. Qed.

Lemma stable_bind {A B} (m : M S A) (f : A → M S B) :
  stable R m → (∀ a, stable R (f a)) → stable R (m ≫= f).
Proof.
  intros Hm Hf s. rewrite bind_run. specialize (Hm s).
  destruct (m s) as [[a|e] s1]; simpl in *; [|done].
  etrans; [exact Hm|apply Hf].
Qed.

Lemma stable_for {A} (xs : list A) body :
  (∀ x, stable R (body x)) → stable R (for_ xs body).
Proof.
  intros Hb. induction xs as [|x xs IH]; simpl.
  - apply stable_ret.
  - apply stable_bind; [apply Hb|by intros _].
Qed.

Lemma stable_for_acc {A B} (xs : list A) (acc : B) body :
  (∀ x acc, stable R (body x acc)) → stable R (for_acc xs acc body).
Proof.
  intros Hb. revert acc. induction xs as [|x xs IH]; intros acc; simpl.
  - apply stable_ret.
  - apply stable_bind; [apply Hb|intros acc'; apply IH].
Qed.

End Stable.

Lemma stable_zoom {S T A} (R : relation S) (R' : relation T)
    (getf : S → T) (setf : T → S → S) (m : M T A) :
  stable R' m → (∀ s t', R' (getf s) t' → R s (setf t' s)) →
  stable R (zoom getf setf m).
Proof.
  intros Hm Hset s. unfold zoom. specialize (Hm (getf s)).
  destruct (m (getf s)) as [r t']. simpl in *. by apply Hset.
Qed.

Lemma stable_zoom_index {T A} (R : relation (list T)) (R' : relation T)
    `{!Reflexive R} (i : nat) (m : M T A) :
  stable R' m →
  (∀ objs o o', objs !! i = Some o → R' o o' → R objs (<[i := o']> objs)) →
  stable R (zoom_index i m).
Proof.
  intros Hm Hset objs. unfold zoom_index.
  destruct (objs !! i) as [o|] eqn:Ho; [|simpl; reflexivity].
  specialize (Hm o). destruct (m o) as [r o']. simpl in *. by eapply Hset.
Qed.

Lemma stable_weaken {S A} (R R' : relation S) (m : M S A) :
  (∀ s s', R s s' → R' s s') → stable R m → stable R' m.
Proof. intros HR Hm s. apply HR, Hm. Qed.

(** Running a computation whose outcome is known. *)
Lemma bind_ok {S A B} (m : M S A) (f : A → M S B) s b s' :
  (m ≫= f) s = (Ok b, s') →
  ∃ a s1, m s = (Ok a, s1) ∧ f a s1 = (Ok b, s').
Proof.
  rewrite bind_run. destruct (m s) as [[a|e] s1]; [|done]. eauto.
Qed.

Lemma zoom_run {S T A} (getf : S → T) (setf : T → S → S) (m : M T A) s r s' :
  zoom getf setf m s = (r, s') →
  ∃ t', m (getf s) = (r, t') ∧ s' = setf t' s.
Proof.
  unfold zoom. destruct (m (getf s)) as [r0 t']. intros [= <- <-]. eauto.
Qed.

Lemma lift_ok {S A} (r : result A) (s : S) a s' :
  lift r s = (Ok a, s') → r = Ok a ∧ s' = s.
Proof. by intros [= -> ->]. Qed.

Lemma assert_ok {S} c (s s' : S) u :
  assert c s = (Ok u, s') → c = true ∧ s' = s.
Proof. destruct c; [by intros [= <-]|done]. Qed.

Lemma for_app {S A} (xs ys : list A) (body : A → M S unit) s :
  for_ (xs ++ ys) body s = (for_ xs body ;; for_ ys body) s.
Proof.
  revert s. induction xs as [|x xs IH]; intros s; simpl.
  - rewrite bind_run. done.
  - rewrite !bind_run. destruct (body x s) as [[[]|e] s1]; [|done].
    rewrite IH, bind_run. done.
Qed.

Section MoreNumpyFacts.

Lemma item_nat {A} (l : list A) (i : nat) x :
  np.item l (Z.of_nat i) = Ok x ↔ l !! i = Some x.
Proof.
  unfold np.item. cbv zeta.
  destruct (decide (Z.of_nat i < 0)%Z); [lia|].
  destruct (decide (0 ≤ Z.of_nat i)%Z); [|lia].
  rewrite Nat2Z.id. destruct (l !! i); split; congruence.
Qed.

Lemma take_indices_ok a idx vs i :
  np.take_indices a idx = Ok vs → i ∈ idx → ∃ v, v ∈ vs ∧ a !! i = Some v.
Proof.
  revert vs. induction idx as [|j idx IH]; intros vs Hrun Hi.
  - by apply elem_of_nil in Hi.
  - simpl in Hrun. destruct (a !! j) as [z|] eqn:Hj; [|done].
    destruct (np.take_indices a idx) as [zs|e]; [|done].
    injection Hrun as <-.
    apply elem_of_cons in Hi as [->|Hi].
    + exists z. split; [apply elem_of_cons; by left|done].
    + destruct (IH zs eq_refl Hi) as (v & Hv & Hav).
      exists v. split; [apply elem_of_cons; by right|done].
Qed.

Lemma indices_assign_ok idx : ∀ a a' z i,
  np.indices_assign a idx z = Ok a' →
  length a' = length a ∧
  (i ∈ idx → a' !! i = Some z) ∧
  (a !! i = Some z → a' !! i = Some z).
Proof.
  induction idx as [|j idx IH]; intros a a' z i Hrun; simpl in Hrun.
  - injection Hrun as <-. split; [done|]. split; [by intros ?%elem_of_nil|done].
  - unfold np.index_assign in Hrun. case_decide as Hj; [|done].
    destruct (IH _ _ _ i Hrun) as (Hlen & Hin & Hkeep).
    rewrite length_insert in Hlen.
    assert (<[j := z]> a !! i = Some z → a' !! i = Some z) as Hk by done.
    split; [done|]. split.
    + intros [->|Hi]%elem_of_cons; [|by apply Hin].
      apply Hk. by apply list_lookup_insert_eq.
    + intros Hai. apply Hk.
      destruct (decide (j = i)) as [->|Hne];
        [by apply list_lookup_insert_eq|by rewrite list_lookup_insert_ne].
Qed.

End MoreNumpyFacts.

Lemma stable_run {S A} (R : relation S) (m : M S A) s r s' :
  stable R m → m s = (r, s') → R s s'.
Proof. intros Hm Hrun. specialize (Hm s). by rewrite Hrun in Hm. Qed.

Lemma zoom_index_ok {T A} i (m : M T A) l a l' :
  zoom_index i m l = (Ok a, l') →
  ∃ o o', l !! i = Some o ∧ m o = (Ok a, o') ∧ l' = <[i := o']> l.
Proof.
  unfold zoom_index. destruct (l !! i) as [o|]; [|done].
  destruct (m o) as [r o'] eqn:Hm. intros [= -> <-]. eauto.
Qed.

(** ** ResultBuffer *)

Module BufferFacts.
Import ResultBuffer BufferSpec.

Lemma append_no_columns_r x : append x no_columns = x.
Proof. destruct x. unfold append. simpl. by rewrite !app_nil_r. Qed.

Lemma append_assoc x y z : append (append x y) z = append x (append y z).
Proof. unfold append. simpl. by rewrite <- !app_assoc. Qed.

Lemma check_edges_size_run n b :
  check_edges_size n b =
  (Ok tt,
   if decide (num_edges b + n > max_edges b) then
     let new_size := max_edges b + n `max` chunk_size b in
     set_max_edges new_size
       (set_edges (np.resize (__left b) new_size)
          (np.resize (__right b) new_size)
          (np.resize (__parent b) new_size)
          (np.resize (__child b) new_size) b)
   else b).
Proof.
  unfold check_edges_size. munfold. destruct (decide _); reflexivity.
Qed.

Lemma check_mutations_size_run n b :
  check_mutations_size n b =
  (Ok tt,
   if decide (num_mutations b + n > max_mutations b) then
     let new_size := max_mutations b + n `max` chunk_size b in
     set_max_mutations new_size
       (set_mutations (np.resize (__site b) new_size)
          (np.resize (__node b) new_size)
          (np.resize (__derived_state b) new_size) b)
   else b).
Proof.
  unfold check_mutations_size. munfold. destruct (decide _); reflexivity.
Qed.

Lemma grow_edges_facts n b :
  wf b →
  let b1 := (check_edges_size n b).2 in
  wf b1 ∧ num_edges b1 = num_edges b ∧ num_edges b + n ≤ max_edges b1 ∧
  chunk_size b1 = chunk_size b ∧
  max_edges b1 = grown (num_edges b) (max_edges b) n (chunk_size b) ∧
  take (num_edges b) (__left b1) = take (num_edges b) (__left b) ∧
  take (num_edges b) (__right b1) = take (num_edges b) (__right b) ∧
  take (num_edges b) (__parent b1) = take (num_edges b) (__parent b) ∧
  take (num_edges b) (__child b1) = take (num_edges b) (__child b) ∧
  __site b1 = __site b ∧ __node b1 = __node b ∧
  __derived_state b1 = __derived_state b ∧
  num_mutations b1 = num_mutations b ∧ max_mutations b1 = max_mutations b.
Proof.
  intros []. rewrite check_edges_size_run. unfold grown. simpl.
  destruct (decide _) as [Hgt|Hle]; simpl.
  - repeat split; simpl; try done; try lia;
      try (apply resize_length; lia); try (apply resize_prefix; lia).
  - repeat split; try done; lia.
Qed.

Lemma grow_mutations_facts n b :
  wf b →
  let b1 := (check_mutations_size n b).2 in
  wf b1 ∧ num_mutations b1 = num_mutations b ∧
  num_mutations b + n ≤ max_mutations b1 ∧
  chunk_size b1 = chunk_size b ∧
  max_mutations b1 =
    grown (num_mutations b) (max_mutations b) n (chunk_size b) ∧
  take (num_mutations b) (__site b1) = take (num_mutations b) (__site b) ∧
  take (num_mutations b) (__node b1) = take (num_mutations b) (__node b) ∧
  take (num_mutations b) (__derived_state b1)
    = take (num_mutations b) (__derived_state b) ∧
  __left b1 = __left b ∧ __right b1 = __right b ∧
  __parent b1 = __parent b ∧ __child b1 = __child b ∧
  num_edges b1 = num_edges b ∧ max_edges b1 = max_edges b.
Proof.
  intros []. rewrite check_mutations_size_run. unfold grown. simpl.
  destruct (decide _) as [Hgt|Hle]; simpl.
  - repeat split; simpl; try done; try lia;
      try (apply resize_length; lia); try (apply resize_prefix; lia).
  - repeat split; try done; lia.
Qed.

Lemma add_edges_run l r p c b :
  wf b →
  ∃ res b', add_edges l r p c b = (res, b') ∧ wf b' ∧
    chunk_size b' = chunk_size b ∧
    max_mutations b' = max_mutations b ∧
    max_edges b ≤ max_edges b' ∧
    match res with
    | Ok _ =>
        views b' = append (views b)
                     (Columns l r p (expand (length l) c) [] [] []) ∧
        max_edges b' =
          grown (num_edges b) (max_edges b) (length l) (chunk_size b)
    | Raise _ => views b' = views b ∧ ¬ edges_accepted l r p c
    end.
Proof.
  intros Hwf.
  unfold add_edges, np.shape0. munfold.
  case_bool_decide as Hr.
  2:{ eexists _, _; split; [done|]. destruct Hwf; repeat split; try done.
      by intros (? & ? & ?). }
  case_bool_decide as Hp.
  2:{ eexists _, _; split; [done|]. destruct Hwf; repeat split; try done.
      by intros (? & ? & ?). }
  pose proof (grow_edges_facts (length l) b Hwf) as Hb1.
  destruct (check_edges_size (length l) b) as [res1 b1] eqn:Hc.
  assert (res1 = Ok tt) as ->
    by (rewrite check_edges_size_run in Hc; by injection Hc).
  simpl in Hb1. clear Hc.
  destruct Hb1 as (Hwf1 & Hn & Hcap & Hchunk & Hmax & Hl & Hr' & Hp' & Hc'
                   & Hs & Hnd & Hd & Hnm & Hmm).
  destruct Hwf1.
  rewrite !slice_assign_run by lia.
  rewrite !broadcast_array by done.
  assert (max_edges b ≤ max_edges b1) as Hmono
    by (rewrite Hmax; unfold grown; case_decide; lia).
  unfold expand.
  destruct (np.broadcast (length l) c) as [vs|e] eqn:Hbc;
    (eexists _, _; split; [reflexivity|]).
  - apply broadcast_length in Hbc.
    split; [|repeat split; simpl; try done; try congruence].
    + split; simpl; try done; try lia.
      * rewrite written_length; lia.
      * rewrite <- Hr, written_length; lia.
      * rewrite <- Hp, written_length; lia.
      * rewrite <- Hbc, written_length; lia.
    + unfold views, append, left, right, parent, child, site, node,
        derived_state. simpl.
      rewrite Hs, Hnd, Hd, Hnm, !app_nil_r, <- Hl, <- Hr', <- Hp', <- Hc', Hn.
      f_equal.
      * apply written_take. lia.
      * rewrite <- Hr. apply written_take. lia.
      * rewrite <- Hp. apply written_take. lia.
      * rewrite <- Hbc. apply written_take. lia.
  - split; [|repeat split; simpl; try done; try congruence].
    + split; simpl; try done; try lia.
      * rewrite written_length; lia.
      * rewrite <- Hr, written_length; lia.
      * rewrite <- Hp, written_length; lia.
    + unfold views, left, right, parent, child, site, node,
        derived_state. simpl.
      rewrite Hs, Hnd, Hd, Hnm, <- Hl, <- Hr', <- Hp', <- Hc', Hn.
      f_equal.
      * apply written_prefix; lia.
      * rewrite <- Hr. apply written_prefix; lia.
      * rewrite <- Hp. apply written_prefix; lia.
    + intros (_ & _ & vs & Hvs). congruence.
Qed.

Lemma add_mutations_run s n d b :
  wf b →
  ∃ res b', add_mutations s n d b = (res, b') ∧ wf b' ∧
    chunk_size b' = chunk_size b ∧
    max_edges b' = max_edges b ∧
    max_mutations b ≤ max_mutations b' ∧
    match res with
    | Ok _ =>
        views b' = append (views b)
                     (Columns [] [] [] [] s (expand (length s) n)
                        (expand (length s) (fill_of d))) ∧
        max_mutations b' =
          grown (num_mutations b) (max_mutations b) (length s) (chunk_size b)
    | Raise _ => views b' = views b ∧ ¬ mutations_accepted s n d
    end.
Proof.
  intros Hwf.
  unfold add_mutations, np.shape0. munfold.
  pose proof (grow_mutations_facts (length s) b Hwf) as Hb1.
  destruct (check_mutations_size (length s) b) as [res1 b1] eqn:Hc.
  assert (res1 = Ok tt) as ->
    by (rewrite check_mutations_size_run in Hc; by injection Hc).
  simpl in Hb1. clear Hc.
  destruct Hb1 as (Hwf1 & Hn & Hcap & Hchunk & Hmax & Hs & Hnd & Hd
                   & Hl & Hr & Hp & Hc & Hne & Hme).
  destruct Hwf1.
  rewrite !slice_assign_run by lia.
  rewrite !broadcast_array by done.
  assert (max_mutations b ≤ max_mutations b1) as Hmono
    by (rewrite Hmax; unfold grown; case_decide; lia).
  unfold expand. fold (fill_of d).
  destruct (np.broadcast (length s) n) as [ns|e] eqn:Hbn.
  - apply broadcast_length in Hbn.
    destruct (np.broadcast (length s) (fill_of d)) as [ds|e] eqn:Hbd;
      (eexists _, _; split; [reflexivity|]).
    + apply broadcast_length in Hbd.
      split; [|repeat split; simpl; try done; try congruence].
      * split; simpl; try done; try lia.
        -- rewrite written_length; lia.
        -- rewrite <- Hbn, written_length; lia.
        -- rewrite <- Hbd, written_length; lia.
      * unfold views, append, left, right, parent, child, site, node,
          derived_state. simpl.
        rewrite Hl, Hr, Hp, Hc, Hne, !app_nil_r, <- Hs, <- Hnd, <- Hd, Hn.
        f_equal.
        -- apply written_take. lia.
        -- rewrite <- Hbn. apply written_take. lia.
        -- rewrite <- Hbd. apply written_take. lia.
    + split; [|repeat split; simpl; try done; try congruence].
      * split; simpl; try done; try lia.
        -- rewrite written_length; lia.
        -- rewrite <- Hbn, written_length; lia.
      * unfold views, left, right, parent, child, site, node,
          derived_state. simpl.
        rewrite Hl, Hr, Hp, Hc, Hne, <- Hs, <- Hnd, <- Hd, Hn.
        f_equal.
        -- apply written_prefix; lia.
        -- rewrite <- Hbn. apply written_prefix; lia.
      * intros (_ & vs & Hvs). congruence.
  - eexists _, _; split; [reflexivity|].
    split; [|repeat split; simpl; try done; try congruence].
    + split; simpl; try done; try lia.
      rewrite written_length; lia.
    + unfold views, left, right, parent, child, site, node,
        derived_state. simpl.
      rewrite Hl, Hr, Hp, Hc, Hne, <- Hs, <- Hnd, <- Hd, Hn.
      f_equal. apply written_prefix; lia.
    + intros ((vs & Hvs) & _). congruence.
Qed.

Lemma add_back_mutation_run s n b :
  wf b →
  ∃ b', add_back_mutation s n b = (Ok tt, b') ∧ wf b' ∧
    chunk_size b' = chunk_size b ∧
    max_edges b' = max_edges b ∧
    max_mutations b ≤ max_mutations b' ∧
    views b' = append (views b) (Columns [] [] [] [] [s] [n] [0%Z]) ∧
    max_mutations b' =
      grown (num_mutations b) (max_mutations b) 1 (chunk_size b).
Proof.
  intros Hwf.
  unfold add_back_mutation. munfold.
  pose proof (grow_mutations_facts 1 b Hwf) as Hb1.
  destruct (check_mutations_size 1 b) as [res1 b1] eqn:Hc.
  assert (res1 = Ok tt) as ->
    by (rewrite check_mutations_size_run in Hc; by injection Hc).
  simpl in Hb1. clear Hc.
  destruct Hb1 as (Hwf1 & Hn & Hcap & Hchunk & Hmax & Hs & Hnd & Hd
                   & Hl & Hr & Hp & Hc & Hne & Hme).
  destruct Hwf1.
  rewrite !index_assign_run by lia.
  assert (max_mutations b ≤ max_mutations b1) as Hmono
    by (rewrite Hmax; unfold grown; case_decide; lia).
  eexists; split; [reflexivity|].
  split; [|repeat split; simpl; try done; try congruence].
  - split; simpl; try done; try lia; by rewrite length_insert.
  - unfold views, append, left, right, parent, child, site, node,
      derived_state. simpl.
    rewrite Hl, Hr, Hp, Hc, Hne, !app_nil_r, <- Hs, <- Hnd, <- Hd, Hn.
    f_equal; apply insert_take_snoc; lia.
Qed.

Lemma clear_run b :
  wf b →
  clear b = (Ok tt, set_num_mutations 0 (set_num_edges 0 b)) ∧
  wf (set_num_mutations 0 (set_num_edges 0 b)).
Proof.
  intros []. split; [reflexivity|]. split; simpl; try done; lia.
Qed.

Lemma init_run uninit cs :
  (1 ≤ cs)%Z →
  ∃ b, __init__ uninit cs = Ok b ∧ wf b ∧ views b = no_columns ∧
       chunk_size b = Z.to_nat cs ∧ max_edges b = Z.to_nat cs ∧
       max_mutations b = Z.to_nat cs ∧ num_edges b = 0 ∧ num_mutations b = 0.
Proof.
  intros Hcs. unfold __init__. rewrite decide_False by lia.
  eexists; split; [reflexivity|].
  split; [|done].
  split; simpl; try lia; unfold np.empty; by rewrite length_fmap, length_seq.
Qed.

Lemma grown_same count capacity chunk :
  count ≤ capacity → grown count capacity 0 chunk = capacity.
Proof. intros Hle. unfold grown. rewrite decide_False; [done|lia]. Qed.

Lemma perform_run q b :
  wf b →
  ∃ res b', perform q b = (res, b') ∧ wf b' ∧
    chunk_size b' = chunk_size b ∧
    max_edges b ≤ max_edges b' ∧ max_mutations b ≤ max_mutations b' ∧
    match res with
    | Ok _ =>
        views b' = append (views b) (batch q) ∧
        max_edges b' =
          grown (num_edges b) (max_edges b) (edges_needed q) (chunk_size b) ∧
        max_mutations b' =
          grown (num_mutations b) (max_mutations b) (mutations_needed q)
            (chunk_size b)
    | Raise _ => views b' = views b
    end.
Proof.
  intros Hwf. destruct q as [l r p c|s n d|s n]; simpl.
  - destruct (add_edges_run l r p c b Hwf)
      as (res & b' & Hrun & Hwf' & Hch & Hmm & Hme & Hres).
    exists res, b'. do 3 (split; [done|]). do 2 (split; [lia|]).
    destruct res as [[]|e]; [|by destruct Hres].
    destruct Hres as [Hv Hg]. repeat split; try done.
    rewrite Hmm, grown_same; [done|]. by destruct Hwf.
  - destruct (add_mutations_run s n d b Hwf)
      as (res & b' & Hrun & Hwf' & Hch & Hme & Hmm & Hres).
    exists res, b'. do 3 (split; [done|]). do 2 (split; [lia|]).
    destruct res as [[]|e]; [|by destruct Hres].
    destruct Hres as [Hv Hg]. repeat split; try done.
    rewrite Hme, grown_same; [done|]. by destruct Hwf.
  - destruct (add_back_mutation_run s n b Hwf)
      as (b' & Hrun & Hwf' & Hch & Hme & Hmm & Hv & Hg).
    exists (Ok tt), b'. do 3 (split; [done|]). do 2 (split; [lia|]).
    split; [done|]. split; [|done].
    rewrite Hme, grown_same; [done|]. by destruct Hwf.
Qed.

Lemma reachable_wf uninit b : reachable uninit b → wf b.
Proof.
  induction 1 as [cs b Hnew|q b _ IH|b _ IH].
  - unfold __init__ in Hnew. case_decide; [done|].
    destruct (init_run uninit cs) as (b0 & Hb0 & Hwf & _); [lia|].
    unfold __init__ in Hb0. rewrite decide_False in Hb0 by lia. congruence.
  - destruct (perform_run q b IH) as (res & b' & Hrun & Hwf & _).
    unfold exec. by rewrite Hrun.
  - destruct (clear_run b IH) as [Hrun Hwf]. unfold exec. by rewrite Hrun.
Qed.

Lemma perform_all_run qs : ∀ b b',
  wf b → for_ qs perform b = (Ok tt, b') →
  wf b' ∧ views b' = append (views b) (batches qs) ∧
  max_edges b ≤ max_edges b' ∧ max_mutations b ≤ max_mutations b'.
Proof.
  induction qs as [|q qs IH]; intros b b' Hwf; simpl.
  - munfold. intros [= <-]. by rewrite append_no_columns_r.
  - rewrite bind_run.
    destruct (perform_run q b Hwf)
      as (res & b1 & Hrun & Hwf1 & _ & Hme & Hmm & Hres).
    rewrite Hrun. destruct res as [[]|e]; [|done].
    intros Hrest. destruct (IH _ _ Hwf1 Hrest) as (Hwf' & Hv & Hme' & Hmm').
    destruct Hres as (Hv1 & _).
    split; [done|]. split; [|lia].
    by rewrite Hv, Hv1, append_assoc.
Qed.

(** C5. Every request on a buffer a program can hold leaves both capacities
    at least as large as they were; a request that returns has grown the
    capacity of a record area by exactly [max(additional, chunk_size)] when
    the batch would have exceeded it and has left it alone otherwise, and
    the views read back the earlier records followed by the batch; a request
    that raises leaves the views as they were. Hence a sequence of requests
    that all return reads back, in order, exactly the records added; and
    [clear] leaves both capacities as they were. *)
Theorem growth_preserves_records uninit b :
  reachable uninit b →
  (∀ q res b', perform q b = (res, b') →
     max_edges b ≤ max_edges b' ∧ max_mutations b ≤ max_mutations b' ∧
     match res with
     | Ok _ =>
         max_edges b' =
           (if decide (num_edges b + edges_needed q > max_edges b)
            then max_edges b + edges_needed q `max` chunk_size b
            else max_edges b) ∧
         max_mutations b' =
           (if decide (num_mutations b + mutations_needed q > max_mutations b)
            then max_mutations b + mutations_needed q `max` chunk_size b
            else max_mutations b) ∧
         views b' = append (views b) (batch q)
     | Raise _ => views b' = views b
     end) ∧
  (∀ qs b', for_ qs perform b = (Ok tt, b') →
     views b' = append (views b) (batches qs) ∧
     max_edges b ≤ max_edges b' ∧ max_mutations b ≤ max_mutations b') ∧
  (max_edges (exec clear b) = max_edges b ∧
   max_mutations (exec clear b) = max_mutations b).
Proof.
  intros Hb%reachable_wf. split; [|split; [|done]].
  - intros q res b' Hrun.
    destruct (perform_run q b Hb)
      as (res0 & b0 & Hrun0 & _ & _ & Hme & Hmm & Hres).
    rewrite Hrun in Hrun0. injection Hrun0 as <- <-.
    repeat split; try done.
    destruct res as [[]|e]; [|done].
    by destruct Hres as (? & ? & ?).
  - intros qs b' Hrun.
    by destruct (perform_all_run qs b b' Hb Hrun) as (_ & ? & ? & ?).
Qed.

(** C10. A chunk size below one is refused with [ValueError] and no buffer
    is made; any other chunk size gives a buffer with no edges, no
    mutations and both capacities equal to the chunk size. *)
Theorem init_chunk_size uninit (chunk : Z) :
  ((chunk < 1)%Z ∧ __init__ uninit chunk = Raise ValueError) ∨
  ((1 ≤ chunk)%Z ∧
   ∃ b, __init__ uninit chunk = Ok b ∧
        num_edges b = 0 ∧ num_mutations b = 0 ∧
        Z.of_nat (max_edges b) = chunk ∧ Z.of_nat (max_mutations b) = chunk ∧
        Z.of_nat (chunk_size b) = chunk ∧
        views b = no_columns ∧
        length (__left b) = max_edges b ∧ length (__right b) = max_edges b ∧
        length (__parent b) = max_edges b ∧
        length (__child b) = max_edges b ∧
        length (__site b) = max_mutations b ∧
        length (__node b) = max_mutations b ∧
        length (__derived_state b) = max_mutations b).
Proof.
  destruct (decide (chunk < 1)%Z) as [Hlt|Hge].
  - left. split; [done|]. unfold __init__. by rewrite decide_True.
  - right. split; [lia|].
    destruct (init_run uninit chunk) as (b & Hb & [] & Hv & Hc & He & Hm & ? & ?);
      [lia|].
    exists b. repeat split; try done; lia.
Qed.

Lemma growth_preserves_records_witness :
  ∃ b b',
    ResultBuffer.__init__ Example.uninit 2 = Ok b ∧
    for_ [AddEdges [10; 11; 12]%Z [20; 21; 22]%Z [0; 0; 1]%Z (np.Scalar 5);
          AddMutations [3; 4]%Z (np.Scalar 5) None;
          AddBackMutation 7 5] perform b = (Ok tt, b') ∧
    views b' = Columns [10; 11; 12]%Z [20; 21; 22]%Z [0; 0; 1]%Z [5; 5; 5]%Z
                 [3; 4; 7]%Z [5; 5; 5]%Z [1; 1; 0]%Z ∧
    ResultBuffer.max_edges b' = 5 ∧ ResultBuffer.max_mutations b' = 4.
Proof.
  evaluate_ok (ResultBuffer.__init__ Example.uninit 2) b.
  pose (qs := [AddEdges [10; 11; 12]%Z [20; 21; 22]%Z [0; 0; 1]%Z
                 (np.Scalar 5);
               AddMutations [3; 4]%Z (np.Scalar 5) None;
               AddBackMutation 7 5]).
  evaluate_ok (for_ qs perform b) b'.
  exists b, b'.
  assert (ResultBuffer.__init__ Example.uninit 2 = Ok b) as Hb
    by reflexivity.
  assert (for_ qs perform b = (Ok tt, b')) as Hrun by reflexivity.
  destruct (growth_preserves_records Example.uninit b
              (reachable_new _ 2 b Hb)) as (_ & Hall & _).
  destruct (Hall qs b' Hrun) as (Hviews & _ & _).
  do 2 (split; [assumption|]).
  split; [rewrite Hviews; reflexivity|]. split; reflexivity.
Defined.

Lemma views_lengths b :
  wf b →
  length (left b) = num_edges b ∧ length (right b) = num_edges b ∧
  length (parent b) = num_edges b ∧ length (child b) = num_edges b ∧
  length (site b) = num_mutations b ∧ length (node b) = num_mutations b ∧
  length (derived_state b) = num_mutations b.
Proof.
  intros []. unfold left, right, parent, child, site, node, derived_state.
  rewrite !length_take. repeat split; lia.
Qed.

Lemma expand_array a n : length a = n → expand n (np.Array a) = a.
Proof. intros Hn. unfold expand. by rewrite broadcast_array. Qed.

Lemma combine_step result acc :
  wf acc → wf result →
  num_edges acc + num_edges result ≤ max_edges acc →
  ∃ acc1 acc2,
    add_edges (left result) (right result) (parent result)
      (np.Array (child result)) acc = (Ok tt, acc1) ∧
    add_mutations (site result) (np.Array (node result))
      (Some (np.Array (derived_state result))) acc1 = (Ok tt, acc2) ∧
    wf acc2 ∧ views acc2 = append (views acc) (views result) ∧
    max_edges acc2 = max_edges acc ∧
    num_edges acc2 = num_edges acc + num_edges result.
Proof.
  intros Hacc Hres Hroom.
  destruct (views_lengths result Hres) as (Hl & Hr & Hp & Hc & Hs & Hn & Hd).
  destruct (add_edges_run (left result) (right result) (parent result)
              (np.Array (child result)) acc Hacc)
    as (res1 & acc1 & Hrun1 & Hwf1 & Hch1 & Hmm1 & Hme1 & Hres1).
  destruct res1 as [[]|e]; cycle 1.
  { destruct Hres1 as [_ Hno]. destruct Hno. repeat split; try congruence.
    exists (child result). apply broadcast_array. congruence. }
  destruct Hres1 as [Hv1 Hg1].
  destruct (add_mutations_run (site result) (np.Array (node result))
              (Some (np.Array (derived_state result))) acc1 Hwf1)
    as (res2 & acc2 & Hrun2 & Hwf2 & Hch2 & Hme2 & Hmm2 & Hres2).
  destruct res2 as [[]|e]; cycle 1.
  { destruct Hres2 as [_ Hno]. destruct Hno. split.
    - exists (node result). apply broadcast_array. congruence.
    - exists (derived_state result). apply broadcast_array. congruence. }
  destruct Hres2 as [Hv2 Hg2].
  exists acc1, acc2. do 3 (split; [done|]).
  assert (views acc2 = append (views acc) (views result)) as Hv.
  { rewrite Hv2, Hv1, append_assoc. simpl.
    rewrite !expand_array by congruence. unfold append, views. simpl.
    by rewrite !app_nil_r. }
  assert (max_edges acc2 = max_edges acc) as Hme.
  { rewrite Hme2, Hg1, Hl. unfold grown. rewrite decide_False; [done|lia]. }
  do 2 (split; [done|]).
  destruct (views_lengths acc2 Hwf2) as (Hl2 & _).
  destruct (views_lengths acc Hacc) as (Hl0 & _).
  apply (f_equal c_left) in Hv. simpl in Hv.
  rewrite <- Hl2, Hv, length_app. lia.
Qed.

Lemma combine_loop bufs : ∀ acc (s : list t),
  wf acc → Forall wf bufs →
  num_edges acc + sum_list (num_edges <$> bufs) ≤ max_edges acc →
  ∃ c,
    for_acc bufs acc (λ result combined,
      '(_, combined) ← call_on combined
         (add_edges (left result) (right result) (parent result)
            (np.Array (child result)));
      '(_, combined) ← call_on combined
         (add_mutations (site result) (np.Array (node result))
            (Some (np.Array (derived_state result))));
      mret combined) s = (Ok c, s) ∧
    wf c ∧ views c = append (views acc) (concat_views bufs) ∧
    max_edges c = max_edges acc ∧
    num_edges c = num_edges acc + sum_list (num_edges <$> bufs).
Proof.
  induction bufs as [|result bufs IH]; intros acc s Hacc Hbufs Hroom.
  - exists acc. simpl. rewrite append_no_columns_r.
    do 4 (split; [done|]). lia.
  - apply Forall_cons_1 in Hbufs as [Hres Hbufs].
    rewrite fmap_cons in Hroom. simpl in Hroom.
    destruct (combine_step result acc Hacc Hres)
      as (acc1 & acc2 & Hrun1 & Hrun2 & Hwf2 & Hv2 & Hme2 & Hne2); [lia|].
    destruct (IH acc2 s Hwf2 Hbufs) as (c & Hrun & Hwf & Hv & Hme & Hne);
      [lia|].
    exists c. split.
    + simpl. rewrite bind_run. rewrite bind_run. unfold call_on at 1.
      rewrite Hrun1. simpl. rewrite bind_run. unfold call_on at 1.
      rewrite Hrun2. simpl. exact Hrun.
    + split; [done|]. rewrite fmap_cons. simpl. split; [|lia].
      rewrite Hv, Hv2, append_assoc. done.
Qed.

Lemma append_no_columns_l x : append no_columns x = x.
Proof. by destruct x. Qed.

Lemma combine_run uninit bufs :
  Forall wf bufs →
  ∃ c, combine uninit bufs = (Ok c, bufs) ∧
       num_edges c = sum_list (num_edges <$> bufs) ∧
       views c = concat_views bufs ∧
       max_edges c = 1 `max` sum_list (num_edges <$> bufs).
Proof.
  intros Hwf.
  unfold combine. rewrite bind_run. unfold get at 1. rewrite bind_run.
  set (size := 1 `max` sum_list (num_edges <$> bufs)).
  destruct (init_run uninit (Z.of_nat size))
    as (b0 & Hb0 & Hwf0 & Hv0 & _ & Hme0 & _ & Hne0 & _); [lia|].
  unfold lift at 1. rewrite Hb0.
  destruct (combine_loop bufs b0 bufs Hwf0 Hwf)
    as (c & Hrun & _ & Hv & Hme & Hne); [lia|].
  exists c. split; [exact Hrun|].
  rewrite Hne, Hne0, Hv, Hv0, append_no_columns_l, Hme, Hme0.
  repeat split; lia.
Qed.

(** C1 (as amended). Combining buffers a program can hold returns a new
    buffer and leaves the buffers handed in as they were. The new buffer's
    edge count is the sum of the edge counts handed in, its views are the
    views handed in, concatenated in order, and its edge capacity is the
    total edge count, or one when there is no edge at all. *)
Theorem combine_concatenates uninit bufs :
  Forall (reachable uninit) bufs →
  ∃ c, combine uninit bufs = (Ok c, bufs) ∧
       num_edges c = sum_list (num_edges <$> bufs) ∧
       views c = concat_views bufs ∧
       max_edges c = 1 `max` sum_list (num_edges <$> bufs).
Proof.
  intros Hbufs. apply combine_run.
  induction Hbufs as [|b bufs Hb _ IH]; constructor; [|done].
  by eapply reachable_wf.
Qed.

(** C1 as stated fails: combining no buffers gives a buffer whose edge
    capacity is one, not the total edge count, which is zero. *)
Lemma combine_capacity_not_total :
  ∃ c, combine (λ _, 0%Z) [] = (Ok c, []) ∧
       num_edges c = 0 ∧ sum_list (num_edges <$> @nil t) = 0 ∧
       max_edges c = 1 ∧
       max_edges c ≠ sum_list (num_edges <$> @nil t).
Proof. eexists. split; [reflexivity|]. repeat split; simpl; lia. Qed.

Lemma combine_concatenates_witness :
  ∃ b1 b2,
    Forall (reachable (λ _, 0%Z)) [b1; b2] ∧
    ∃ c, combine (λ _, 0%Z) [b1; b2] = (Ok c, [b1; b2]) ∧
         num_edges c = 3 ∧
         c_left (views c) = [10; 11; 20]%Z ∧
         c_child (views c) = [5; 5; 6]%Z ∧
         max_edges c = 3.
Proof.
  pose (u := λ _ : nat, 0%Z).
  pose (fresh := {| chunk_size := 2; __left := [0; 0]%Z; __right := [0; 0]%Z;
                    __parent := [0; 0]%Z; __child := [0; 0]%Z;
                    num_edges := 0; max_edges := 2;
                    __site := [0; 0]%Z; __node := [0; 0]%Z;
                    __derived_state := [0; 0]%Z;
                    num_mutations := 0; max_mutations := 2 |}).
  assert (reachable u fresh) as Hfresh by (by apply (reachable_new u 2)).
  pose (b1 := exec (perform (AddEdges [10; 11]%Z [12; 13]%Z [0; 0]%Z
                               (np.Scalar 5))) fresh).
  pose (b2 := exec (perform (AddEdges [20]%Z [21]%Z [1]%Z (np.Scalar 6)))
                fresh).
  assert (Forall (reachable u) [b1; b2]) as Hin.
  { apply Forall_cons_2; [by apply reachable_perform|].
    apply Forall_cons_2; [by apply reachable_perform|]. apply Forall_nil_2. }
  exists b1, b2. split; [exact Hin|].
  destruct (combine_concatenates u [b1; b2] Hin) as (c & Hrun & Hn & Hv & Hm).
  exists c. split; [exact Hrun|].
  rewrite Hn, Hv, Hm. repeat split.
Defined.

Lemma mutation_rows_append x y :
  aligned x →
  mutation_rows (append x y) = mutation_rows x ++ mutation_rows y.
Proof.
  intros [Hn Hd]. unfold mutation_rows, append. simpl.
  rewrite <- fmap_app. f_equal.
  rewrite (zip_with_app pair (c_node x)) by lia.
  rewrite zip_with_app; [done|]. rewrite length_zip_with. lia.
Qed.

Lemma views_aligned b : wf b → aligned (views b).
Proof.
  intros Hb. destruct (views_lengths b Hb) as (_ & _ & _ & _ & Hs & Hn & Hd).
  split; simpl; congruence.
Qed.

#[global] Instance keeps_rows_refl : Reflexive keeps_rows.
Proof. by intros b Hb. Qed.

#[global] Instance keeps_rows_trans : Transitive keeps_rows.
Proof.
  intros b1 b2 b3 H12 H23 Hb1. destruct (H12 Hb1) as [Hb2 Hr12].
  destruct (H23 Hb2) as [Hb3 Hr23]. split; [done|]. auto.
Qed.

Lemma perform_keeps_rows q : stable keeps_rows (perform q).
Proof.
  intros b Hb.
  destruct (perform_run q b Hb) as (res & b' & Hrun & Hb' & _ & _ & _ & Hres).
  rewrite Hrun. simpl. split; [done|]. intros row Hrow.
  destruct res as [[]|e].
  - destruct Hres as (-> & _).
    rewrite mutation_rows_append by by apply views_aligned.
    apply elem_of_app. by left.
  - by rewrite Hres.
Qed.

Lemma focal_rows (F : list nat) (nid : nat) f :
  f ∈ F →
  (Z.of_nat f, Z.of_nat nid, 1%Z) ∈
    mutation_rows (batch (AddMutations (Z.of_nat <$> F)
                            (np.Scalar (Z.of_nat nid)) None)).
Proof.
  intros [i Hi]%list_elem_of_lookup_1.
  pose proof (lookup_lt_Some _ _ _ Hi) as Hlt.
  unfold mutation_rows, batch, expand, fill_of. simpl.
  rewrite length_fmap.
  apply list_elem_of_fmap. exists (Z.of_nat f, (Z.of_nat nid, 1%Z)).
  split; [done|]. apply list_elem_of_lookup_2 with i.
  apply lookup_zip_with_Some. eexists _, _. split; [done|]. split.
  - by rewrite list_lookup_fmap, Hi.
  - apply lookup_zip_with_Some. eexists _, _. split; [done|].
    by rewrite !lookup_replicate_2.
Qed.

Lemma concat_views_rows bufs b row :
  Forall wf bufs → b ∈ bufs → row ∈ mutation_rows (views b) →
  row ∈ mutation_rows (concat_views bufs).
Proof.
  induction 1 as [|b0 bufs Hb0 Hbufs IH]; [by intros ?%elem_of_nil|].
  intros Hin Hrow. simpl.
  rewrite mutation_rows_append by by apply views_aligned.
  apply elem_of_app.
  apply elem_of_cons in Hin as [->|Hin]; [by left|right; by apply IH].
Qed.

End BufferFacts.

(** ** The epoch partition *)

Module EpochFacts.
Import AncestorMatcher AncestorSpec.

Section Increasing.
Implicit Types (L : list nat).

Lemma increasing_lookup L i j x y :
  StronglySorted lt L → L !! i = Some x → L !! j = Some y → i < j → x < y.
Proof.
  intros HL. revert i j. induction HL as [|a L HL IH Ha]; intros i j Hi Hj Hij.
  - done.
  - destruct j as [|j]; [lia|]. simpl in Hj.
    destruct i as [|i]; simpl in Hi.
    + injection Hi as ->. rewrite Forall_forall in Ha. apply Ha.
      by eapply list_elem_of_lookup_2.
    + apply (IH i j); [done..|lia].
Qed.

Lemma increasing_gap L k a b x :
  StronglySorted lt L → L !! k = Some a → L !! S k = Some b →
  a < x → x < b → x ∉ L.
Proof.
  intros HL Ha Hb Hax Hxb [m Hm]%list_elem_of_lookup_1.
  destruct (decide (m ≤ k)) as [Hle|Hgt].
  - destruct (decide (m = k)) as [->|Hne]; [assert (x = a) by congruence; lia|].
    pose proof (increasing_lookup L m k x a HL Hm Ha). lia.
  - destruct (decide (m = S k)) as [->|Hne]; [assert (x = b) by congruence; lia|].
    pose proof (increasing_lookup L (S k) m b x HL Hb Hm). lia.
Qed.

Lemma increasing_seq j n : StronglySorted lt (seq j n).
Proof.
  revert j. induction n as [|n IH]; intros j; simpl; constructor; [done|].
  apply Forall_forall. intros x Hx%elem_of_seq. lia.
Qed.

Lemma increasing_filter (P : nat → Prop) `{!∀ x, Decision (P x)} L :
  StronglySorted lt L → StronglySorted lt (filter P L).
Proof.
  induction 1 as [|a L HL IH Ha]; [constructor|].
  rewrite filter_cons. case_decide; [|done].
  constructor; [done|]. rewrite Forall_forall in Ha |- *.
  intros x [_ Hx]%list_elem_of_filter. by apply Ha.
Qed.

End Increasing.

Lemma elem_of_breaks epoch b :
  b ∈ breaks_of epoch ↔
  b + 1 < length epoch ∧ epoch !! (b + 1) ≠ epoch !! b.
Proof.
  unfold breaks_of, np.where_ne. rewrite list_elem_of_filter, elem_of_seq.
  rewrite length_drop, lookup_drop.
  split.
  - intros [Hne Hb]. split; [lia|].
    rewrite lookup_take_lt in Hne by lia. by rewrite (Nat.add_comm b 1).
  - intros [Hb Hne]. split; [|lia].
    rewrite lookup_take_lt by lia. by rewrite (Nat.add_comm 1 b).
Qed.

Lemma increasing_posts epoch :
  epoch ≠ [] → StronglySorted lt (posts epoch (length epoch)).
Proof.
  intros Hne. unfold posts.
  assert (0 < length epoch) as Hlen by (destruct epoch; [done|simpl; lia]).
  apply StronglySorted_app_2.
  - intros x y Hx ->%list_elem_of_singleton.
    apply elem_of_cons in Hx as [->|(b & -> & Hb)%list_elem_of_fmap]; [done|].
    apply elem_of_breaks in Hb. lia.
  - constructor.
    + apply (StronglySorted_fmap _ lt lt); [intros x y; lia|].
      apply increasing_filter, increasing_seq.
    + apply Forall_forall. intros x (b & -> & _)%list_elem_of_fmap. lia.
  - repeat constructor.
Qed.

Lemma slices_posts epoch n k s e :
  epoch_slices_of epoch n !! k = Some (s, e) ↔
  posts epoch n !! k = Some s ∧ posts epoch n !! S k = Some e.
Proof.
  unfold epoch_slices_of, posts. simpl.
  set (B := (λ b, b + 1) <$> breaks_of epoch).
  change (zip (0 :: B) (B ++ [n]) !! k = Some (s, e) ↔
          ((0 :: B) ++ [n]) !! k = Some s ∧ (B ++ [n]) !! k = Some e).
  rewrite lookup_zip_Some. split.
  - intros [Hs He]. split; [|done].
    apply lookup_app_l_Some. done.
  - intros [Hs He]. split; [|done].
    apply lookup_lt_Some in He. rewrite length_app in He. simpl in He.
    rewrite lookup_app_l in Hs; [done|simpl; lia].
Qed.

Lemma posts_length epoch n :
  length (posts epoch n) = S (S (length (breaks_of epoch))).
Proof. unfold posts. rewrite length_app. simpl. rewrite length_fmap. lia. Qed.

Lemma posts_last epoch n :
  posts epoch n !! S (length (breaks_of epoch)) = Some n.
Proof.
  unfold posts. rewrite lookup_app_r; simpl; rewrite length_fmap; [|lia].
  by rewrite Nat.sub_diag.
Qed.

Lemma posts_first epoch n : posts epoch n !! 0 = Some 0.
Proof. done. Qed.

Lemma posts_inner epoch n k e :
  posts epoch n !! S k = Some e → k < length (breaks_of epoch) →
  ∃ b, e = b + 1 ∧ b ∈ breaks_of epoch.
Proof.
  unfold posts. simpl. intros He Hk.
  rewrite lookup_app_l in He by (by rewrite length_fmap).
  apply list_lookup_fmap_Some in He as (b & -> & Hb).
  exists b. split; [done|]. by eapply list_elem_of_lookup_2.
Qed.

Lemma slice_bounds epoch k s e :
  epoch ≠ [] →
  epoch_slices_of epoch (length epoch) !! k = Some (s, e) →
  s < e ∧ e ≤ length epoch.
Proof.
  intros Hne [Hs He]%slices_posts.
  pose proof (increasing_posts epoch Hne) as Hinc.
  split; [apply (increasing_lookup _ k (S k) s e Hinc); [done..|lia]|].
  pose proof (lookup_lt_Some _ _ _ He) as Hk. rewrite posts_length in Hk.
  destruct (decide (k = length (breaks_of epoch))) as [->|Hlt].
  - rewrite posts_last in He. injection He as <-. done.
  - pose proof (posts_last epoch (length epoch)) as Hl.
    pose proof (increasing_lookup _ (S k) _ e _ Hinc He Hl). lia.
Qed.

Lemma slice_same_time epoch k s e :
  epoch ≠ [] →
  epoch_slices_of epoch (length epoch) !! k = Some (s, e) →
  ∀ i, s ≤ i < e → epoch !! i = epoch !! s.
Proof.
  intros Hne Hk.
  destruct (slice_bounds epoch k s e Hne Hk) as [Hse Hen].
  apply slices_posts in Hk as [Hs He].
  pose proof (increasing_posts epoch Hne) as Hinc.
  assert (∀ d, s + d < e → epoch !! (s + d) = epoch !! s) as Hd.
  { induction d as [|d IH]; intros Hlt; [by rewrite Nat.add_0_r|].
    rewrite <- IH by lia.
    destruct (decide (epoch !! (s + d + 1) = epoch !! (s + d))) as [Heq|Hneq].
    { by replace (s + S d) with (s + d + 1) by lia. }
    assert (s + d ∈ breaks_of epoch) as Hb
      by (apply elem_of_breaks; split; [lia|done]).
    exfalso.
    apply (increasing_gap _ k s e (s + d + 1) Hinc Hs He); [lia..|].
    unfold posts. apply elem_of_app. left. apply elem_of_cons. right.
    apply list_elem_of_fmap. by exists (s + d). }
  intros i Hi. replace i with (s + (i - s)) by lia. apply Hd. lia.
Qed.

(** C9. For a non-empty time array whose length is [num_ancestors], the
    epoch ranges computed by [__init__] start at 0, end at [num_ancestors],
    each range ends where the next one starts, every range is non-empty and
    every ancestor id lies in a range; the ancestors of one range share one
    time value, and adjacent ranges have different time values. *)
Theorem epoch_slices_partition (epoch : list Z) (num_ancestors : nat) :
  epoch ≠ [] → num_ancestors = length epoch →
  let slices := epoch_slices_of epoch num_ancestors in
  (∃ e, slices !! 0 = Some (0, e)) ∧
  (∃ s, last slices = Some (s, num_ancestors)) ∧
  (∀ k s e s' e',
     slices !! k = Some (s, e) → slices !! S k = Some (s', e') → e = s') ∧
  (∀ k s e, slices !! k = Some (s, e) → s < e ≤ num_ancestors) ∧
  (∀ i, i < num_ancestors →
        ∃ k s e, slices !! k = Some (s, e) ∧ s ≤ i < e) ∧
  (∀ k s e i j, slices !! k = Some (s, e) → s ≤ i < e → s ≤ j < e →
                epoch !! i = epoch !! j) ∧
  (∀ k s e s' e',
     slices !! k = Some (s, e) → slices !! S k = Some (s', e') →
     epoch !! s ≠ epoch !! s').
Proof.
  intros Hne ->. simpl.
  pose proof (increasing_posts epoch Hne) as Hinc.
  assert (∀ k, k ≤ length (breaks_of epoch) →
               ∃ s e, epoch_slices_of epoch (length epoch) !! k = Some (s, e))
    as Hex.
  { intros k Hk.
    destruct (lookup_lt_is_Some_2 (posts epoch (length epoch)) k) as [s Hs];
      [rewrite posts_length; lia|].
    destruct (lookup_lt_is_Some_2 (posts epoch (length epoch)) (S k))
      as [e He]; [rewrite posts_length; lia|].
    exists s, e. by apply slices_posts. }
  assert (∀ k s e s' e',
            epoch_slices_of epoch (length epoch) !! k = Some (s, e) →
            epoch_slices_of epoch (length epoch) !! S k = Some (s', e') →
            e = s') as Hchain.
  { intros k s e s' e' [_ He]%slices_posts [Hs' _]%slices_posts. congruence. }
  split; [|split; [|split; [|split; [|split; [|split]]]]].
  - destruct (Hex 0) as (s & e & Hk); [lia|]. exists e.
    pose proof Hk as [Hs _]%slices_posts. rewrite posts_first in Hs.
    by injection Hs as <-.
  - destruct (Hex (length (breaks_of epoch))) as (s & e & Hk); [lia|].
    exists s. pose proof Hk as [_ He]%slices_posts.
    rewrite posts_last in He. injection He as <-.
    rewrite last_lookup. rewrite <- Hk. f_equal.
    unfold epoch_slices_of. cbv zeta.
    rewrite length_zip, !length_app, !length_fmap.
    change (length [0]) with 1. change (length [length epoch]) with 1. lia.
  - exact Hchain.
  - intros k s e Hk. by apply (slice_bounds epoch k).
  - induction i as [|i IH]; intros Hi.
    + destruct (Hex 0) as (s & e & Hk); [lia|].
      pose proof Hk as [Hs _]%slices_posts. rewrite posts_first in Hs.
      injection Hs as <-.
      destruct (slice_bounds epoch 0 0 e Hne Hk). exists 0, 0, e. split; [done|lia].
    + destruct IH as (k & s & e & Hk & Hin); [lia|].
      destruct (decide (S i < e)) as [Hlt|Hge].
      { exists k, s, e. split; [done|lia]. }
      assert (e = S i) as -> by lia.
      pose proof Hk as [_ He]%slices_posts.
      pose proof (lookup_lt_Some _ _ _ He) as Hlen. rewrite posts_length in Hlen.
      destruct (decide (k = length (breaks_of epoch))) as [->|Hnl].
      { rewrite posts_last in He. injection He as He. lia. }
      destruct (Hex (S k)) as (s' & e' & Hk'); [lia|].
      pose proof (Hchain _ _ _ _ _ Hk Hk') as <-.
      destruct (slice_bounds epoch (S k) (S i) e' Hne Hk').
      exists (S k), (S i), e'. split; [done|lia].
  - intros k s e i j Hk Hi Hj.
    rewrite (slice_same_time epoch k s e Hne Hk i Hi).
    by rewrite (slice_same_time epoch k s e Hne Hk j Hj).
  - intros k s e s' e' Hk Hk'.
    pose proof (Hchain _ _ _ _ _ Hk Hk') as <-.
    destruct (slice_bounds epoch k s e Hne Hk) as [Hse Hen].
    pose proof Hk as [_ He]%slices_posts.
    pose proof Hk' as [_ He']%slices_posts.
    pose proof (lookup_lt_Some _ _ _ He') as Hlen. rewrite posts_length in Hlen.
    destruct (posts_inner epoch (length epoch) k e He) as (b & -> & Hb); [lia|].
    apply elem_of_breaks in Hb as [_ Hb].
    rewrite <- (slice_same_time epoch k s (b + 1) Hne Hk b) by lia. done.
Qed.

Lemma epoch_slices_partition_witness :
  let epoch := [4; 3; 3; 2]%Z in
  let slices := epoch_slices_of epoch 4 in
  slices = [(0, 1); (1, 3); (3, 4)] ∧
  (∀ k s e i j, slices !! k = Some (s, e) → s ≤ i < e → s ≤ j < e →
                epoch !! i = epoch !! j).
Proof.
  split; [reflexivity|].
  refine (proj1 (proj2 (proj2 (proj2 (proj2 (proj2
    (epoch_slices_partition [4; 3; 3; 2]%Z 4 _ _))))))).
  - discriminate.
  - reflexivity.
Defined.

End EpochFacts.

(** ** The tree-sequence builder *)

Module BuilderFacts.
Import TreeSequenceBuilder BuilderSpec.

Lemma grows_by_refl b : grows_by 0 b b.
Proof. split; [by rewrite app_nil_r|lia]. Qed.

Lemma grows_by_trans m1 m2 b1 b2 b3 :
  grows_by m1 b1 b2 → grows_by m2 b2 b3 → grows_by (m1 + m2) b1 b3.
Proof.
  intros [Hi1 Hn1] [Hi2 Hn2]. split; [|lia].
  rewrite Hi2, Hi1, Hn1, <- app_assoc. f_equal. by rewrite seq_app.
Qed.

#[global] Instance grows_refl : Reflexive grows.
Proof. intros b. exists 0. apply grows_by_refl. Qed.

#[global] Instance grows_trans : Transitive grows.
Proof.
  intros b1 b2 b3 [m1 H1] [m2 H2]. exists (m1 + m2).
  by eapply grows_by_trans.
Qed.

Lemma builder_add_node_run time b :
  ∃ b', add_node time b = (Ok (num_nodes b), b') ∧ grows_by 1 b b' ∧
        mutations b' = mutations b.
Proof.
  unfold add_node. munfold.
  eexists. split; [reflexivity|]. split; [|done]. split; simpl.
  - unfold add_node_ids. by rewrite omap_app.
  - unfold num_nodes. simpl. rewrite length_app. simpl. lia.
Qed.

Lemma builder_add_path_run node_id l r p b :
  ∃ b', add_path node_id l r p b = (Ok tt, b') ∧ grows_by 0 b b' ∧
        mutations b' = mutations b.
Proof.
  unfold add_path. munfold.
  eexists. split; [reflexivity|]. split; [|done]. split; simpl.
  - unfold add_node_ids. rewrite omap_app. simpl. by rewrite !app_nil_r.
  - unfold num_nodes. simpl. lia.
Qed.

Lemma builder_add_mutations_run s n d b :
  ∃ b', add_mutations s n d b = (Ok tt, b') ∧ grows_by 0 b b' ∧
        mutations b' = mutations b ++
          ((λ '(s, (n, d)), (s, n, d)) <$> zip s (zip n d)).
Proof.
  unfold add_mutations. munfold.
  eexists. split; [reflexivity|]. split; [|done]. split; simpl.
  - unfold add_node_ids. rewrite omap_app. simpl. by rewrite !app_nil_r.
  - unfold num_nodes. simpl. lia.
Qed.

End BuilderFacts.

(** ** The base orchestrator and the commit *)

Module MatcherFacts.
Import BufferSpec BuilderSpec MatcherSpec BufferFacts BuilderFacts Matcher.

#[global] Instance matcher_grows_refl : Reflexive matcher_grows.
Proof. intros s. unfold matcher_grows. reflexivity. Qed.

#[global] Instance matcher_grows_trans : Transitive matcher_grows.
Proof. intros s1 s2 s3. unfold matcher_grows. apply transitivity. Qed.

#[global] Instance same_builder_refl : Reflexive same_builder.
Proof. by intros s. Qed.

#[global] Instance same_builder_trans : Transitive same_builder.
Proof. intros s1 s2 s3. unfold same_builder. congruence. Qed.

Lemma same_builder_grows s s' : same_builder s s' → matcher_grows s s'.
Proof. unfold same_builder, matcher_grows. intros ->. reflexivity. Qed.

Lemma on_results_same_builder {A} i (m : M ResultBuffer.t A) :
  stable same_builder (on_results i m).
Proof.
  unfold on_results.
  apply stable_zoom with (R' := λ _ _, True); [done|]. by intros [].
Qed.

Section Collaborators.
Context (find_path : TreeSequenceBuilder.t → list Z → nat → nat →
                     result (list Z * list Z * list Z * list Z)).

Lemma find_path_same_builder child_id h s e ti :
  stable same_builder (_find_path find_path child_id h s e ti).
Proof.
  unfold _find_path.
  apply stable_bind; [apply _|apply stable_get; apply _|intros self].
  apply stable_bind; [apply _|apply stable_lift; apply _|intros _].
  apply stable_bind; [apply _|apply stable_lift; apply _|intros _].
  apply stable_bind; [apply _|apply stable_lift; apply _|intros [[[l r] p] m]].
  apply stable_bind; [apply _|apply stable_modify; by intros []|intros _].
  apply stable_bind; [apply _|apply on_results_same_builder|intros _].
  apply stable_ret; apply _.
Qed.

End Collaborators.

#[global] Instance keeps_all_refl : Reflexive keeps_all.
Proof. intros l Hl. split; [done|]. eauto. Qed.

#[global] Instance keeps_all_trans : Transitive keeps_all.
Proof.
  intros l1 l2 l3 H12 H23 Hl1. destruct (H12 Hl1) as [Hl2 Hr12].
  destruct (H23 Hl2) as [Hl3 Hr23]. split; [done|].
  intros ti b row Hb Hrow. destruct (Hr12 _ _ _ Hb Hrow) as (b2 & Hb2 & Hrow2).
  eauto.
Qed.

Lemma zoom_index_keeps_all {A} i (m : M ResultBuffer.t A) :
  stable keeps_rows m → stable keeps_all (zoom_index i m).
Proof.
  intros Hm. apply stable_zoom_index with (R' := keeps_rows);
    [apply _|done|].
  intros objs o o' Ho Hkeep Hwf.
  destruct Hkeep as [Ho' Hrows].
  { rewrite Forall_lookup in Hwf. by eapply Hwf. }
  split; [by apply Forall_insert|].
  intros ti b row Hb Hrow.
  destruct (decide (i = ti)) as [->|Hne].
  - exists o'. split; [apply list_lookup_insert_eq; by eapply lookup_lt_Some|].
    apply Hrows. congruence.
  - exists b. by rewrite list_lookup_insert_ne.
Qed.

#[global] Instance matching_refl : Reflexive matching.
Proof. intros s. split; reflexivity. Qed.

#[global] Instance matching_trans : Transitive matching.
Proof. intros s1 s2 s3 [] []. split; by etrans. Qed.

Lemma on_results_matching {A} i (m : M ResultBuffer.t A) :
  stable keeps_rows m → stable matching (Matcher.on_results i m).
Proof.
  intros Hm. unfold Matcher.on_results.
  apply stable_zoom with (R' := keeps_all);
    [by apply zoom_index_keeps_all|].
  intros [] l' Hl'. split; [done|]. exact Hl'.
Qed.

Section Collaborators.
Context (find_path : TreeSequenceBuilder.t → list Z → nat → nat →
                     result (list Z * list Z * list Z * list Z)).

Lemma find_path_matching child_id h s e ti :
  stable matching (Matcher._find_path find_path child_id h s e ti).
Proof.
  unfold Matcher._find_path.
  apply stable_bind; [apply _|apply stable_get; apply _|intros self].
  apply stable_bind; [apply _|apply stable_lift; apply _|intros _].
  apply stable_bind; [apply _|apply stable_lift; apply _|intros _].
  apply stable_bind; [apply _|apply stable_lift; apply _|intros [[[l r] p] m]].
  apply stable_bind; [apply _| |intros _].
  { apply stable_modify; [intros []; split; [done|reflexivity]]. }
  apply stable_bind; [apply _| |intros _; apply stable_ret; apply _].
  apply on_results_matching.
  apply (perform_keeps_rows (AddEdges l r p _)).
Qed.

End Collaborators.

(** A loop whose iterations each advance the state by one step has
    advanced it by its number of iterations when it returns. *)
Lemma for_ok_steps {S A} (Q : nat → relation S) (xs : list A) body :
  (∀ s, Q 0 s s) →
  (∀ m1 m2 s1 s2 s3, Q m1 s1 s2 → Q m2 s2 s3 → Q (m1 + m2) s1 s3) →
  (∀ x s s', body x s = (Ok tt, s') → Q 1 s s') →
  ∀ s s', for_ xs body s = (Ok tt, s') → Q (length xs) s s'.
Proof.
  intros Hrefl Htrans Hbody.
  induction xs as [|x xs IH]; intros s s' Hrun; simpl in Hrun.
  - injection Hrun as <-. apply Hrefl.
  - apply bind_ok in Hrun as ([] & s1 & Hx & Hrest).
    apply (Htrans 1 (length xs) s s1 s'); [by eapply Hbody|by apply IH].
Qed.

Lemma committed_refl s : committed 0 [] s s.
Proof.
  split; [apply grows_by_refl|]. by rewrite app_nil_r.
Qed.

Lemma committed_trans m1 m2 r1 r2 s1 s2 s3 :
  committed m1 r1 s1 s2 → committed m2 r2 s2 s3 →
  committed (m1 + m2) (r1 ++ r2) s1 s3.
Proof.
  intros (Hg1 & Hm1 & Hr1 & Hx1) (Hg2 & Hm2 & Hr2 & Hx2).
  split; [by eapply grows_by_trans|].
  split; [by rewrite Hm2, Hm1, app_assoc|]. split; congruence.
Qed.

Lemma on_builder_run {A} (m : M TreeSequenceBuilder.t A) s r s' :
  Matcher.on_builder m s = (r, s') →
  ∃ b', m (Matcher.tree_sequence_builder s) = (r, b') ∧
        s' = Matcher.set_tree_sequence_builder b' s.
Proof. apply zoom_run. Qed.

Lemma commit_ok n time er s s' :
  Matcher.commit n time er s = (Ok tt, s') →
  committed n (mutation_rows (views er)) s s'.
Proof.
  unfold Matcher.commit. intros Hrun.
  apply bind_ok in Hrun as ([] & s1 & Hloop & Hmut).
  assert (committed (length (seq 0 n)) [] s s1) as H1.
  { revert Hloop.
    apply (for_ok_steps (λ m, committed m [])); clear.
    - apply committed_refl.
    - intros m1 m2 s1 s2 s3 H12 H23.
      apply (committed_trans m1 m2 [] [] s1 s2 s3 H12 H23).
    - intros j s s' Hrun.
      apply bind_ok in Hrun as (c0 & s0 & [_ ->]%lift_ok & Hrun).
      apply bind_ok in Hrun as (node_id & s1 & Hnode & Hrun).
      apply bind_ok in Hrun as (l & s2 & [_ ->]%lift_ok & Hrun).
      apply bind_ok in Hrun as (r & s3 & [_ ->]%lift_ok & Hrun).
      apply bind_ok in Hrun as (p & s4 & [_ ->]%lift_ok & Hrun).
      apply on_builder_run in Hnode as (b1 & Hnode & ->).
      apply on_builder_run in Hrun as (b2 & Hpath & ->).
      destruct (builder_add_node_run time (Matcher.tree_sequence_builder s))
        as (b1' & Hnode' & Hg1 & Hm1).
      rewrite Hnode' in Hnode. injection Hnode as <- <-.
      simpl in Hpath.
      destruct (builder_add_path_run (TreeSequenceBuilder.num_nodes
                                (Matcher.tree_sequence_builder s))
                  (reverse l) (reverse r) (reverse p) b1')
        as (b2' & Hpath' & Hg2 & Hm2).
      rewrite Hpath' in Hpath. injection Hpath as <-.
      split; simpl.
      + apply (grows_by_trans 1 0 _ b1' b2'); done.
      + rewrite Hm2, Hm1, app_nil_r. done. }
  rewrite length_seq in H1.
  apply on_builder_run in Hmut as (b2 & Hmut & ->).
  destruct (builder_add_mutations_run (ResultBuffer.site er) (ResultBuffer.node er)
              (ResultBuffer.derived_state er)
              (Matcher.tree_sequence_builder s1)) as (b2' & Hmut' & Hg & Hm).
  rewrite Hmut' in Hmut. injection Hmut as <-.
  replace n with (n + 0) by lia.
  apply (committed_trans n 0 [] _ s s1); [done|].
  split; simpl; [done|]. done.
Qed.

Lemma commit_grows n time er : stable matcher_grows (Matcher.commit n time er).
Proof.
  assert (∀ A (m : M TreeSequenceBuilder.t A),
            stable BuilderSpec.grows m →
            stable matcher_grows (Matcher.on_builder m)) as Hon.
  { intros A m Hm. unfold Matcher.on_builder.
    apply stable_zoom with (R' := BuilderSpec.grows); [done|].
    intros [] b' Hb'. exact Hb'. }
  unfold Matcher.commit.
  apply stable_bind; [apply _| |intros _].
  - apply stable_for; [apply _|apply _|intros j].
    apply stable_bind; [apply _|apply stable_lift; apply _|intros c0].
    apply stable_bind; [apply _| |intros node_id].
    { apply Hon. intros b. destruct (builder_add_node_run time b) as (b' & -> & Hg & _).
      by exists 1. }
    apply stable_bind; [apply _|apply stable_lift; apply _|intros l].
    apply stable_bind; [apply _|apply stable_lift; apply _|intros r].
    apply stable_bind; [apply _|apply stable_lift; apply _|intros p].
    apply Hon. intros b.
    destruct (builder_add_path_run node_id (reverse l) (reverse r) (reverse p) b)
      as (b' & -> & Hg & _).
    by exists 0.
  - apply Hon. intros b.
    destruct (builder_add_mutations_run (ResultBuffer.site er) (ResultBuffer.node er)
                (ResultBuffer.derived_state er) b) as (b' & -> & Hg & _).
    by exists 0.
Qed.

Lemma commit_keeps_results n time er :
  stable (λ b b', Matcher.results b' = Matcher.results b)
    (Matcher.commit n time er).
Proof.
  assert (Reflexive (λ b b' : Matcher.t,
                       Matcher.results b' = Matcher.results b)) as Hrefl
    by (by intros b).
  assert (Transitive (λ b b' : Matcher.t,
                        Matcher.results b' = Matcher.results b)) as Htrans
    by (intros b1 b2 b3 ? ?; congruence).
  assert (∀ A (m : M TreeSequenceBuilder.t A),
            stable (λ b b', Matcher.results b' = Matcher.results b)
              (Matcher.on_builder m)) as Hon.
  { intros A m. unfold Matcher.on_builder.
    apply stable_zoom with (R' := λ _ _, True); [done|]. by intros []. }
  unfold Matcher.commit.
  apply stable_bind; [done| |intros _; apply Hon].
  apply stable_for; [done..|intros j].
  apply stable_bind; [done|by apply stable_lift|intros c0].
  apply stable_bind; [done|apply Hon|intros node_id].
  apply stable_bind; [done|by apply stable_lift|intros l].
  apply stable_bind; [done|by apply stable_lift|intros r].
  apply stable_bind; [done|by apply stable_lift|intros p].
  apply Hon.
Qed.

End MatcherFacts.

(** ** Ancestor matching *)

Module AncestorFacts.
Import BufferSpec BuilderSpec MatcherSpec AncestorSpec BufferFacts BuilderFacts
       MatcherFacts AncestorMatcher.

#[global] Instance steady_refl : Reflexive steady.
Proof. intros s. do 5 (split; [done|]). reflexivity. Qed.

#[global] Instance steady_trans : Transitive steady.
Proof.
  intros s1 s2 s3 (? & ? & ? & ? & ? & ?) (? & ? & ? & ? & ? & ?).
  do 5 (split; [congruence|]). by etrans.
Qed.

#[global] Instance advances_refl : Reflexive advances.
Proof. intros s. unfold advances. reflexivity. Qed.

#[global] Instance advances_trans : Transitive advances.
Proof. intros s1 s2 s3. unfold advances. apply transitivity. Qed.

Lemma steady_advances s s' : steady s s' → advances s s'.
Proof.
  intros (_ & _ & _ & _ & _ & Hb & _). unfold advances, tree_sequence_builder.
  rewrite Hb. reflexivity.
Qed.

Lemma on_base_steady {A} (m : M Matcher.t A) :
  stable matching m → stable steady (on_base m).
Proof.
  intros Hm. unfold on_base.
  apply stable_zoom with (R' := matching); [done|].
  intros [] b' Hb'. by do 5 (split; [done|]).
Qed.

Lemma next_haplotype_steady : stable steady next_haplotype.
Proof.
  unfold next_haplotype.
  apply stable_bind; [apply _|apply stable_get; apply _|intros self].
  destruct (haplotypes self); [apply stable_raise; apply _|].
  apply stable_bind; [apply _| |intros _; apply stable_ret; apply _].
  apply stable_modify. intros []. do 5 (split; [done|]). reflexivity.
Qed.

Lemma epoch_info_same j s r s' : __epoch_info_dict j s = (r, s') → s' = s.
Proof.
  unfold __epoch_info_dict. munfold.
  destruct (np.item (epoch_slices s) j) as [[a b]|]; [|by intros [= _ <-]].
  destruct (np.item (epoch s) (Z.of_nat a)); by intros [= _ <-].
Qed.

Section Collaborators.
Context (uninit : nat → Z).
Context (find_path : TreeSequenceBuilder.t → list Z → nat → nat →
                     result (list Z * list Z * list Z * list Z)).

Lemma ancestor_find_path_steady aid nid h ti :
  stable steady (__ancestor_find_path find_path aid nid h ti).
Proof.
  unfold __ancestor_find_path.
  apply stable_bind; [apply _|apply stable_get; apply _|intros self].
  apply stable_bind; [apply _|apply stable_lift; apply _|intros F].
  apply stable_bind; [apply _|apply stable_lift; apply _|intros s].
  apply stable_bind; [apply _|apply stable_lift; apply _|intros e].
  apply stable_bind; [apply _| |intros _].
  { apply on_base_steady, on_results_matching.
    apply (perform_keeps_rows (AddMutations _ _ _)). }
  apply stable_bind; [apply _|apply stable_assert; apply _|intros _].
  apply stable_bind; [apply _|apply stable_assert; apply _|intros _].
  apply stable_bind; [apply _|apply stable_lift; apply _|intros at_focal].
  apply stable_bind; [apply _|apply stable_assert; apply _|intros _].
  apply stable_bind; [apply _| |intros _].
  { apply on_base_steady, find_path_matching. }
  apply stable_bind; [apply _|apply stable_lift; apply _|intros h'].
  apply stable_bind; [apply _|apply stable_get; apply _|intros self'].
  apply stable_bind; [apply _|apply stable_lift; apply _|intros m].
  apply stable_bind; [apply _|apply stable_assert; apply _|intros _].
  apply stable_ret; apply _.
Qed.

Lemma ancestor_find_path_ok aid nid h ti st h' st' :
  Forall wf (Matcher.results (base st)) →
  __ancestor_find_path find_path aid nid h ti st = (Ok h', st') →
  ∃ F,
    focal_sites st !! aid = Some F ∧
    Matcher.match_ (base st') !! ti = Some h' ∧
    ∀ f, f ∈ F →
      h !! f = Some 1%Z ∧ h' !! f = Some 0%Z ∧
      ∃ b', Matcher.results (base st') !! ti = Some b' ∧
            (Z.of_nat f, Z.of_nat nid, 1%Z) ∈ mutation_rows (views b').
Proof.
  intros Hwf Hrun. unfold __ancestor_find_path in Hrun.
  apply bind_ok in Hrun as (self & s0 & [= <- <-] & Hrun).
  apply bind_ok in Hrun as (F & s0 & [HF ->]%lift_ok & Hrun).
  apply bind_ok in Hrun as (s & s0 & [_ ->]%lift_ok & Hrun).
  apply bind_ok in Hrun as (e & s0 & [_ ->]%lift_ok & Hrun).
  apply bind_ok in Hrun as ([] & st1 & Hadd & Hrun).
  apply bind_ok in Hrun as ([] & s0 & [_ ->]%assert_ok & Hrun).
  apply bind_ok in Hrun as ([] & s0 & [_ ->]%assert_ok & Hrun).
  apply bind_ok in Hrun as (at_focal & s0 & [Htake ->]%lift_ok & Hrun).
  apply bind_ok in Hrun as ([] & s0 & [Hone ->]%assert_ok & Hrun).
  apply bind_ok in Hrun as (lrp & st2 & Hfind & Hrun).
  apply bind_ok in Hrun as (h2 & s0 & [Hset ->]%lift_ok & Hrun).
  apply bind_ok in Hrun as (self' & s0 & [= <- <-] & Hrun).
  apply bind_ok in Hrun as (m & s0 & [Hm ->]%lift_ok & Hrun).
  apply bind_ok in Hrun as ([] & s0 & [Heq ->]%assert_ok & Hrun).
  injection Hrun as <- <-.
  apply item_nat in HF. apply item_nat in Hm.
  apply bool_decide_eq_true in Hone, Heq. subst m.
  exists F. do 2 (split; [done|]). intros f Hf.
  split; [|split].
  - destruct (take_indices_ok _ _ _ f Htake Hf) as (v & Hv & Hhf).
    destruct (list_elem_of_lookup_1 _ _ Hv) as [k Hk].
    by rewrite (Forall_lookup_1 _ _ _ _ Hone Hk) in Hhf.
  - destruct (indices_assign_ok F h h2 0%Z f Hset) as (_ & Hin & _).
    by apply Hin.
  - (* the mutation records of the focal sites *)
    apply zoom_run in Hadd as (b1 & Hadd & ->).
    apply zoom_run in Hadd as (l1 & Hadd & ->).
    apply zoom_index_ok in Hadd as (o & o' & Ho & Hadd & ->).
    assert (wf o) as Hwfo by (rewrite Forall_lookup in Hwf; by eapply Hwf).
    destruct (perform_run (AddMutations (Z.of_nat <$> F)
                             (np.Scalar (Z.of_nat nid)) None) o Hwfo)
      as (res & o2 & Hrun & Hwfo' & _ & _ & _ & Hres).
    simpl in Hrun. rewrite Hadd in Hrun. injection Hrun as <- <-.
    destruct Hres as (Hviews & _).
    pose proof (stable_run _ _ _ _ _
                  (on_base_steady _
                     (find_path_matching find_path nid h s e ti))
                  Hfind) as (_ & _ & _ & _ & _ & _ & Hkeep).
    simpl in Hkeep. destruct Hkeep as [_ Hkeep]; [by apply Forall_insert|].
    apply (Hkeep ti o').
    + apply list_lookup_insert_eq. by eapply lookup_lt_Some.
    + rewrite Hviews, mutation_rows_append by by apply views_aligned.
      apply elem_of_app. right. by apply focal_rows.
Qed.

End Collaborators.

#[global] Instance same_tsb_refl : Reflexive same_tsb.
Proof. by intros s. Qed.

#[global] Instance same_tsb_trans : Transitive same_tsb.
Proof. intros s1 s2 s3. unfold same_tsb. congruence. Qed.

#[global] Instance keeps_wf_refl : Reflexive keeps_wf.
Proof. intros s Hwf. exact Hwf. Qed.

#[global] Instance keeps_wf_trans : Transitive keeps_wf.
Proof. intros s1 s2 s3 H12 H23 Hwf. apply H23, H12, Hwf. Qed.

Lemma steady_keeps_wf s s' : steady s s' → keeps_wf s s'.
Proof. intros (_ & _ & _ & _ & _ & _ & Hk) Hwf. by apply Hk. Qed.

Lemma on_base_same_tsb {A} (m : M Matcher.t A) :
  stable same_builder m → stable same_tsb (on_base m).
Proof.
  intros Hm. unfold on_base.
  apply stable_zoom with (R' := same_builder); [done|]. by intros [].
Qed.

Lemma on_base_advances {A} (m : M Matcher.t A) :
  stable matcher_grows m → stable advances (on_base m).
Proof.
  intros Hm. unfold on_base.
  apply stable_zoom with (R' := matcher_grows); [done|]. by intros [].
Qed.

Lemma clear_all_same_tsb n :
  stable same_tsb
    (for_ (seq 0 n) (λ i, on_base (Matcher.on_results i ResultBuffer.clear))).
Proof.
  apply stable_for; [apply _|apply _|intros i].
  apply on_base_same_tsb, on_results_same_builder.
Qed.

Section Collaborators.
Context (uninit : nat → Z).
Context (find_path : TreeSequenceBuilder.t → list Z → nat → nat →
                     result (list Z * list Z * list Z * list Z)).

Lemma combine_same_builder :
  stable same_builder
    (zoom Matcher.results Matcher.set_results (ResultBuffer.combine uninit)).
Proof. apply stable_zoom with (R' := λ _ _, True); [done|]. by intros []. Qed.

Lemma complete_epoch_advances j :
  stable advances (__complete_epoch uninit j).
Proof.
  unfold __complete_epoch.
  apply stable_bind; [apply _|apply stable_get; apply _|intros self].
  apply stable_bind; [apply _|apply stable_lift; apply _|intros [s e]].
  apply stable_bind; [apply _|apply stable_lift; apply _|intros time].
  apply stable_bind; [apply _| |intros er].
  { apply on_base_advances.
    eapply stable_weaken; [apply same_builder_grows|].
    apply combine_same_builder. }
  apply stable_bind; [apply _| |intros _].
  { apply on_base_advances, commit_grows. }
  apply stable_bind; [apply _|apply stable_get; apply _|intros self'].
  eapply stable_weaken; [|apply clear_all_same_tsb].
  intros s1 s2 Hs. unfold advances. rewrite Hs. reflexivity.
Qed.

Lemma complete_epoch_ok j st st' :
  Forall wf (Matcher.results (base st)) →
  __complete_epoch uninit j st = (Ok tt, st') →
  ∃ s e,
    np.item (epoch_slices st) j = Ok (s, e) ∧
    grows_by (e - s) (tree_sequence_builder st) (tree_sequence_builder st') ∧
    TreeSequenceBuilder.mutations (tree_sequence_builder st') =
      TreeSequenceBuilder.mutations (tree_sequence_builder st) ++
      mutation_rows (concat_views (Matcher.results (base st))).
Proof.
  intros Hwf Hrun. unfold __complete_epoch in Hrun.
  apply bind_ok in Hrun as (self & s0 & [= <- <-] & Hrun).
  apply bind_ok in Hrun as ([s e] & s0 & [Hse ->]%lift_ok & Hrun).
  apply bind_ok in Hrun as (time & s0 & [_ ->]%lift_ok & Hrun).
  apply bind_ok in Hrun as (er & st1 & Hcomb & Hrun).
  apply bind_ok in Hrun as ([] & st2 & Hcommit & Hrun).
  apply bind_ok in Hrun as (self' & s0 & [= <- <-] & Hrun).
  exists s, e. split; [done|].
  apply zoom_run in Hcomb as (b1 & Hcomb & ->).
  apply zoom_run in Hcomb as (l1 & Hcomb & ->).
  destruct (combine_run uninit _ Hwf) as (c & Hc & _ & Hviews & _).
  rewrite Hc in Hcomb. injection Hcomb as <- <-.
  apply zoom_run in Hcommit as (b2 & Hcommit & ->).
  apply commit_ok in Hcommit as (Hg & Hm & _).
  pose proof (stable_run _ _ _ _ _ (clear_all_same_tsb _) Hrun) as Hsame.
  unfold same_tsb, tree_sequence_builder in *. simpl in *.
  rewrite Hsame. destruct (base st). simpl in *.
  rewrite <- Hviews. done.
Qed.

Lemma match_epoch_advances j :
  stable advances (match_epoch_single_threaded uninit find_path j).
Proof.
  unfold match_epoch_single_threaded.
  apply stable_bind; [apply _| |intros _].
  { intros s. destruct (__epoch_info_dict j s) as [r s'] eqn:Hrun.
    apply epoch_info_same in Hrun as ->. simpl. reflexivity. }
  apply stable_bind; [apply _|apply stable_get; apply _|intros self].
  apply stable_bind; [apply _|apply stable_lift; apply _|intros [s e]].
  apply stable_bind; [apply _| |intros _; apply complete_epoch_advances].
  apply stable_for_acc; [apply _|apply _|intros aid nid].
  eapply stable_weaken; [apply steady_advances|].
  apply stable_bind; [apply _|apply next_haplotype_steady|intros a].
  apply stable_bind; [apply _| |intros _; apply stable_ret; apply _].
  apply ancestor_find_path_steady.
Qed.

(** The matching loop of an epoch: every ancestor's focal sites are
    recorded in the buffer of thread 0 under the node id the loop counted
    for it. *)
Lemma matching_loop_ok xs : ∀ nid st nid' st1,
  Forall wf (Matcher.results (base st)) →
  for_acc xs nid (λ ancestor_id node_id,
    a ← next_haplotype;
    __ancestor_find_path find_path ancestor_id node_id a 0 ;;
    mret (node_id + 1)) st = (Ok nid', st1) →
  steady st st1 ∧
  ∀ k aid F f,
    xs !! k = Some aid → focal_sites st !! aid = Some F → f ∈ F →
    ∃ b', Matcher.results (base st1) !! 0 = Some b' ∧
          (Z.of_nat f, Z.of_nat (nid + k), 1%Z) ∈ mutation_rows (views b').
Proof.
  induction xs as [|x xs IH]; intros nid st nid' st1 Hwf Hrun; simpl in Hrun.
  - injection Hrun as <- <-. split; [reflexivity|]. by intros k ? ? ? ?.
  - apply bind_ok in Hrun as (nid1 & sb & Hbody & Hrest).
    apply bind_ok in Hbody as (a & sa & Hnext & Hbody).
    apply bind_ok in Hbody as (h' & sb' & Hafp & [= <- <-]).
    pose proof (stable_run _ _ _ _ _ next_haplotype_steady Hnext) as Hsa.
    pose proof (stable_run _ _ _ _ _
                  (ancestor_find_path_steady find_path x nid a 0) Hafp) as Hsb.
    assert (Forall wf (Matcher.results (base sa))) as Hwfa.
    { destruct Hsa as (_ & _ & _ & _ & _ & _ & Hk). by apply Hk. }
    assert (Forall wf (Matcher.results (base sb'))) as Hwfb.
    { destruct Hsb as (_ & _ & _ & _ & _ & _ & Hk). by apply Hk. }
    destruct (IH _ _ _ _ Hwfb Hrest) as [Hst Hrows].
    assert (steady st sb') as Hstb by (by etrans).
    split; [by etrans|].
    intros k aid F f Hk HF Hf. destruct k as [|k]; simpl in Hk.
    + injection Hk as ->.
      destruct (ancestor_find_path_ok find_path aid nid a 0 sa h' sb' Hwfa Hafp)
        as (F' & HF' & _ & Hfocal).
      destruct Hsa as (Hfs & _). rewrite Hfs, HF in HF'. injection HF' as <-.
      destruct (Hfocal f Hf) as (_ & _ & b' & Hb' & Hrow).
      destruct Hst as (_ & _ & _ & _ & _ & _ & Hkeep).
      destruct (Hkeep Hwfb) as [_ Hkeep'].
      rewrite Nat.add_0_r. by apply (Hkeep' 0 b').
    + destruct Hstb as (Hfs & _).
      destruct (Hrows k aid F f Hk) as (b' & Hb' & Hrow); [congruence|done|].
      exists b'. split; [done|].
      by replace (nid + S k) with (nid + 1 + k) by lia.
Qed.

Lemma match_epoch_ok j st st' :
  Forall wf (Matcher.results (base st)) →
  match_epoch_single_threaded uninit find_path j st = (Ok tt, st') →
  ∃ s e,
    np.item (epoch_slices st) j = Ok (s, e) ∧
    grows_by (e - s) (tree_sequence_builder st) (tree_sequence_builder st') ∧
    ∀ aid F f,
      s ≤ aid < e → focal_sites st !! aid = Some F → f ∈ F →
      (Z.of_nat f,
       Z.of_nat (TreeSequenceBuilder.num_nodes (tree_sequence_builder st)
                 + (aid - s)),
       1%Z) ∈ TreeSequenceBuilder.mutations (tree_sequence_builder st').
Proof.
  intros Hwf Hrun. unfold match_epoch_single_threaded in Hrun.
  apply bind_ok in Hrun as (info & s0 & Hinfo & Hrun).
  apply epoch_info_same in Hinfo as ->.
  apply bind_ok in Hrun as (self & s0 & [= <- <-] & Hrun).
  apply bind_ok in Hrun as ([s e] & s0 & [Hse ->]%lift_ok & Hrun).
  apply bind_ok in Hrun as (nid' & st1 & Hloop & Hrun).
  destruct (matching_loop_ok _ _ _ _ _ Hwf Hloop) as [Hst Hrows].
  pose proof Hst as (_ & _ & _ & _ & Hslices & Htsb & Hkeep).
  destruct (Hkeep Hwf) as [Hwf1 _].
  destruct (complete_epoch_ok j st1 st' Hwf1 Hrun)
    as (s' & e' & Hse' & Hg & Hm).
  rewrite Hslices, Hse in Hse'. injection Hse' as <- <-.
  unfold same_builder in Htsb. unfold tree_sequence_builder in *.
  rewrite Htsb in Hg, Hm.
  exists s, e. do 2 (split; [done|]).
  intros aid F f Haid HF Hf.
  destruct (Hrows (aid - s) aid F f) as (b' & Hb' & Hrow); [|done..|].
  { rewrite lookup_seq. lia. }
  rewrite Hm. apply elem_of_app. right.
  apply (concat_views_rows _ b'); [done| |done].
  by eapply list_elem_of_lookup_2.
Qed.

Lemma complete_epoch_keeps_wf j : stable keeps_wf (__complete_epoch uninit j).
Proof.
  unfold __complete_epoch.
  apply stable_bind; [apply _|apply stable_get; apply _|intros self].
  apply stable_bind; [apply _|apply stable_lift; apply _|intros [s e]].
  apply stable_bind; [apply _|apply stable_lift; apply _|intros time].
  apply stable_bind; [apply _| |intros er].
  { intros st Hwf. unfold on_base, zoom.
    destruct (combine_run uninit _ Hwf) as (c & Hc & _).
    rewrite Hc. by destruct st as [[]]. }
  apply stable_bind; [apply _| |intros _].
  { intros st Hwf.
    destruct (on_base (Matcher.commit (e - s) time er) st) as [r st'] eqn:Hrun.
    apply zoom_run in Hrun as (b' & Hrun & ->). simpl.
    pose proof (stable_run _ _ _ _ _ (commit_keeps_results _ _ _) Hrun) as Hres.
    simpl in Hres. by rewrite Hres. }
  apply stable_bind; [apply _|apply stable_get; apply _|intros self'].
  apply stable_for; [apply _|apply _|intros i].
  unfold on_base, Matcher.on_results.
  apply stable_zoom
    with (R' := λ b b', Forall wf (Matcher.results b) →
                        Forall wf (Matcher.results b'));
    [|by intros []].
  apply stable_zoom
    with (R' := λ l l', Forall wf l → Forall wf l'); [|by intros []].
  apply stable_zoom_index with (R' := λ b b', wf b → wf b');
    [intros l Hl; exact Hl| |].
  - intros b Hb. by destruct (clear_run b Hb) as [-> ?].
  - intros objs o o' Ho Hkeep Hwf. apply Forall_insert; [done|].
    apply Hkeep. by eapply Forall_lookup_1.
Qed.

Lemma match_epoch_keeps_wf j :
  stable keeps_wf (match_epoch_single_threaded uninit find_path j).
Proof.
  unfold match_epoch_single_threaded.
  apply stable_bind; [apply _| |intros _].
  { intros s. destruct (__epoch_info_dict j s) as [r s'] eqn:Hrun.
    apply epoch_info_same in Hrun as ->. simpl. reflexivity. }
  apply stable_bind; [apply _|apply stable_get; apply _|intros self].
  apply stable_bind; [apply _|apply stable_lift; apply _|intros [s e]].
  apply stable_bind; [apply _| |intros _; apply complete_epoch_keeps_wf].
  apply stable_for_acc; [apply _|apply _|intros aid nid].
  eapply stable_weaken; [apply steady_keeps_wf|].
  apply stable_bind; [apply _|apply next_haplotype_steady|intros a].
  apply stable_bind; [apply _| |intros _; apply stable_ret; apply _].
  apply ancestor_find_path_steady.
Qed.

End Collaborators.

Lemma advances_new_ids s s' :
  advances s s' →
  ∃ m, new_node_ids s s' = seq (num_nodes s) m ∧
       num_nodes s' = num_nodes s + m.
Proof.
  intros [m [Hids Hn]]. exists m. split; [|done].
  unfold new_node_ids, node_ids. rewrite Hids. by rewrite drop_app_length.
Qed.

Section Collaborators.
Context (uninit : nat → Z).
Context (find_path : TreeSequenceBuilder.t → list Z → nat → nat →
                     result (list Z * list Z * list Z * list Z)).

(** C3. In a single-threaded run, the node ids [add_node] hands out during
    the commits of some epochs are consecutive, starting at the number of
    nodes the builder had; so every id handed out for later epochs is
    greater than every id handed out for earlier ones and no id is handed
    out twice. Within an epoch that completes, in a run started with
    buffers that satisfy their invariant, the ancestors of the range
    [(s, e)] get the ids [n, n + 1, ..., n + (e - s) - 1] in ancestor order,
    [n] being the number of nodes before the epoch. *)
Theorem node_ids_increase (js1 js2 : list Z) st st1 r st2 :
  for_ js1 (match_epoch_single_threaded uninit find_path) st = (Ok tt, st1) →
  for_ js2 (match_epoch_single_threaded uninit find_path) st1 = (r, st2) →
  let earlier := new_node_ids st st1 in
  let later := new_node_ids st1 st2 in
  earlier = seq (num_nodes st) (length earlier) ∧
  later = seq (num_nodes st1) (length later) ∧
  num_nodes st1 = num_nodes st + length earlier ∧
  (∀ x y, x ∈ earlier → y ∈ later → x < y) ∧
  NoDup (earlier ++ later) ∧
  (∀ j s e,
     js2 = [j] → r = Ok tt → Forall wf (Matcher.results (base st)) →
     np.item (epoch_slices st1) j = Ok (s, e) →
     later = seq (num_nodes st1) (e - s)).
Proof.
  intros Hrun1 Hrun2. simpl.
  assert (∀ js, stable advances
                  (for_ js (match_epoch_single_threaded uninit find_path)))
    as Hadv.
  { intros js. apply stable_for; [apply _|apply _|intros j].
    apply match_epoch_advances. }
  destruct (advances_new_ids _ _ (stable_run _ _ _ _ _ (Hadv js1) Hrun1))
    as (m1 & He & Hn1).
  destruct (advances_new_ids _ _ (stable_run _ _ _ _ _ (Hadv js2) Hrun2))
    as (m2 & Hl & Hn2).
  rewrite He, Hl, !length_seq.
  do 3 (split; [done|]). split; [|split].
  - intros x y Hx%elem_of_seq Hy%elem_of_seq. lia.
  - rewrite Hn1, <- seq_app. apply NoDup_seq.
  - intros j s e -> -> Hwf0 Hse. simpl in Hrun2.
    assert (Forall wf (Matcher.results (base st1))) as Hwf.
    { refine (stable_run keeps_wf _ _ _ _ _ Hrun1 Hwf0).
      apply stable_for; [apply _|apply _|intros k].
      apply match_epoch_keeps_wf. }
    apply bind_ok in Hrun2 as ([] & s2 & Hrun2 & [= ->]).
    destruct (match_epoch_ok uninit find_path j st1 st2 Hwf Hrun2)
      as (s' & e' & Hse' & [Hids _] & _).
    rewrite Hse in Hse'. injection Hse' as <- <-.
    rewrite <- Hl. unfold new_node_ids, node_ids.
    rewrite Hids. by rewrite drop_app_length.
Qed.

(** C8. When [__ancestor_find_path] returns, every focal site of the
    ancestor held the derived allele in the haplotype handed in, holds the
    ancestral state in the haplotype as the call leaves it, which is also
    what the scratch array of the thread holds, and has a mutation record
    for the node id in the buffer of the thread. When a single-threaded
    epoch completes, the builder holds a mutation record with derived state
    1 at every focal site of every ancestor of the epoch, for the node id
    [add_node] returned for that ancestor. Whatever the thread, a matching
    call keeps the mutation records the buffers hold, and a commit that
    returns has put every mutation record of every buffer into the
    builder. *)
Theorem focal_sites_recorded :
  (∀ aid nid h ti st h' st',
     Forall wf (Matcher.results (base st)) →
     __ancestor_find_path find_path aid nid h ti st = (Ok h', st') →
     ∃ F,
       focal_sites st !! aid = Some F ∧
       Matcher.match_ (base st') !! ti = Some h' ∧
       ∀ f, f ∈ F →
         h !! f = Some 1%Z ∧ h' !! f = Some 0%Z ∧
         ∃ b', Matcher.results (base st') !! ti = Some b' ∧
               (Z.of_nat f, Z.of_nat nid, 1%Z) ∈ mutation_rows (views b')) ∧
  (∀ j st st',
     Forall wf (Matcher.results (base st)) →
     match_epoch_single_threaded uninit find_path j st = (Ok tt, st') →
     ∃ s e,
       np.item (epoch_slices st) j = Ok (s, e) ∧
       new_node_ids st st' = seq (num_nodes st) (e - s) ∧
       ∀ aid F f,
         s ≤ aid < e → focal_sites st !! aid = Some F → f ∈ F →
         new_node_ids st st' !! (aid - s) = Some (num_nodes st + (aid - s)) ∧
         (Z.of_nat f, Z.of_nat (num_nodes st + (aid - s)), 1%Z) ∈
           TreeSequenceBuilder.mutations (tree_sequence_builder st')) ∧
  (∀ aid nid h ti st r st' tj b row,
     Forall wf (Matcher.results (base st)) →
     __ancestor_find_path find_path aid nid h ti st = (r, st') →
     Matcher.results (base st) !! tj = Some b →
     row ∈ mutation_rows (views b) →
     Forall wf (Matcher.results (base st')) ∧
     ∃ b', Matcher.results (base st') !! tj = Some b' ∧
           row ∈ mutation_rows (views b')) ∧
  (∀ j st st' ti b row,
     Forall wf (Matcher.results (base st)) →
     __complete_epoch uninit j st = (Ok tt, st') →
     Matcher.results (base st) !! ti = Some b →
     row ∈ mutation_rows (views b) →
     row ∈ TreeSequenceBuilder.mutations (tree_sequence_builder st')).
Proof.
  split; [|split; [|split]]; cycle 2.
  { intros aid nid h ti st r st' tj b row Hwf Hrun Hb Hrow.
    pose proof (stable_run _ _ _ _ _
                  (ancestor_find_path_steady find_path aid nid h ti) Hrun)
      as (_ & _ & _ & _ & _ & _ & Hkeep).
    destruct (Hkeep Hwf) as [Hwf' Hrows]. split; [done|].
    by apply (Hrows tj b). }
  { intros j st st' ti b row Hwf Hrun Hb Hrow.
    destruct (complete_epoch_ok uninit j st st' Hwf Hrun)
      as (s & e & _ & _ & Hm).
    rewrite Hm. apply elem_of_app. right.
    apply (concat_views_rows _ b); [done| |done].
    by eapply list_elem_of_lookup_2. }
  { intros aid nid h ti st h' st' Hwf Hrun.
    by apply (ancestor_find_path_ok find_path aid nid h ti st h' st'). }
  { intros j st st' Hwf Hrun.
    destruct (match_epoch_ok uninit find_path j st st' Hwf Hrun)
      as (s & e & Hse & [Hids _] & Hrows).
    exists s, e. split; [done|].
    assert (new_node_ids st st' = seq (num_nodes st) (e - s)) as Hnew.
    { unfold new_node_ids, node_ids. rewrite Hids.
      by rewrite drop_app_length. }
    split; [done|]. intros aid F f Haid HF Hf. split.
    + rewrite Hnew. apply lookup_seq. lia.
    + by apply (Hrows aid F f). }
Qed.

End Collaborators.

#[global] Instance same_results_refl : Reflexive same_results.
Proof. by intros s. Qed.

#[global] Instance same_results_trans : Transitive same_results.
Proof. intros s1 s2 s3. unfold same_results. congruence. Qed.

Lemma on_builder_same_results {A} (m : M TreeSequenceBuilder.t A) :
  stable same_results (on_base (Matcher.on_builder m)).
Proof.
  unfold on_base.
  apply stable_zoom
    with (R' := λ b b', Matcher.results b' = Matcher.results b);
    [|by intros []].
  unfold Matcher.on_builder.
  apply stable_zoom with (R' := λ _ _, True); [done|]. by intros [].
Qed.

Lemma init_body_same_results ancestors_file resume :
  stable same_results (init_body ancestors_file resume).
Proof.
  unfold init_body.
  apply stable_bind; [apply _| |intros first_ancestor].
  { destruct resume as [ts|].
    - apply stable_bind; [apply _| |intros _].
      { unfold Matcher.restore_tree_sequence_builder, on_base.
        apply stable_zoom
          with (R' := λ b b', Matcher.results b' = Matcher.results b);
          [|by intros []].
        assert (∀ A (m : M TreeSequenceBuilder.t A),
                  stable (λ b b', Matcher.results b' = Matcher.results b)
                    (Matcher.on_builder m)) as Hon.
        { intros A m. unfold Matcher.on_builder.
          apply stable_zoom with (R' := λ _ _, True); [done|]. by intros []. }
        apply stable_bind; [intros ? ? ?; congruence|apply Hon|intros _].
        apply stable_bind; [intros ? ? ?; congruence|apply Hon|intros _].
        apply Hon. }
      apply stable_bind; [apply _|apply stable_get; apply _|intros self].
      apply stable_bind; [apply _|apply stable_lift; apply _|intros time].
      apply stable_bind; [apply _| |intros _; apply stable_ret; apply _].
      apply stable_modify. by intros [].
    - apply stable_bind; [apply _|apply stable_get; apply _|intros self].
      apply stable_bind; [apply _|apply stable_lift; apply _|intros time].
      apply stable_bind; [apply _| |intros _; apply stable_ret; apply _].
      apply on_builder_same_results. }
  apply stable_bind; [apply _| |intros _].
  { apply stable_modify. by intros []. }
  apply stable_bind; [apply _|apply stable_get; apply _|intros self].
  apply stable_bind; [apply _| |intros _; apply stable_ret; apply _].
  intros s. destruct (__epoch_info_dict (start_epoch self - 1) s)
    as [r s'] eqn:Hrun.
  apply epoch_info_same in Hrun as ->. simpl. reflexivity.
Qed.

(** The buffers of an orchestrator made by the constructor satisfy the
    invariant of [ResultBuffer]. *)
Lemma init_results_wf uninit input_file ancestors_file resume num_threads st :
  __init__ uninit input_file ancestors_file resume num_threads = Ok st →
  Forall wf (Matcher.results (base st)).
Proof.
  unfold __init__, Matcher.__init__. intros Hst.
  destruct (init_run uninit 1024) as (b & Hb & Hwf & _); [lia|].
  rewrite Hb in Hst.
  match type of Hst with
  | match init_body ?f ?r ?s with _ => _ end = _ =>
      pose proof (init_body_same_results f r s) as Hsame;
      destruct (init_body f r s) as [[u|e] s'] eqn:Hinit; [|done]
  end.
  injection Hst as <-. simpl in Hsame. rewrite Hsame. simpl.
  by apply Forall_replicate.
Qed.

Lemma node_ids_increase_witness :
  ∃ st st1 st2,
    __init__ Example.uninit Example.input_file Example.ancestors_file None 0
      = Ok st ∧
    for_ [1%Z] (match_epoch_single_threaded Example.uninit Example.find_path)
      st = (Ok tt, st1) ∧
    for_ [2%Z] (match_epoch_single_threaded Example.uninit Example.find_path)
      st1 = (Ok tt, st2) ∧
    new_node_ids st st1 = [1; 2] ∧
    new_node_ids st1 st2 = [3] ∧
    (∀ x y, x ∈ new_node_ids st st1 → y ∈ new_node_ids st1 st2 → x < y) ∧
    NoDup (new_node_ids st st1 ++ new_node_ids st1 st2).
Proof.
  evaluate_ok (__init__ Example.uninit Example.input_file
                 Example.ancestors_file None 0) st.
  evaluate_ok (for_ [1%Z] (match_epoch_single_threaded Example.uninit
                             Example.find_path) st) st1.
  evaluate_ok (for_ [2%Z] (match_epoch_single_threaded Example.uninit
                             Example.find_path) st1) st2.
  exists st, st1, st2.
  assert (for_ [1%Z] (match_epoch_single_threaded Example.uninit
                        Example.find_path) st = (Ok tt, st1)) as H1
    by (vm_compute; reflexivity).
  assert (for_ [2%Z] (match_epoch_single_threaded Example.uninit
                        Example.find_path) st1 = (Ok tt, st2)) as H2
    by (vm_compute; reflexivity).
  destruct (node_ids_increase Example.uninit Example.find_path
              [1%Z] [2%Z] st st1 (Ok tt) st2 H1 H2)
    as (_ & _ & _ & Hlt & Hnd & _).
  split; [vm_compute; reflexivity|].
  do 2 (split; [assumption|]).
  do 2 (split; [vm_compute; reflexivity|]).
  split; assumption.
Defined.

Lemma focal_sites_recorded_witness :
  ∃ st st' h' sa,
    __init__ Example.uninit Example.input_file Example.ancestors_file None 0
      = Ok st ∧
    match_epoch_single_threaded Example.uninit Example.find_path 1 st
      = (Ok tt, st') ∧
    new_node_ids st st' = [1; 2] ∧
    (0%Z, 1%Z, 1%Z) ∈
      TreeSequenceBuilder.mutations (tree_sequence_builder st') ∧
    (1%Z, 2%Z, 1%Z) ∈
      TreeSequenceBuilder.mutations (tree_sequence_builder st') ∧
    __ancestor_find_path Example.find_path 1 1 [1; 0; 0]%Z 0 st
      = (Ok h', sa) ∧
    [1; 0; 0]%Z !! 0 = Some 1%Z ∧ h' !! 0 = Some 0%Z ∧
    Matcher.match_ (base sa) !! 0 = Some h'.
Proof.
  evaluate_ok (__init__ Example.uninit Example.input_file
                 Example.ancestors_file None 0) st.
  evaluate_ok (match_epoch_single_threaded Example.uninit Example.find_path
                 1 st) st'.
  evaluate_ok (__ancestor_find_path Example.find_path 1 1 [1; 0; 0]%Z 0 st)
              sa.
  exists st, st', [0; 0; 0]%Z, sa.
  assert (__init__ Example.uninit Example.input_file Example.ancestors_file
            None 0 = Ok st) as Hst by (vm_compute; reflexivity).
  assert (match_epoch_single_threaded Example.uninit Example.find_path 1 st
          = (Ok tt, st')) as Hrun by (vm_compute; reflexivity).
  assert (__ancestor_find_path Example.find_path 1 1 [1; 0; 0]%Z 0 st
          = (Ok [0; 0; 0]%Z, sa)) as Hcall by (vm_compute; reflexivity).
  pose proof (init_results_wf _ _ _ _ _ _ Hst) as Hwf.
  destruct (focal_sites_recorded Example.uninit Example.find_path)
    as (Hcalls & Hepochs & _ & _).
  destruct (Hepochs 1%Z st st' Hwf Hrun) as (s & e & Hse & Hnew & Hrows).
  vm_compute in Hse. injection Hse as <- <-.
  destruct (Hrows 1 [0] 0) as [_ Hrow1];
    [lia|reflexivity|apply list_elem_of_here|].
  destruct (Hrows 2 [1] 1) as [_ Hrow2];
    [lia|reflexivity|apply list_elem_of_here|].
  destruct (Hcalls 1 1 [1; 0; 0]%Z 0 st [0; 0; 0]%Z sa Hwf Hcall)
    as (F & HF & Hmatch & Hfocal).
  vm_compute in HF. injection HF as <-.
  destruct (Hfocal 0) as (Hbefore & Hafter & _); [apply list_elem_of_here|].
  do 2 (split; [assumption|]). split; [exact Hnew|].
  do 2 (split; [assumption|]). split; [exact Hcall|].
  do 2 (split; [assumption|]). exact Hmatch.
Defined.

Lemma range_length lo hi : length (np.range lo hi) = Z.to_nat (hi - lo).
Proof. unfold np.range. by rewrite length_fmap, length_seq. Qed.

(** C2 (as amended). Both orchestrators match inline, with no queue and no
    worker thread, exactly when the configured thread count is zero or
    less; for a thread count [n] of one or more they create a queue of
    depth [8 * n] and [n] worker threads. *)
Theorem scheduling_by_thread_count
    (ancestors : AncestorMatcher.t) (samples : SampleMatcher.t) :
  let n := Matcher.num_threads (AncestorMatcher.base ancestors) in
  let m := Matcher.num_threads (SampleMatcher.base samples) in
  (((n ≤ 0)%Z ∧
    AncestorMatcher.match_ancestors_scheduling ancestors = SingleThreaded) ∨
   ((1 ≤ n)%Z ∧
    AncestorMatcher.match_ancestors_scheduling ancestors =
      MultiThreaded (8 * n) (np.range 0 n) ∧
    length (np.range 0 n) = Z.to_nat n)) ∧
  (((m ≤ 0)%Z ∧
    SampleMatcher.match_samples_scheduling samples = SingleThreaded) ∨
   ((1 ≤ m)%Z ∧
    SampleMatcher.match_samples_scheduling samples =
      MultiThreaded (8 * m) (np.range 0 m) ∧
    length (np.range 0 m) = Z.to_nat m)).
Proof.
  simpl. unfold AncestorMatcher.match_ancestors_scheduling,
    SampleMatcher.match_samples_scheduling, Matcher.scheduling_of.
  split; case_decide; [left|right|left|right];
    repeat split; try lia; rewrite range_length; f_equal; lia.
Qed.

(** C2 as stated fails: an ancestor matcher and a sample matcher configured
    with one thread create a queue of depth 8 and one worker thread. *)
Lemma one_thread_is_pooled :
  ∃ ancestors samples,
    AncestorMatcher.__init__ Example.uninit Example.input_file
      Example.ancestors_file None 1 = Ok ancestors ∧
    SampleMatcher.__init__ Example.uninit Example.input_file
      {| ts_nodes := [(1, 4)]%Z; ts_edges := []; ts_mutations := [] |} 1
      = Ok samples ∧
    Matcher.num_threads (AncestorMatcher.base ancestors) = 1%Z ∧
    Matcher.num_threads (SampleMatcher.base samples) = 1%Z ∧
    AncestorMatcher.match_ancestors_scheduling ancestors =
      MultiThreaded 8 [0%Z] ∧
    SampleMatcher.match_samples_scheduling samples = MultiThreaded 8 [0%Z] ∧
    AncestorMatcher.match_ancestors_scheduling ancestors ≠ SingleThreaded ∧
    SampleMatcher.match_samples_scheduling samples ≠ SingleThreaded.
Proof.
  evaluate_ok (AncestorMatcher.__init__ Example.uninit Example.input_file
                 Example.ancestors_file None 1) ancestors.
  evaluate_ok (SampleMatcher.__init__ Example.uninit Example.input_file
                 {| ts_nodes := [(1, 4)]%Z; ts_edges := [];
                    ts_mutations := [] |} 1) samples.
  exists ancestors, samples.
  do 2 (split; [vm_compute; reflexivity|]).
  do 4 (split; [reflexivity|]). split; discriminate.
Qed.

(** C4, at a state two worker threads can leave. The orchestrator has two
    threads; for the epoch of the ancestors 1 and 2 it queues the work items
    [(1, 1, a1)] and [(2, 2, a2)]; worker 1 takes the first and worker 0 the
    second. The merged buffer then starts with the edge of child 2, and the
    commit hands that edge to [add_path] for node 1, calls [add_path] for
    node 2 with no edge, and never commits the edge whose child is 1. The
    single-threaded run of the same epoch commits each node's own edge. *)
Theorem commit_takes_first_child_for_first_node :
  ∃ st queued s1 s2 er st' seq_st seq_st',
    __init__ Example.uninit Example.input_file Example.ancestors_file None 2
      = Ok st ∧
    epoch_dispatch 1 st =
      (Ok [(1, 1, [1; 0; 0]%Z); (2, 2, [255; 1; 0]%Z)], queued) ∧
    __ancestor_find_path Example.find_path 1 1 [1; 0; 0]%Z 1 queued
      = (Ok [0; 0; 0]%Z, s1) ∧
    __ancestor_find_path Example.find_path 2 2 [255; 1; 0]%Z 0 s1
      = (Ok [255; 0; 0]%Z, s2) ∧
    ResultBuffer.combine Example.uninit (Matcher.results (base s2))
      = (Ok er, Matcher.results (base s2)) ∧
    ResultBuffer.child er = [2; 1]%Z ∧
    ResultBuffer.left er = [1; 0]%Z ∧
    np.take_indices (ResultBuffer.left er)
      (np.where_eq (ResultBuffer.child er) 1) = Ok [0%Z] ∧
    __complete_epoch Example.uninit 1 s2 = (Ok tt, st') ∧
    TreeSequenceBuilder.calls (tree_sequence_builder st') =
      [TreeSequenceBuilder.AddNode 4 0;
       TreeSequenceBuilder.AddNode 3 1;
       TreeSequenceBuilder.AddPath 1 [1%Z] [3%Z] [0%Z];
       TreeSequenceBuilder.AddNode 3 2;
       TreeSequenceBuilder.AddPath 2 [] [] [];
       TreeSequenceBuilder.AddMutations [1; 0]%Z [2; 1]%Z [1; 1]%Z] ∧
    TreeSequenceBuilder.edges (tree_sequence_builder st') =
      [(1, 3, 0, 1)%Z] ∧
    __init__ Example.uninit Example.input_file Example.ancestors_file None 0
      = Ok seq_st ∧
    match_epoch_single_threaded Example.uninit Example.find_path 1 seq_st
      = (Ok tt, seq_st') ∧
    TreeSequenceBuilder.edges (tree_sequence_builder seq_st') =
      [(0, 3, 0, 1); (1, 3, 0, 2)]%Z.
Proof.
  evaluate_ok (__init__ Example.uninit Example.input_file
                 Example.ancestors_file None 2) st.
  evaluate_ok (epoch_dispatch 1 st) queued.
  evaluate_ok (__ancestor_find_path Example.find_path 1 1 [1; 0; 0]%Z 1
                 queued) s1.
  evaluate_ok (__ancestor_find_path Example.find_path 2 2 [255; 1; 0]%Z 0
                 s1) s2.
  evaluate_ok (outcome (ResultBuffer.combine Example.uninit)
                 (Matcher.results (base s2))) er.
  evaluate_ok (__complete_epoch Example.uninit 1 s2) st'.
  evaluate_ok (__init__ Example.uninit Example.input_file
                 Example.ancestors_file None 0) seq_st.
  evaluate_ok (match_epoch_single_threaded Example.uninit Example.find_path 1
                 seq_st) seq_st'.
  exists st, queued, s1, s2, er, st', seq_st, seq_st'.
  repeat (split; [vm_compute; reflexivity|]). vm_compute; reflexivity.
Qed.

(** C7, at a checkpoint of a run with one thread over ancestors whose times
    are 5, 4 and 3. The run starts at epoch 1; after the commit of epoch 1
    the builder holds two nodes and the checkpoint is written; the run goes
    on to queue ancestor 2 for node 2. Resumed from that checkpoint, the
    constructor computes [3 - 3 + 1 = 1] as the starting epoch, while the
    iterator starts at ancestor 2: epoch 1 is run again, ancestor 1 is
    queued with the haplotype of ancestor 2, whose matching fails the
    assertion on the focal sites, and the queueing of epoch 2 finds the
    iterator exhausted. With times 4, 3 and 2 the same arithmetic gives
    epoch 2. *)
Theorem resume_recomputes_wrong_epoch :
  ∃ st queued s1 s2 checkpoint resumed requeued,
    __init__ Example.uninit Example.input_file Example.sparse_ancestors_file
      None 1 = Ok st ∧
    np.range (start_epoch st) (Z.of_nat (num_epochs st)) = [1; 2]%Z ∧
    epoch_dispatch 1 st = (Ok [(1, 1, [1; 0; 0]%Z)], queued) ∧
    __ancestor_find_path Example.find_path 1 1 [1; 0; 0]%Z 0 queued
      = (Ok [0; 0; 0]%Z, s1) ∧
    __complete_epoch Example.uninit 1 s1 = (Ok tt, s2) ∧
    store_output s2 = (Ok checkpoint, s2) ∧
    ts_num_samples checkpoint = 2 ∧
    outcome (epoch_dispatch 2) s2 = Ok [(2, 2, [0; 1; 0]%Z)] ∧
    __init__ Example.uninit Example.input_file Example.sparse_ancestors_file
      (Some checkpoint) 1 = Ok resumed ∧
    tree_sequence_builder_tables resumed = tree_sequence_builder_tables s2 ∧
    start_epoch resumed = 1%Z ∧
    np.range (start_epoch resumed) (Z.of_nat (num_epochs resumed))
      = [1; 2]%Z ∧
    epoch_dispatch 1 resumed = (Ok [(1, 2, [0; 1; 0]%Z)], requeued) ∧
    outcome (__ancestor_find_path Example.find_path 1 2 [0; 1; 0]%Z 0)
      requeued = Raise AssertionError ∧
    outcome (epoch_dispatch 2) requeued = Raise StopIteration ∧
    (∃ dense,
       __init__ Example.uninit Example.input_file
         {| file_num_ancestors := 3; file_time := [4; 3; 2]%Z;
            file_focal_sites := [[]; [0]; [1]];
            file_start := [0; 0; 0]; file_end := [3; 3; 3];
            file_ancestor_haplotypes :=
              [[0; 0; 0]; [1; 0; 0]; [0; 1; 0]]%Z |}
         (Some checkpoint) 1 = Ok dense ∧
       start_epoch dense = 2%Z).
Proof.
  evaluate_ok (__init__ Example.uninit Example.input_file
                 Example.sparse_ancestors_file None 1) st.
  evaluate_ok (epoch_dispatch 1 st) queued.
  evaluate_ok (__ancestor_find_path Example.find_path 1 1 [1; 0; 0]%Z 0
                 queued) s1.
  evaluate_ok (__complete_epoch Example.uninit 1 s1) s2.
  evaluate_ok (outcome store_output s2) checkpoint.
  evaluate_ok (__init__ Example.uninit Example.input_file
                 Example.sparse_ancestors_file (Some checkpoint) 1) resumed.
  evaluate_ok (epoch_dispatch 1 resumed) requeued.
  exists st, queued, s1, s2, checkpoint, resumed, requeued.
  repeat (split; [vm_compute; reflexivity|]).
  eexists. split; vm_compute; reflexivity.
Qed.

End AncestorFacts.

(** ** The commit and the worker calls *)

Module CommitFacts.
Import ResultBuffer BufferSpec BufferFacts CommitSpec.

Lemma take_where_eq c : ∀ ch col pre_col pre_ch,
  length pre_col = length pre_ch → length col = length ch →
  np.take_indices (pre_col ++ col)
    (filter (λ i, (pre_ch ++ ch) !! i = Some c)
       (seq (length pre_ch) (length ch)))
  = Ok (column_of_child col ch c).
Proof.
  induction ch as [|x ch IH]; intros col pre_col pre_ch Hpre Hlen.
  - by destruct col.
  - destruct col as [|y col]; [done|]. simpl in Hlen.
    cbn [length seq]. rewrite filter_cons.
    assert (np.take_indices (pre_col ++ y :: col)
              (filter (λ i, (pre_ch ++ x :: ch) !! i = Some c)
                 (seq (S (length pre_ch)) (length ch)))
            = Ok (column_of_child col ch c)) as Htail.
    { specialize (IH col (pre_col ++ [y]) (pre_ch ++ [x])).
      rewrite <- !app_assoc, !length_app in IH. simpl in IH.
      replace (length pre_ch + 1) with (S (length pre_ch)) in IH by lia.
      apply IH; lia. }
    unfold column_of_child. cbn [zip zip_with]. rewrite filter_cons.
    rewrite list_lookup_middle by done. simpl.
    destruct (decide (x = c)) as [->|Hne].
    + rewrite decide_True by done. cbn [np.take_indices].
      rewrite list_lookup_middle by done. rewrite Htail. done.
    + rewrite decide_False by congruence. exact Htail.
Qed.

Lemma take_indices_where_eq col ch c :
  length col = length ch →
  np.take_indices col (np.where_eq ch c) = Ok (column_of_child col ch c).
Proof.
  intros Hlen. apply (take_where_eq c ch col [] []); done.
Qed.

Lemma for_singleton {S A} (x : A) (body : A → M S unit) s :
  for_ [x] body s = body x s.
Proof.
  simpl. rewrite bind_run. by destruct (body x s) as [[[]|e] s'].
Qed.

Section Commit.
Import Matcher.

Lemma commit_body_run time er c0 j s :
  wf er → child er !! 0 = Some c0 →
  ∃ s',
    (c0 ← lift (np.index (ResultBuffer.child er) 0);
     let c := (c0 + Z.of_nat j)%Z in
     let index := np.where_eq (ResultBuffer.child er) c in
     node_id ← on_builder (TreeSequenceBuilder.add_node time);
     left ← lift (np.take_indices (ResultBuffer.left er) index);
     right ← lift (np.take_indices (ResultBuffer.right er) index);
     parent ← lift (np.take_indices (ResultBuffer.parent er) index);
     on_builder (TreeSequenceBuilder.add_path node_id (reverse left)
                   (reverse right) (reverse parent))) s = (Ok tt, s') ∧
    TreeSequenceBuilder.calls (tree_sequence_builder s') =
      TreeSequenceBuilder.calls (tree_sequence_builder s) ++
      (let c := (c0 + Z.of_nat j)%Z in
       let n := TreeSequenceBuilder.num_nodes (tree_sequence_builder s) in
       [TreeSequenceBuilder.AddNode time n;
        TreeSequenceBuilder.AddPath n
          (reverse (column_of_child (left er) (child er) c))
          (reverse (column_of_child (right er) (child er) c))
          (reverse (column_of_child (parent er) (child er) c))]) ∧
    TreeSequenceBuilder.num_nodes (tree_sequence_builder s') =
      TreeSequenceBuilder.num_nodes (tree_sequence_builder s) + 1 ∧
    TreeSequenceBuilder.mutations (tree_sequence_builder s') =
      TreeSequenceBuilder.mutations (tree_sequence_builder s) ∧
    results s' = results s ∧ match_ s' = match_ s.
Proof.
  intros Hwf Hc0.
  destruct (views_lengths er Hwf) as (Hl & Hr & Hp & Hc & _).
  eexists. split.
  { rewrite bind_run. unfold lift at 1, np.index. rewrite Hc0.
    cbv zeta. rewrite bind_run.
    unfold on_builder at 1, zoom, TreeSequenceBuilder.add_node.
    rewrite !bind_run. unfold get, put. cbn [fst snd].
    rewrite bind_run. unfold mret, M_MRet, M_ret.
    rewrite bind_run. unfold lift at 1.
    rewrite take_indices_where_eq by congruence.
    rewrite bind_run. unfold lift at 1.
    rewrite take_indices_where_eq by congruence.
    rewrite bind_run. unfold lift at 1.
    rewrite take_indices_where_eq by congruence.
    unfold on_builder, zoom, TreeSequenceBuilder.add_path.
    rewrite bind_run. unfold get, put. reflexivity. }
  simpl. rewrite <- app_assoc. simpl.
  unfold TreeSequenceBuilder.num_nodes. simpl. rewrite length_app. simpl.
  done.
Qed.

Lemma commit_loop_run time er c0 n s :
  wf er → child er !! 0 = Some c0 →
  ∃ s',
    for_ (seq 0 n) (λ j,
      c0 ← lift (np.index (ResultBuffer.child er) 0);
      let c := (c0 + Z.of_nat j)%Z in
      let index := np.where_eq (ResultBuffer.child er) c in
      node_id ← on_builder (TreeSequenceBuilder.add_node time);
      left ← lift (np.take_indices (ResultBuffer.left er) index);
      right ← lift (np.take_indices (ResultBuffer.right er) index);
      parent ← lift (np.take_indices (ResultBuffer.parent er) index);
      on_builder (TreeSequenceBuilder.add_path node_id (reverse left)
                    (reverse right) (reverse parent))) s = (Ok tt, s') ∧
    TreeSequenceBuilder.calls (tree_sequence_builder s') =
      TreeSequenceBuilder.calls (tree_sequence_builder s) ++
      flat_map (λ j,
        let c := (c0 + Z.of_nat j)%Z in
        let first_id :=
          TreeSequenceBuilder.num_nodes (tree_sequence_builder s) in
        [TreeSequenceBuilder.AddNode time (first_id + j);
         TreeSequenceBuilder.AddPath (first_id + j)
           (reverse (column_of_child (left er) (child er) c))
           (reverse (column_of_child (right er) (child er) c))
           (reverse (column_of_child (parent er) (child er) c))]) (seq 0 n) ∧
    TreeSequenceBuilder.num_nodes (tree_sequence_builder s') =
      TreeSequenceBuilder.num_nodes (tree_sequence_builder s) + n ∧
    TreeSequenceBuilder.mutations (tree_sequence_builder s') =
      TreeSequenceBuilder.mutations (tree_sequence_builder s) ∧
    results s' = results s ∧ match_ s' = match_ s.
Proof.
  intros Hwf Hc0. induction n as [|n IH].
  - exists s. split; [done|]. simpl. rewrite app_nil_r.
    split; [done|]. split; [lia|done].
  - destruct IH as (s1 & Hrun1 & Hcalls1 & Hn1 & Hm1 & Hr1 & Hx1).
    destruct (commit_body_run time er c0 n s1 Hwf Hc0)
      as (s2 & Hrun2 & Hcalls2 & Hn2 & Hm2 & Hr2 & Hx2).
    exists s2. split.
    { rewrite seq_S, for_app, bind_run, Hrun1. change (0 + n) with n.
      rewrite for_singleton, Hrun2. done. }
    split.
    { rewrite Hcalls2, Hcalls1, seq_S, flat_map_app, Hn1. simpl.
      by rewrite <- !app_assoc. }
    split; [lia|]. split; [congruence|]. split; congruence.
Qed.

End Commit.

Section CommitProtocol.
Import Matcher.

Lemma commit_run_some n time er s c0 :
  wf er → child er !! 0 = Some c0 →
  ∃ s', commit n time er s = (Ok tt, s') ∧
    TreeSequenceBuilder.calls (tree_sequence_builder s') =
      TreeSequenceBuilder.calls (tree_sequence_builder s) ++
      commit_calls
        (TreeSequenceBuilder.num_nodes (tree_sequence_builder s))
        c0 n time er ∧
    results s' = results s ∧ match_ s' = match_ s.
Proof.
  intros Hwf Hc0.
  destruct (commit_loop_run time er c0 n s Hwf Hc0)
    as (s1 & Hrun1 & Hcalls1 & Hn1 & Hm1 & Hr1 & Hx1).
  eexists. split.
  { unfold commit. cbv zeta in Hrun1. rewrite bind_run, Hrun1.
    unfold on_builder, zoom, TreeSequenceBuilder.add_mutations.
    rewrite bind_run. unfold get, put. reflexivity. }
  simpl. rewrite Hcalls1, <- app_assoc. done.
Qed.

(** The commit of [n] nodes, for merged records that satisfy the invariant
    of their buffer. With at least one edge record, whose child is [c0], it
    returns, and the builder has received, in this order, for each
    [j < n] one [add_node(time)], which returned the next node id, followed
    by one [add_path] for that id with the records whose child is [c0 + j],
    last record first, and then one [add_mutations] with all the mutation
    records. With no node to add it returns after that one [add_mutations].
    With a node to add and no edge record at all, [results.child[0]] raises
    [IndexError] before any call on the builder, so that the mutation
    records are not committed either. The buffers and the scratch arrays
    are left as they were. *)
Theorem commit_protocol n time er s :
  wf er →
  (∀ c0, child er !! 0 = Some c0 →
     ∃ s', commit n time er s = (Ok tt, s') ∧
       TreeSequenceBuilder.calls (tree_sequence_builder s') =
         TreeSequenceBuilder.calls (tree_sequence_builder s) ++
         commit_calls
           (TreeSequenceBuilder.num_nodes (tree_sequence_builder s))
           c0 n time er ∧
       results s' = results s ∧ match_ s' = match_ s) ∧
  (child er = [] → n = 0 →
     ∃ s', commit n time er s = (Ok tt, s') ∧
       TreeSequenceBuilder.calls (tree_sequence_builder s') =
         TreeSequenceBuilder.calls (tree_sequence_builder s) ++
         [TreeSequenceBuilder.AddMutations (site er) (node er)
            (derived_state er)] ∧
       results s' = results s ∧ match_ s' = match_ s) ∧
  (child er = [] → 0 < n → commit n time er s = (Raise IndexError, s)).
Proof.
  intros Hwf. split; [|split].
  - intros c0 Hc0. by apply commit_run_some.
  - intros Hnil ->. eexists. split.
    { unfold commit. simpl. rewrite bind_run. unfold mret at 1, M_MRet, M_ret.
      unfold on_builder, zoom, TreeSequenceBuilder.add_mutations.
      rewrite bind_run. unfold get, put. reflexivity. }
    simpl. done.
  - intros Hnil Hn. destruct n as [|n]; [lia|].
    unfold commit. cbn [seq for_]. rewrite !bind_run.
    unfold lift at 1, np.index. rewrite Hnil. done.
Qed.

Lemma commit_protocol_witness :
  ∃ er s s',
    wf er ∧ child er !! 0 = Some 0%Z ∧
    commit 2 3 er s = (Ok tt, s') ∧
    TreeSequenceBuilder.calls (tree_sequence_builder s') =
      [TreeSequenceBuilder.AddNode 3 0;
       TreeSequenceBuilder.AddPath 0 [5; 0]%Z [9; 2]%Z [8; 7]%Z;
       TreeSequenceBuilder.AddNode 3 1;
       TreeSequenceBuilder.AddPath 1 [2]%Z [5]%Z [7]%Z;
       TreeSequenceBuilder.AddMutations [4]%Z [1]%Z [1]%Z].
Proof.
  evaluate_ok (ResultBuffer.__init__ Example.uninit 2) b.
  pose (qs := [AddEdges [0; 2; 5]%Z [2; 5; 9]%Z [7; 7; 8]%Z
                 (np.Array [0; 1; 0]%Z);
               AddMutations [4]%Z (np.Scalar 1) None]).
  evaluate_ok (for_ qs perform b) er.
  evaluate_ok (Matcher.__init__ Example.uninit Example.input_file 0) s.
  assert (wf er) as Hwf.
  { apply (perform_all_run qs b er); [|reflexivity].
    destruct (init_run Example.uninit 2) as (b0 & Hb0 & Hwf0 & _); [lia|].
    vm_compute in Hb0. injection Hb0 as <-. exact Hwf0. }
  destruct (commit_protocol 2 3 er s Hwf) as [Hsome _].
  destruct (Hsome 0%Z) as (s' & Hrun & Hcalls & _); [reflexivity|].
  exists er, s, s'. do 3 (split; [done|]).
  rewrite Hcalls. vm_compute. reflexivity.
Defined.

End CommitProtocol.

Section Clearing.
Import Matcher AncestorMatcher.

Lemma insert_cleared {A} (f : A → A) (l : list A) k x :
  l !! k = Some x →
  <[k := f x]> ((f <$> take k l) ++ drop k l)
  = (f <$> take (S k) l) ++ drop (S k) l.
Proof.
  intros Hk.
  rewrite (take_S_r l k x) by done. rewrite fmap_app. simpl.
  rewrite (drop_S l x k) by done.
  rewrite insert_app_r_alt by (rewrite length_fmap, length_take; lia).
  rewrite length_fmap, length_take.
  apply lookup_lt_Some in Hk.
  replace (k - k `min` length l) with 0 by lia. simpl.
  by rewrite <- app_assoc.
Qed.

Lemma clear_one_run k x st :
  results (base st) !! k = Some x →
  on_base (on_results k ResultBuffer.clear) st =
  (Ok tt,
   set_base (set_results (<[k := exec ResultBuffer.clear x]>
                            (results (base st))) (base st)) st).
Proof.
  intros Hx. unfold on_base, on_results, zoom, zoom_index. by rewrite Hx.
Qed.

Lemma clear_some_run k st :
  k ≤ length (results (base st)) →
  for_ (seq 0 k) (λ i, on_base (on_results i ResultBuffer.clear)) st =
  (Ok tt,
   set_base (set_results
               (((λ b, exec ResultBuffer.clear b) <$>
                   take k (results (base st))) ++ drop k (results (base st)))
               (base st)) st).
Proof.
  induction k as [|k IH]; intros Hk.
  - simpl. rewrite drop_0. by destruct st as [[]].
  - rewrite seq_S, for_app, bind_run, IH by lia. change (0 + k) with k.
    rewrite for_singleton.
    destruct (lookup_lt_is_Some_2 (results (base st)) k) as [x Hx]; [lia|].
    rewrite (clear_one_run k x).
    + simpl. by rewrite (insert_cleared _ _ k x Hx).
    + simpl. rewrite lookup_app_r by (rewrite length_fmap, length_take; lia).
      rewrite length_fmap, length_take.
      replace (k - k `min` length (results (base st))) with 0 by lia.
      by rewrite lookup_drop, Nat.add_0_r.
Qed.

(** When [__complete_epoch] returns, every per-thread buffer is the buffer
    it was with [clear()] applied: it holds no record, and its capacities
    are the ones it had. The scratch arrays are as they were. *)
Theorem complete_epoch_clears uninit j st st' :
  __complete_epoch uninit j st = (Ok tt, st') →
  results (base st') =
    (λ b, exec ResultBuffer.clear b) <$> results (base st) ∧
  Forall (λ b, views b = no_columns) (results (base st')) ∧
  max_edges <$> results (base st') = max_edges <$> results (base st) ∧
  max_mutations <$> results (base st')
    = max_mutations <$> results (base st) ∧
  match_ (base st') = match_ (base st).
Proof.
  intros Hrun. unfold __complete_epoch in Hrun.
  apply bind_ok in Hrun as (self & s0 & [= <- <-] & Hrun).
  apply bind_ok in Hrun as ([s e] & s0 & [Hse ->]%lift_ok & Hrun).
  apply bind_ok in Hrun as (time & s0 & [_ ->]%lift_ok & Hrun).
  apply bind_ok in Hrun as (er & st1 & Hcomb & Hrun).
  apply bind_ok in Hrun as ([] & st2 & Hcommit & Hrun).
  apply bind_ok in Hrun as (self' & s0 & [= <- <-] & Hrun).
  assert (results (base st1) = results (base st) ∧
          match_ (base st1) = match_ (base st)) as [Hr1 Hm1].
  { apply zoom_run in Hcomb as (b1 & Hcomb & ->).
    apply zoom_run in Hcomb as (l1 & Hcomb & ->). simpl.
    split; [|done].
    assert (stable (λ l l' : list ResultBuffer.t, l' = l)
              (ResultBuffer.combine uninit)) as Hst.
    { unfold ResultBuffer.combine.
      assert (Reflexive (λ l l' : list ResultBuffer.t, l' = l)) by done.
      assert (Transitive (λ l l' : list ResultBuffer.t, l' = l))
        by (intros ? ? ? ? ?; congruence).
      apply stable_bind; [done|by apply stable_get|intros bufs].
      apply stable_bind; [done|by apply stable_lift|intros c].
      apply stable_for_acc; [done..|intros b acc].
      apply stable_bind; [done| |intros [[] acc1]].
      { intros l. unfold call_on. by destruct (add_edges _ _ _ _ _) as [[]]. }
      apply stable_bind; [done| |intros [[] acc2]; by apply stable_ret].
      intros l. unfold call_on. by destruct (add_mutations _ _ _ _) as [[]]. }
    apply (stable_run _ _ _ _ _ Hst Hcomb). }
  assert (results (base st2) = results (base st1) ∧
          match_ (base st2) = match_ (base st1)) as [Hr2 Hm2].
  { apply zoom_run in Hcommit as (b2 & Hcommit & ->). simpl.
    apply MatcherFacts.commit_ok in Hcommit as (_ & _ & ? & ?). done. }
  rewrite clear_some_run in Hrun by done. injection Hrun as <-. simpl.
  rewrite firstn_all, drop_all, app_nil_r, Hr2, Hr1, Hm2, Hm1.
  split; [done|]. split.
  { apply Forall_fmap, Forall_true. intros b. done. }
  rewrite <- !list_fmap_compose. done.
Qed.

Lemma complete_epoch_clears_witness :
  ∃ st sa st',
    __init__ Example.uninit Example.input_file Example.ancestors_file None 0
      = Ok st ∧
    __ancestor_find_path Example.find_path 1 1 [1; 0; 0]%Z 0 st
      = (Ok [0; 0; 0]%Z, sa) ∧
    __complete_epoch Example.uninit 1 sa = (Ok tt, st') ∧
    num_edges <$> results (base sa) = [1] ∧
    num_edges <$> results (base st') = [0] ∧
    num_mutations <$> results (base sa) = [1] ∧
    num_mutations <$> results (base st') = [0] ∧
    max_edges <$> results (base st') = [1024].
Proof.
  evaluate_ok (__init__ Example.uninit Example.input_file
                 Example.ancestors_file None 0) st.
  evaluate_ok (__ancestor_find_path Example.find_path 1 1 [1; 0; 0]%Z 0 st)
              sa.
  evaluate_ok (__complete_epoch Example.uninit 1 sa) st'.
  exists st, sa, st'.
  assert (__complete_epoch Example.uninit 1 sa = (Ok tt, st')) as Hrun
    by (vm_compute; reflexivity).
  destruct (complete_epoch_clears Example.uninit 1 sa st' Hrun)
    as (Hres & _ & Hmax & _).
  split; [vm_compute; reflexivity|]. split; [vm_compute; reflexivity|].
  split; [exact Hrun|]. split; [vm_compute; reflexivity|].
  split; [rewrite Hres; vm_compute; reflexivity|].
  split; [vm_compute; reflexivity|].
  split; [rewrite Hres; vm_compute; reflexivity|].
  rewrite Hmax. vm_compute. reflexivity.
Defined.

End Clearing.

End CommitFacts.

Module IsolationFacts.
Import ResultBuffer BufferSpec BufferFacts IsolationSpec Matcher.

#[global] Instance thread_local_refl ti : Reflexive (thread_local ti).
Proof. intros s. unfold thread_local. naive_solver. Qed.

#[global] Instance thread_local_trans ti : Transitive (thread_local ti).
Proof.
  intros s1 s2 s3 (? & ? & ? & ? & ? & ? & H12) (? & ? & ? & ? & ? & ? & H23).
  unfold thread_local. do 6 (split; [congruence|]).
  intros tj Hne. destruct (H12 tj Hne), (H23 tj Hne). split; congruence.
Qed.

#[global] Instance ancestor_thread_local_refl ti :
  Reflexive (ancestor_thread_local ti).
Proof. intros s. split; [by destruct s|reflexivity]. Qed.

#[global] Instance ancestor_thread_local_trans ti :
  Transitive (ancestor_thread_local ti).
Proof.
  intros s1 s2 s3 [E12 H12] [E23 H23]. split; [|by etrans].
  transitivity (AncestorMatcher.set_base (AncestorMatcher.base s1)
                  (AncestorMatcher.set_base (AncestorMatcher.base s2) s3));
    [reflexivity|]. by rewrite E23.
Qed.

#[global] Instance sample_thread_local_refl ti :
  Reflexive (sample_thread_local ti).
Proof. intros s. split; [by destruct s|reflexivity]. Qed.

#[global] Instance sample_thread_local_trans ti :
  Transitive (sample_thread_local ti).
Proof.
  intros s1 s2 s3 [E12 H12] [E23 H23]. split; [|by etrans].
  transitivity (SampleMatcher.set_base (SampleMatcher.base s1)
                  (SampleMatcher.set_base (SampleMatcher.base s2) s3));
    [reflexivity|]. by rewrite E23.
Qed.

Lemma on_results_thread_local {A} ti (m : M ResultBuffer.t A) :
  stable (thread_local ti) (on_results ti m).
Proof.
  intros s. unfold on_results, zoom, zoom_index.
  destruct (results s !! ti) as [o|] eqn:Ho; [|by destruct s].
  destruct (m o) as [r o']. destruct s. unfold thread_local. simpl in *.
  do 4 (split; [done|]). split; [by rewrite length_insert|]. split; [done|].
  intros tj Hne. by rewrite list_lookup_insert_ne.
Qed.

Section Collaborators.
Context (find_path : TreeSequenceBuilder.t → list Z → nat → nat →
                     result (list Z * list Z * list Z * list Z)).

Lemma set_match_thread_local ti m s :
  thread_local ti s (set_match (<[ti := m]> (match_ s)) s).
Proof.
  destruct s. unfold thread_local. simpl.
  do 5 (split; [done|]). split; [by rewrite length_insert|].
  intros tj Hne. by rewrite list_lookup_insert_ne.
Qed.

Lemma find_path_thread_local child_id h s e ti :
  stable (thread_local ti) (_find_path find_path child_id h s e ti).
Proof.
  intros st. unfold _find_path. rewrite bind_run. unfold get at 1.
  rewrite bind_run. unfold lift at 1.
  destruct (np.item (results st) _) as [x|]; [|simpl; reflexivity].
  rewrite bind_run. unfold lift at 1.
  destruct (np.item (match_ st) _) as [y|]; [|simpl; reflexivity].
  rewrite bind_run. unfold lift at 1.
  destruct (find_path _ _ _ _) as [[[[l r] p] m]|]; [|simpl; reflexivity].
  rewrite bind_run. unfold modify at 1. rewrite bind_run.
  pose proof (on_results_thread_local ti
                (add_edges l r p (np.Scalar (Z.of_nat child_id)))
                (set_match (<[ti := m]> (match_ st)) st)) as Hres.
  destruct (on_results ti _ _) as [[[]|] st']; simpl in *;
    (etrans; [apply set_match_thread_local|exact Hres]).
Qed.

End Collaborators.

Section Collaborators.
Context (find_path : TreeSequenceBuilder.t → list Z → nat → nat →
                     result (list Z * list Z * list Z * list Z)).

Lemma ancestor_on_base {A} ti (m : M Matcher.t A) :
  stable (thread_local ti) m →
  stable (ancestor_thread_local ti) (AncestorMatcher.on_base m).
Proof.
  intros Hm. unfold AncestorMatcher.on_base.
  apply stable_zoom with (R' := thread_local ti); [done|].
  intros s b' Hb'. split; [by destruct s|done].
Qed.

Lemma sample_on_base {A} ti (m : M Matcher.t A) :
  stable (thread_local ti) m →
  stable (sample_thread_local ti) (SampleMatcher.on_base m).
Proof.
  intros Hm. unfold SampleMatcher.on_base.
  apply stable_zoom with (R' := thread_local ti); [done|].
  intros s b' Hb'. split; [by destruct s|done].
Qed.

Lemma ancestor_find_path_thread_local ti aid nid h :
  stable (ancestor_thread_local ti)
    (AncestorMatcher.__ancestor_find_path find_path aid nid h ti).
Proof.
  unfold AncestorMatcher.__ancestor_find_path.
  apply stable_bind; [apply _|apply stable_get; apply _|intros self].
  apply stable_bind; [apply _|apply stable_lift; apply _|intros focal].
  apply stable_bind; [apply _|apply stable_lift; apply _|intros st].
  apply stable_bind; [apply _|apply stable_lift; apply _|intros en].
  apply stable_bind; [apply _| |intros _].
  { apply ancestor_on_base, on_results_thread_local. }
  apply stable_bind; [apply _|apply stable_assert; apply _|intros _].
  apply stable_bind; [apply _|apply stable_assert; apply _|intros _].
  apply stable_bind; [apply _|apply stable_lift; apply _|intros at_focal].
  apply stable_bind; [apply _|apply stable_assert; apply _|intros _].
  apply stable_bind; [apply _| |intros _].
  { apply ancestor_on_base, find_path_thread_local. }
  apply stable_bind; [apply _|apply stable_lift; apply _|intros h'].
  apply stable_bind; [apply _|apply stable_get; apply _|intros self'].
  apply stable_bind; [apply _|apply stable_lift; apply _|intros m].
  apply stable_bind; [apply _|apply stable_assert; apply _|intros _].
  apply stable_ret; apply _.
Qed.

Lemma process_sample_thread_local ti sid h :
  stable (sample_thread_local ti)
    (SampleMatcher.__process_sample find_path sid h ti).
Proof.
  unfold SampleMatcher.__process_sample.
  apply stable_bind; [apply _|apply stable_get; apply _|intros self].
  apply stable_bind; [apply _| |intros _].
  { apply sample_on_base, find_path_thread_local. }
  apply stable_bind; [apply _|apply stable_get; apply _|intros self'].
  apply stable_bind; [apply _|apply stable_lift; apply _|intros m].
  apply stable_bind; [apply _|apply stable_lift; apply _|intros ds].
  apply sample_on_base, on_results_thread_local.
Qed.


End Collaborators.

End IsolationFacts.

(** ** A single-threaded run of the ancestor scheduler *)

Module RunFacts.
Import BufferSpec BuilderSpec MatcherSpec AncestorSpec RunSpec.
Import BufferFacts EpochFacts BuilderFacts MatcherFacts AncestorFacts.
Import AncestorMatcher.

Lemma slices_first epoch n :
  ∃ e0, epoch_slices_of epoch n !! 0 = Some (0, e0).
Proof.
  destruct (lookup_lt_is_Some_2 (posts epoch n) 1) as [e0 He0].
  { rewrite posts_length. lia. }
  exists e0. apply slices_posts. split; [apply posts_first|done].
Qed.

Lemma init_fresh uninit input_file ancestors_file num_threads :
  match file_time ancestors_file with
  | [] =>
      __init__ uninit input_file ancestors_file None num_threads
      = Raise IndexError
  | t0 :: _ =>
      ∃ st,
        __init__ uninit input_file ancestors_file None num_threads = Ok st ∧
        epoch st = file_time ancestors_file ∧
        epoch_slices st =
          epoch_slices_of (file_time ancestors_file)
            (file_num_ancestors ancestors_file) ∧
        num_epochs st = length (epoch_slices st) ∧
        start_epoch st = 1%Z ∧
        haplotypes st = drop 1 (file_ancestor_haplotypes ancestors_file) ∧
        TreeSequenceBuilder.calls (tree_sequence_builder st) =
          [TreeSequenceBuilder.AddNode t0 0] ∧
        TreeSequenceBuilder.num_nodes (tree_sequence_builder st) = 1 ∧
        length (Matcher.results (base st)) = Z.to_nat (Z.max 1 num_threads) ∧
        Forall (λ b, views b = no_columns ∧
                     ResultBuffer.max_edges b = 1024 ∧
                     ResultBuffer.max_mutations b = 1024)
          (Matcher.results (base st)) ∧
        Matcher.match_ (base st) =
          replicate (Z.to_nat (Z.max 1 num_threads))
            (replicate (input_num_sites input_file) 0%Z)
  end.
Proof.
  unfold __init__, Matcher.__init__.
  destruct (init_run uninit 1024) as (b & -> & Hwf & Hviews & _ & He & Hm & _);
    [lia|].
  destruct (slices_first (file_time ancestors_file)
              (file_num_ancestors ancestors_file)) as [e0 He0].
  remember (epoch_slices_of (file_time ancestors_file)
              (file_num_ancestors ancestors_file)) as slices eqn:Hslices.
  clear Hslices.
  destruct (file_time ancestors_file) as [|t0 ts] eqn:Htime.
  - reflexivity.
  - eexists. split.
    { unfold init_body, __epoch_info_dict, on_base, Matcher.on_builder,
        TreeSequenceBuilder.add_node, np.item.
      munfold. simpl. change (Z.to_nat (1 - 1)) with 0. rewrite He0. simpl. reflexivity. }
    simpl. do 5 (split; [done|]). do 2 (split; [done|]).
    split; [by rewrite length_replicate|]. split; [|done].
    apply Forall_replicate. done.
Qed.

(** The constructor, for a build that is not resumed. Over an ancestor file
    with no ancestor it raises [IndexError], at [self.epoch[0]]. Otherwise
    it returns a scheduler that starts at epoch 1, whose builder has
    received one call, [add_node] with the time of ancestor 0, whose
    haplotype iterator stands at ancestor 1, and which has
    [max(1, num_threads)] empty buffers of capacity 1024 and as many scratch
    arrays of [num_sites] zeros. *)
Theorem ancestor_matcher_new uninit input_file ancestors_file num_threads :
  match file_time ancestors_file with
  | [] =>
      __init__ uninit input_file ancestors_file None num_threads
      = Raise IndexError
  | t0 :: _ =>
      ∃ st,
        __init__ uninit input_file ancestors_file None num_threads = Ok st ∧
        epoch st = file_time ancestors_file ∧
        epoch_slices st =
          epoch_slices_of (file_time ancestors_file)
            (file_num_ancestors ancestors_file) ∧
        num_epochs st = length (epoch_slices st) ∧
        start_epoch st = 1%Z ∧
        haplotypes st = drop 1 (file_ancestor_haplotypes ancestors_file) ∧
        TreeSequenceBuilder.calls (tree_sequence_builder st) =
          [TreeSequenceBuilder.AddNode t0 0] ∧
        TreeSequenceBuilder.num_nodes (tree_sequence_builder st) = 1 ∧
        length (Matcher.results (base st)) = Z.to_nat (Z.max 1 num_threads) ∧
        Forall (λ b, views b = no_columns ∧
                     ResultBuffer.max_edges b = 1024 ∧
                     ResultBuffer.max_mutations b = 1024)
          (Matcher.results (base st)) ∧
        Matcher.match_ (base st) =
          replicate (Z.to_nat (Z.max 1 num_threads))
            (replicate (input_num_sites input_file) 0%Z)
  end.
Proof. apply init_fresh. Qed.

#[global] Instance only_base_refl : Reflexive only_base.
Proof. intros s. by destruct s. Qed.

#[global] Instance only_base_trans : Transitive only_base.
Proof.
  intros s1 s2 s3 E12 E23. unfold only_base in *.
  transitivity (set_base (base s1) (set_base (base s2) s3)); [reflexivity|].
  by rewrite E23.
Qed.

Lemma on_base_only_base {A} (m : M Matcher.t A) : stable only_base (on_base m).
Proof.
  unfold on_base. apply stable_zoom with (R' := λ _ _, True); [done|].
  intros s b' _. by destruct s.
Qed.

Lemma only_base_fields s s' :
  only_base s s' →
  epoch s' = epoch s ∧ epoch_slices s' = epoch_slices s ∧
  num_epochs s' = num_epochs s ∧ haplotypes s' = haplotypes s ∧
  focal_sites s' = focal_sites s ∧ start s' = start s ∧ end_ s' = end_ s.
Proof. intros <-. by destruct s'. Qed.

Lemma add_node_times_app cs1 cs2 :
  add_node_times (cs1 ++ cs2) = add_node_times cs1 ++ add_node_times cs2.
Proof. apply omap_app. Qed.

Lemma commit_times n time er s s' :
  Matcher.commit n time er s = (Ok tt, s') →
  add_node_times (TreeSequenceBuilder.calls (Matcher.tree_sequence_builder s'))
  = add_node_times (TreeSequenceBuilder.calls (Matcher.tree_sequence_builder s))
    ++ replicate n time.
Proof.
  unfold Matcher.commit. intros Hrun.
  apply bind_ok in Hrun as ([] & s1 & Hloop & Hmut).
  assert (add_node_times
            (TreeSequenceBuilder.calls (Matcher.tree_sequence_builder s1))
          = add_node_times
              (TreeSequenceBuilder.calls (Matcher.tree_sequence_builder s))
            ++ replicate (length (seq 0 n)) time) as H1.
  { revert Hloop.
    apply (for_ok_steps
             (λ m s s',
                add_node_times
                  (TreeSequenceBuilder.calls (Matcher.tree_sequence_builder s'))
                = add_node_times
                    (TreeSequenceBuilder.calls (Matcher.tree_sequence_builder s))
                  ++ replicate m time)); clear.
    - intros s. simpl. by rewrite app_nil_r.
    - intros m1 m2 s1 s2 s3 H12 H23.
      by rewrite H23, H12, replicate_add, app_assoc.
    - intros j s s' Hrun.
      apply bind_ok in Hrun as (c0 & s0 & [_ ->]%lift_ok & Hrun).
      apply bind_ok in Hrun as (node_id & s1 & Hnode & Hrun).
      apply bind_ok in Hrun as (l & s2 & [_ ->]%lift_ok & Hrun).
      apply bind_ok in Hrun as (r & s3 & [_ ->]%lift_ok & Hrun).
      apply bind_ok in Hrun as (p & s4 & [_ ->]%lift_ok & Hrun).
      apply on_builder_run in Hnode as (b1 & Hnode & ->).
      apply on_builder_run in Hrun as (b2 & Hpath & ->).
      unfold TreeSequenceBuilder.add_node in Hnode.
      injection Hnode as <- <-.
      unfold TreeSequenceBuilder.add_path in Hpath.
      injection Hpath as <-. simpl.
      rewrite <- app_assoc, add_node_times_app. done. }
  rewrite length_seq in H1.
  apply on_builder_run in Hmut as (b2 & Hmut & ->).
  unfold TreeSequenceBuilder.add_mutations in Hmut. injection Hmut as <-.
  simpl. rewrite add_node_times_app, H1. simpl. by rewrite app_nil_r.
Qed.

Section Collaborators.
Context (uninit : nat → Z).
Context (find_path : TreeSequenceBuilder.t → list Z → nat → nat →
                     result (list Z * list Z * list Z * list Z)).

Lemma complete_epoch_only_base j : stable only_base (__complete_epoch uninit j).
Proof.
  unfold __complete_epoch.
  apply stable_bind; [apply _|apply stable_get; apply _|intros self].
  apply stable_bind; [apply _|apply stable_lift; apply _|intros [s e]].
  apply stable_bind; [apply _|apply stable_lift; apply _|intros time].
  apply stable_bind; [apply _|apply on_base_only_base|intros er].
  apply stable_bind; [apply _|apply on_base_only_base|intros _].
  apply stable_bind; [apply _|apply stable_get; apply _|intros self'].
  apply stable_for; [apply _|apply _|intros i]. apply on_base_only_base.
Qed.

Lemma complete_epoch_times j st st' :
  __complete_epoch uninit j st = (Ok tt, st') →
  ∃ s e time,
    np.item (epoch_slices st) j = Ok (s, e) ∧
    np.item (epoch st) (Z.of_nat s) = Ok time ∧
    add_node_times (TreeSequenceBuilder.calls (tree_sequence_builder st'))
    = add_node_times (TreeSequenceBuilder.calls (tree_sequence_builder st))
      ++ replicate (e - s) time.
Proof.
  intros Hrun. unfold __complete_epoch in Hrun.
  apply bind_ok in Hrun as (self & s0 & [= <- <-] & Hrun).
  apply bind_ok in Hrun as ([s e] & s0 & [Hse ->]%lift_ok & Hrun).
  apply bind_ok in Hrun as (time & s0 & [Htime ->]%lift_ok & Hrun).
  apply bind_ok in Hrun as (er & st1 & Hcomb & Hrun).
  apply bind_ok in Hrun as ([] & st2 & Hcommit & Hrun).
  apply bind_ok in Hrun as (self' & s0 & [= <- <-] & Hrun).
  exists s, e, time. do 2 (split; [done|]).
  apply zoom_run in Hcomb as (b1 & Hcomb & ->).
  pose proof (stable_run _ _ _ _ _ (combine_same_builder uninit) Hcomb) as Hb1.
  apply zoom_run in Hcommit as (b2 & Hcommit & ->).
  apply commit_times in Hcommit.
  pose proof (stable_run _ _ _ _ _ (clear_all_same_tsb _) Hrun) as Hsame.
  unfold same_tsb, same_builder, tree_sequence_builder in *. simpl in *.
  rewrite Hsame, Hcommit, Hb1. done.
Qed.

Lemma matching_loop_haplotypes xs : ∀ nid st nid' st1,
  for_acc xs nid (λ ancestor_id node_id,
    a ← next_haplotype;
    __ancestor_find_path find_path ancestor_id node_id a 0 ;;
    mret (node_id + 1)) st = (Ok nid', st1) →
  haplotypes st1 = drop (length xs) (haplotypes st) ∧
  length xs ≤ length (haplotypes st).
Proof.
  induction xs as [|x xs IH]; intros nid st nid' st1 Hrun; simpl in Hrun.
  - injection Hrun as <- <-. split; [done|simpl; lia].
  - apply bind_ok in Hrun as (nid1 & sb & Hbody & Hrest).
    apply bind_ok in Hbody as (a & sa & Hnext & Hbody).
    apply bind_ok in Hbody as (h' & sb' & Hafp & [= <- <-]).
    unfold next_haplotype in Hnext.
    apply bind_ok in Hnext as (self & s0 & [= <- <-] & Hnext).
    destruct (haplotypes st) as [|a0 rest] eqn:Hh; [done|].
    apply bind_ok in Hnext as ([] & s0 & [= <-] & [= <- <-]).
    pose proof (stable_run _ _ _ _ _
                  (IsolationFacts.ancestor_find_path_thread_local
                     find_path 0 x nid a0) Hafp) as [Hfields _].
    apply only_base_fields in Hfields as (_ & _ & _ & Hh' & _).
    destruct (IH _ _ _ _ Hrest) as [Hdrop Hlen].
    rewrite Hh' in Hdrop, Hlen. simpl in *. split; [done|lia].
Qed.

Lemma matching_loop_steady xs nid :
  stable steady
    (for_acc xs nid (λ ancestor_id node_id,
       a ← next_haplotype;
       __ancestor_find_path find_path ancestor_id node_id a 0 ;;
       mret (node_id + 1))).
Proof.
  apply stable_for_acc; [apply _|apply _|intros aid n].
  apply stable_bind; [apply _|apply next_haplotype_steady|intros a].
  apply stable_bind; [apply _| |intros _; apply stable_ret; apply _].
  apply ancestor_find_path_steady.
Qed.

Lemma match_epoch_run j st st' :
  match_epoch_single_threaded uninit find_path j st = (Ok tt, st') →
  ∃ s e time,
    np.item (epoch_slices st) j = Ok (s, e) ∧
    np.item (epoch st) (Z.of_nat s) = Ok time ∧
    add_node_times (TreeSequenceBuilder.calls (tree_sequence_builder st'))
    = add_node_times (TreeSequenceBuilder.calls (tree_sequence_builder st))
      ++ replicate (e - s) time ∧
    epoch st' = epoch st ∧ epoch_slices st' = epoch_slices st ∧
    num_epochs st' = num_epochs st ∧
    haplotypes st' = drop (e - s) (haplotypes st) ∧
    e - s ≤ length (haplotypes st).
Proof.
  intros Hrun. unfold match_epoch_single_threaded in Hrun.
  apply bind_ok in Hrun as (info & s0 & Hinfo & Hrun).
  apply epoch_info_same in Hinfo as ->.
  apply bind_ok in Hrun as (self & s0 & [= <- <-] & Hrun).
  apply bind_ok in Hrun as ([s e] & s0 & [Hse ->]%lift_ok & Hrun).
  apply bind_ok in Hrun as (nid' & st1 & Hloop & Hrun).
  pose proof (stable_run _ _ _ _ _ (matching_loop_steady _ _) Hloop)
    as (_ & _ & _ & Hepoch & Hslices & Htsb & _).
  destruct (matching_loop_haplotypes _ _ _ _ _ Hloop) as [Hh Hlen].
  rewrite length_seq in Hh, Hlen.
  destruct (complete_epoch_times j st1 st' Hrun)
    as (s' & e' & time & Hse' & Htime & Htimes).
  rewrite Hslices, Hse in Hse'. injection Hse' as <- <-.
  pose proof (stable_run _ _ _ _ _ (complete_epoch_only_base j) Hrun) as Hob.
  apply only_base_fields in Hob as (He2 & Hs2 & Hn2 & Hh2 & _).
  assert (num_epochs st1 = num_epochs st) as Hn1.
  { clear -Hloop. revert Hloop.
    generalize (TreeSequenceBuilder.num_nodes (tree_sequence_builder st)).
    generalize (seq s (e - s)). intros xs. revert st.
    induction xs as [|x xs IH]; intros st nid Hrun; simpl in Hrun.
    - by injection Hrun as <- <-.
    - apply bind_ok in Hrun as (nid1 & sb & Hbody & Hrest).
      apply bind_ok in Hbody as (a & sa & Hnext & Hbody).
      apply bind_ok in Hbody as (h' & sb' & Hafp & [= <- <-]).
      rewrite (IH _ _ Hrest).
      pose proof (stable_run _ _ _ _ _
                    (IsolationFacts.ancestor_find_path_thread_local
                       find_path 0 x nid a) Hafp) as [Hf _].
      apply only_base_fields in Hf as (_ & _ & -> & _).
      unfold next_haplotype in Hnext.
      apply bind_ok in Hnext as (self & s0 & [= <- <-] & Hnext).
      destruct (haplotypes st); [done|].
      by apply bind_ok in Hnext as ([] & s0 & [= <-] & [= <- <-]). }
  exists s, e, time. split; [done|]. split; [by rewrite <- Hepoch|].
  unfold same_builder, tree_sequence_builder in *.
  rewrite Htimes, Htsb. split; [done|].
  split; [congruence|]. split; [congruence|]. split; [congruence|].
  split; [congruence|done].
Qed.

End Collaborators.

Lemma replicate_slice (l : list Z) s e t :
  e ≤ length l → (∀ i, s ≤ i < e → l !! i = Some t) →
  replicate (e - s) t = drop s (take e l).
Proof.
  intros He Hall. apply list_eq. intros i.
  rewrite lookup_drop, lookup_take.
  destruct (decide (i < e - s)) as [Hi|Hi].
  - rewrite lookup_replicate_2 by done. rewrite decide_True by lia.
    symmetry. apply Hall. lia.
  - rewrite decide_False by lia. apply lookup_replicate_None. lia.
Qed.

Lemma drop_take_app {A} (l : list A) a b c :
  a ≤ b → b ≤ c →
  drop a (take b l) ++ drop b (take c l) = drop a (take c l).
Proof.
  intros Hab Hbc. rewrite <- (drop_take_drop (take c l) a b) by done.
  rewrite take_take. by replace (b `min` c) with b by lia.
Qed.

Lemma posts_le epoch i j x y :
  epoch ≠ [] →
  posts epoch (length epoch) !! i = Some x →
  posts epoch (length epoch) !! j = Some y → i ≤ j → x ≤ y.
Proof.
  intros Hne Hi Hj Hij. destruct (decide (i = j)) as [->|Hneq].
  - rewrite Hi in Hj. injection Hj as ->. lia.
  - pose proof (increasing_lookup _ i j x y (increasing_posts epoch Hne) Hi Hj).
    lia.
Qed.

Section Collaborators.
Context (uninit : nat → Z).
Context (find_path : TreeSequenceBuilder.t → list Z → nat → nat →
                     result (list Z * list Z * list Z * list Z)).

(** The epochs [1 .. k] of a single-threaded run. *)
Lemma epochs_run k : ∀ st st_k e0,
  epoch st ≠ [] →
  epoch_slices st = epoch_slices_of (epoch st) (length (epoch st)) →
  posts (epoch st) (length (epoch st)) !! 1 = Some e0 →
  S k ≤ length (epoch_slices st) →
  for_ ((λ i, 1 + Z.of_nat i)%Z <$> seq 0 k)
    (match_epoch_single_threaded uninit find_path) st = (Ok tt, st_k) →
  ∃ p,
    posts (epoch st) (length (epoch st)) !! S k = Some p ∧
    e0 ≤ p ≤ length (epoch st) ∧
    add_node_times (TreeSequenceBuilder.calls (tree_sequence_builder st_k))
    = add_node_times (TreeSequenceBuilder.calls (tree_sequence_builder st))
      ++ drop e0 (take p (epoch st)) ∧
    epoch st_k = epoch st ∧ epoch_slices st_k = epoch_slices st ∧
    num_epochs st_k = num_epochs st ∧
    haplotypes st_k = drop (p - e0) (haplotypes st) ∧
    p - e0 ≤ length (haplotypes st).
Proof.
  induction k as [|k IH]; intros st st_k e0 Hne Hslices He0 Hk Hrun.
  - simpl in Hrun. injection Hrun as <-. exists e0. split; [done|].
    assert (e0 ≤ length (epoch st)) as Hle.
    { destruct (lookup_lt_is_Some_2 (epoch_slices st) 0) as [[s e] Hse];
        [lia|].
      rewrite Hslices in Hse. pose proof Hse as Hse'.
      apply slices_posts in Hse as [_ He]. rewrite He0 in He.
      injection He as <-. apply slice_bounds in Hse'; [lia|done]. }
    split; [lia|].
    rewrite drop_ge by (rewrite length_take; lia).
    rewrite app_nil_r, Nat.sub_diag, drop_0. repeat split; lia.
  - rewrite seq_S, fmap_app, for_app, bind_run in Hrun.
    destruct (for_ ((λ i, (1 + Z.of_nat i)%Z) <$> seq 0 k)
                (match_epoch_single_threaded uninit find_path) st)
      as [[[]|] st1] eqn:Hrun1; [|done].
    destruct (IH st st1 e0 Hne Hslices He0 ltac:(lia) Hrun1)
      as (p & Hp & [Hp1 Hp2] & Htimes & Hep & Hsl & Hnum & Hh & Hhl).
    change ((λ i, (1 + Z.of_nat i)%Z) <$> [0 + k])
      with [(1 + Z.of_nat k)%Z] in Hrun.
    rewrite CommitFacts.for_singleton in Hrun.
    destruct (match_epoch_run uninit find_path _ _ _ Hrun)
      as (s & e & time & Hse & Htime & Htimes2 & Hep2 & Hsl2 & Hnum2
          & Hh2 & Hhl2).
    replace (1 + Z.of_nat k)%Z with (Z.of_nat (S k)) in Hse by lia.
    apply item_nat in Hse. apply item_nat in Htime.
    rewrite Hsl, Hslices in Hse. rewrite Hep in Htime.
    pose proof (slice_bounds _ _ _ _ Hne Hse) as [Hlt Hle].
    pose proof (slice_same_time _ _ _ _ Hne Hse) as Hsame.
    apply slices_posts in Hse as [Hs He]. rewrite Hp in Hs.
    injection Hs as <-.
    exists e. split; [done|]. split; [lia|].
    split.
    { rewrite Htimes2, Htimes, <- app_assoc. f_equal.
      rewrite (replicate_slice (epoch st) p e time); [|done|].
      - apply drop_take_app; lia.
      - intros i Hi. by rewrite Hsame. }
    split; [congruence|]. split; [congruence|]. split; [congruence|].
    rewrite Hh2, Hh, drop_drop. rewrite Hh, length_drop in Hhl2.
    split; [f_equal; lia|lia].
Qed.

End Collaborators.

Lemma posts_second epoch :
  epoch ≠ [] → epoch !! 1 ≠ epoch !! 0 →
  posts epoch (length epoch) !! 1 = Some 1.
Proof.
  intros Hne Hdiff.
  destruct (lookup_lt_is_Some_2 (posts epoch (length epoch)) 1) as [e0 He0].
  { rewrite posts_length. lia. }
  rewrite He0. f_equal.
  pose proof (increasing_lookup _ 0 1 0 e0 (increasing_posts epoch Hne)
                (posts_first _ _) He0) as Hpos.
  assert (1 ∈ posts epoch (length epoch)) as Hin.
  { unfold posts. destruct (decide (length epoch = 1)) as [Hone|Hmore].
    - apply elem_of_app. right. rewrite Hone. apply list_elem_of_here.
    - apply elem_of_app. left. apply elem_of_cons. right.
      apply (list_elem_of_fmap_2 (λ b, b + 1) _ 0).
      apply elem_of_breaks. split; [|done].
      destruct epoch as [|? [|? ?]]; [done|by destruct Hmore|simpl; lia]. }
  apply list_elem_of_lookup_1 in Hin as [i Hi].
  destruct (decide (i ≤ 1)) as [Hle|Hgt].
  - destruct i as [|[|i]]; [|congruence|lia].
    rewrite posts_first in Hi. done.
  - pose proof (increasing_lookup _ 1 i e0 1 (increasing_posts epoch Hne)
                  He0 Hi). lia.
Qed.

Lemma add_node_ids_times cs :
  length (TreeSequenceBuilder.add_node_ids cs) = length (add_node_times cs).
Proof.
  induction cs as [|[] cs IH]; simpl; [done| |done..].
  unfold TreeSequenceBuilder.add_node_ids, add_node_times in *. simpl. lia.
Qed.

Lemma slices_length epoch n :
  length (epoch_slices_of epoch n) = S (length (breaks_of epoch)).
Proof.
  unfold epoch_slices_of. cbv zeta.
  rewrite length_zip, !length_app, !length_fmap. cbn [length]. lia.
Qed.

Section Collaborators.
Context (uninit : nat → Z).
Context (find_path : TreeSequenceBuilder.t → list Z → nat → nat →
                     result (list Z * list Z * list Z * list Z)).

(** A single-threaded run that is not resumed and returns, over an ancestor
    file whose [time] array has [num_ancestors] entries. The [add_node]
    calls the builder has received were given, in order, the time of
    ancestor 0 and then the times of the ancestors from the end [e0] of the
    first epoch on, and they returned the ids [0, 1, ...]; the haplotype
    iterator has yielded as many haplotypes as there are nodes but one.
    When the oldest time is that of ancestor 0 alone, [e0 = 1]: there is
    one node for every ancestor, the node of ancestor [a] has the id [a]
    and was given the time of ancestor [a]. *)
Theorem run_gives_each_ancestor_a_node input_file ancestors_file num_threads
    st st' :
  file_num_ancestors ancestors_file = length (file_time ancestors_file) →
  __init__ uninit input_file ancestors_file None num_threads = Ok st →
  __match_ancestors_single_threaded uninit find_path st = (Ok tt, st') →
  let time := file_time ancestors_file in
  ∃ e0,
    epoch_slices st !! 0 = Some (0, e0) ∧ 1 ≤ e0 ≤ length time ∧
    add_node_times (TreeSequenceBuilder.calls (tree_sequence_builder st'))
    = take 1 time ++ drop e0 time ∧
    node_ids st' = seq 0 (1 + (length time - e0)) ∧
    haplotypes st' =
      drop (1 + (length time - e0)) (file_ancestor_haplotypes ancestors_file) ∧
    (time !! 1 ≠ time !! 0 →
     e0 = 1 ∧
     add_node_times (TreeSequenceBuilder.calls (tree_sequence_builder st'))
     = time ∧
     node_ids st' = seq 0 (file_num_ancestors ancestors_file)).
Proof.
  intros Hnum Hinit Hrun. cbv zeta.
  pose proof (init_fresh uninit input_file ancestors_file num_threads) as Hnew.
  destruct (file_time ancestors_file) as [|t0 ts] eqn:Htime;
    [congruence|].
  destruct Hnew as (st0 & Hst0 & Hepoch & Hslices & Hnep & Hstart & Hhap
                    & Hcalls & Hnodes & _).
  rewrite Hinit in Hst0. injection Hst0 as <-.
  assert (epoch st ≠ []) as Hne by (by rewrite Hepoch).
  rewrite Hnum, <- Hepoch in Hslices.
  destruct (lookup_lt_is_Some_2 (posts (epoch st) (length (epoch st))) 1)
    as [e0 He0]; [rewrite posts_length; lia|].
  unfold __match_ancestors_single_threaded in Hrun.
  apply bind_ok in Hrun as (self & s0 & [= <- <-] & Hrun).
  unfold np.range in Hrun. rewrite Hstart, Hnep, Hslices, slices_length in Hrun.
  replace (Z.to_nat (Z.of_nat (S (length (breaks_of (epoch st)))) - 1))
    with (length (breaks_of (epoch st))) in Hrun by lia.
  destruct (epochs_run uninit find_path (length (breaks_of (epoch st)))
              st st' e0 Hne Hslices He0
              ltac:(rewrite Hslices, slices_length; lia) Hrun)
    as (p & Hp & [Hp1 Hp2] & Htimes & _ & _ & _ & Hh & Hhl).
  rewrite posts_last in Hp. injection Hp as <-.
  rewrite firstn_all in Htimes.
  pose proof (posts_le _ 0 1 0 e0 Hne (posts_first _ _) He0 ltac:(lia)) as H0.
  pose proof (increasing_lookup _ 0 1 0 e0 (increasing_posts _ Hne)
                (posts_first _ _) He0 ltac:(lia)) as H1.
  assert (add_node_times
            (TreeSequenceBuilder.calls (tree_sequence_builder st'))
          = take 1 (epoch st) ++ drop e0 (epoch st)) as Htimes'.
  { rewrite Htimes, Hcalls, Hepoch. done. }
  assert (node_ids st' = seq 0 (1 + (length (epoch st) - e0))) as Hids.
  { assert (stable advances
              (for_ ((λ k, (1 + Z.of_nat k)%Z) <$>
                       seq 0 (length (breaks_of (epoch st))))
                 (match_epoch_single_threaded uninit find_path))) as Hadv.
    { apply stable_for; [apply _|apply _|intros j].
      apply match_epoch_advances. }
    destruct (stable_run _ _ _ _ _ Hadv Hrun) as (m & Hm & Hn).
    pose proof (add_node_ids_times
                  (TreeSequenceBuilder.calls (tree_sequence_builder st')))
      as Hlen.
    unfold node_ids. rewrite Hm, Hcalls in *. rewrite Htimes' in Hlen.
    rewrite Hnodes in *. simpl in Hlen.
    rewrite !length_app, length_seq, length_take, length_drop in Hlen.
    simpl in Hlen.
    assert (m = length (epoch st) - e0) as ->
      by (destruct (length (epoch st)); lia).
    simpl. done. }
  exists e0. split; [rewrite Hslices; apply slices_posts; split;
                     [apply posts_first|done]|].
  rewrite <- Hepoch. split_and!; [lia|lia|done|done| |].
  { rewrite Hh, Hhap, drop_drop. f_equal; lia. }
  intros Hdiff. pose proof (posts_second _ Hne Hdiff) as Hsecond.
  rewrite He0 in Hsecond. injection Hsecond as ->.
  split; [done|]. split.
  - rewrite Htimes'. apply take_drop.
  - rewrite Hids, Hnum, <- Hepoch. f_equal. lia.
Qed.

End Collaborators.

Lemma run_gives_each_ancestor_a_node_witness :
  ∃ st st',
    file_num_ancestors Example.ancestors_file
      = length (file_time Example.ancestors_file) ∧
    __init__ Example.uninit Example.input_file Example.ancestors_file None 0
      = Ok st ∧
    __match_ancestors_single_threaded Example.uninit Example.find_path st
      = (Ok tt, st') ∧
    add_node_times (TreeSequenceBuilder.calls (tree_sequence_builder st'))
      = [4; 3; 3; 2]%Z ∧
    node_ids st' = [0; 1; 2; 3] ∧
    haplotypes st' = [].
Proof.
  evaluate_ok (__init__ Example.uninit Example.input_file
                 Example.ancestors_file None 0) st.
  evaluate_ok (__match_ancestors_single_threaded Example.uninit
                 Example.find_path st) st'.
  exists st, st'.
  assert (__init__ Example.uninit Example.input_file Example.ancestors_file
            None 0 = Ok st) as Hst by (vm_compute; reflexivity).
  assert (__match_ancestors_single_threaded Example.uninit Example.find_path
            st = (Ok tt, st')) as Hrun by (vm_compute; reflexivity).
  destruct (run_gives_each_ancestor_a_node Example.uninit Example.find_path
              Example.input_file
              Example.ancestors_file 0 st st' eq_refl Hst Hrun)
    as (e0 & He0 & _ & _ & _ & Hhap & Hone).
  destruct Hone as (-> & Htimes & Hids); [by vm_compute|].
  do 3 (split; [done|]). split; [exact Htimes|]. split; [exact Hids|].
  exact Hhap.
Defined.

Lemma item_out_of_range {A} (l : list A) (i : nat) :
  length l ≤ i → np.item l (Z.of_nat i) = Raise IndexError.
Proof.
  intros Hi. unfold np.item. cbv zeta.
  rewrite (decide_False (P := (Z.of_nat i < 0)%Z)) by lia.
  rewrite (decide_True (P := (0 ≤ Z.of_nat i)%Z)) by lia.
  rewrite Nat2Z.id. by rewrite lookup_ge_None_2.
Qed.

(** Resuming from a tree sequence that has at least as many sample nodes as
    there are ancestors, as the output of a finished build has, raises
    [IndexError], at [self.epoch[first_ancestor]]. *)
Theorem resume_after_last_ancestor uninit input_file ancestors_file
    ancestor_ts num_threads :
  length (file_time ancestors_file) ≤ ts_num_samples ancestor_ts →
  __init__ uninit input_file ancestors_file (Some ancestor_ts) num_threads
  = Raise IndexError.
Proof.
  intros Hlen. unfold __init__, Matcher.__init__.
  destruct (init_run uninit 1024) as (b & -> & _); [lia|].
  unfold init_body. rewrite !bind_run.
  match goal with
  | |- context [on_base (Matcher.restore_tree_sequence_builder ?ts) ?s] =>
      destruct (on_base (Matcher.restore_tree_sequence_builder ts) s)
        as [r s1] eqn:Hrestore
  end.
  assert (r = Ok tt ∧ epoch s1 = file_time ancestors_file) as [-> Hepoch].
  { unfold on_base, zoom, Matcher.restore_tree_sequence_builder,
      Matcher.on_builder in Hrestore.
    rewrite !bind_run in Hrestore. unfold zoom in Hrestore.
    unfold TreeSequenceBuilder.restore_nodes, TreeSequenceBuilder.restore_edges,
      TreeSequenceBuilder.restore_mutations in Hrestore.
    rewrite !bind_run in Hrestore. unfold get, put in Hrestore.
    simpl in Hrestore. by injection Hrestore as <- <-. }
  rewrite !bind_run. unfold get at 1. rewrite !bind_run. unfold lift at 1.
  rewrite Hepoch, item_out_of_range by done. done.
Qed.

Lemma resume_after_last_ancestor_witness :
  ∃ st st' ts,
    __init__ Example.uninit Example.input_file Example.ancestors_file None 0
      = Ok st ∧
    match_ancestors_single_threaded Example.uninit Example.find_path st
      = (Ok ts, st') ∧
    ts_num_samples ts = 4 ∧
    __init__ Example.uninit Example.input_file Example.ancestors_file
      (Some ts) 0 = Raise IndexError.
Proof.
  evaluate_ok (__init__ Example.uninit Example.input_file
                 Example.ancestors_file None 0) st.
  evaluate_ok (match_ancestors_single_threaded Example.uninit
                 Example.find_path st) st'.
  pose (ts := Matcher.get_tree_sequence (base st')).
  exists st, st', ts.
  split; [vm_compute; reflexivity|]. split; [vm_compute; reflexivity|].
  split; [vm_compute; reflexivity|].
  apply resume_after_last_ancestor. vm_compute. lia.
Defined.

End RunFacts.

(** ** The producer and the workers of the multi-threaded scheduler *)

Module DispatchFacts.
Import BufferSpec BuilderSpec MatcherSpec AncestorSpec RunSpec DispatchSpec.
Import BufferFacts EpochFacts BuilderFacts MatcherFacts AncestorFacts RunFacts.
Import AncestorMatcher Workers.

Lemma framed_ret {A} (a : A) : framed (mret a).
Proof. by intros H st. Qed.

Lemma framed_lift {A} (r : result A) : framed (lift r).
Proof. by intros H st. Qed.

Lemma framed_assert c : framed (assert c).
Proof. intros H st. by destruct c. Qed.

Lemma framed_bind {A B} (m : M t A) (f : A → M t B) :
  framed m → (∀ a, framed (f a)) → framed (m ≫= f).
Proof.
  intros Hm Hf H st. rewrite !bind_run, Hm.
  destruct (m st) as [[a|e] s1]; [apply Hf|done].
Qed.

Lemma framed_on_base {A} (m : M Matcher.t A) : framed (on_base m).
Proof.
  intros H st. unfold on_base, zoom. simpl.
  by destruct (m (base st)) as [r b'].
Qed.

Lemma framed_get {A} (k : t → M t A) :
  (∀ self, framed (k self)) →
  (∀ H self st, k (set_haplotypes H self) st = k self st) →
  framed (get ≫= k).
Proof.
  intros Hk1 Hk2 H st. rewrite !bind_run. unfold get.
  rewrite Hk2. apply Hk1.
Qed.

Section Collaborators.
Context (uninit : nat → Z).
Context (find_path : TreeSequenceBuilder.t → list Z → nat → nat →
                     result (list Z * list Z * list Z * list Z)).

Lemma ancestor_find_path_framed aid nid h ti :
  framed (__ancestor_find_path find_path aid nid h ti).
Proof.
  unfold __ancestor_find_path.
  apply framed_get; [intros self|reflexivity].
  apply framed_bind; [apply framed_lift|intros focal].
  apply framed_bind; [apply framed_lift|intros st].
  apply framed_bind; [apply framed_lift|intros en].
  apply framed_bind; [apply framed_on_base|intros _].
  apply framed_bind; [apply framed_assert|intros _].
  apply framed_bind; [apply framed_assert|intros _].
  apply framed_bind; [apply framed_lift|intros at_focal].
  apply framed_bind; [apply framed_assert|intros _].
  apply framed_bind; [apply framed_on_base|intros _].
  apply framed_bind; [apply framed_lift|intros h'].
  apply framed_get; [intros self'|reflexivity].
  apply framed_bind; [apply framed_lift|intros m].
  apply framed_bind; [apply framed_assert|intros _].
  apply framed_ret.
Qed.

Lemma set_haplotypes_same st : set_haplotypes (haplotypes st) st = st.
Proof. by destruct st. Qed.

Lemma dispatch_loop (xs : list nat) :
  ∀ nid (work : list (nat * nat * list Z)) st,
  for_acc xs (nid, work)
    (λ ancestor_id '(node_id, work),
       a ← next_haplotype;
       mret (node_id + 1, work ++ [(ancestor_id, node_id, a)])) st =
  if decide (length xs ≤ length (haplotypes st)) then
    (Ok (nid + length xs,
         work ++ zip (zip xs (seq nid (length xs)))
                   (take (length xs) (haplotypes st))),
     set_haplotypes (drop (length xs) (haplotypes st)) st)
  else (Raise StopIteration, set_haplotypes [] st).
Proof.
  induction xs as [|x xs IH]; intros nid work st.
  - cbn [for_acc length]. rewrite decide_True by lia.
    cbn [seq zip zip_with take].
    by rewrite Nat.add_0_r, app_nil_r, drop_0, set_haplotypes_same.
  - cbn [for_acc]. rewrite bind_run. unfold next_haplotype at 1.
    rewrite !bind_run. unfold get at 1.
    destruct (haplotypes st) as [|a rest] eqn:Hh.
    + rewrite decide_False by (simpl; lia).
      unfold raise. by rewrite <- Hh, set_haplotypes_same.
    + cbv beta iota. rewrite !bind_run. unfold modify at 1.
      unfold mret at 1, M_MRet, M_ret. cbv beta iota.
      unfold mret at 1, M_MRet, M_ret.
      replace (nid + 1) with (S nid) by lia.
      rewrite IH. cbn [haplotypes set_haplotypes length].
      destruct (decide (length xs ≤ length rest)).
      * rewrite decide_True by lia. cbn [seq zip zip_with take drop].
        rewrite <- app_assoc. cbn [app].
        replace (S nid + length xs) with (nid + S (length xs)) by lia.
        reflexivity.
      * rewrite decide_False by lia. done.
Qed.

Lemma consume_equiv (xs : list nat) : ∀ nid st st1,
  length xs ≤ length (haplotypes st) →
  (∃ nid',
     for_acc xs nid (λ ancestor_id node_id,
       a ← next_haplotype;
       __ancestor_find_path find_path ancestor_id node_id a 0 ;;
       mret (node_id + 1)) st = (Ok nid', st1)) ↔
  for_ (zip (zip xs (seq nid (length xs))) (take (length xs) (haplotypes st)))
    (ancestor_match_worker_step find_path 0)
    (set_haplotypes (drop (length xs) (haplotypes st)) st) = (Ok tt, st1).
Proof.
  induction xs as [|x xs IH]; intros nid st st1 Hlen.
  - simpl. rewrite drop_0, set_haplotypes_same. split.
    + by intros [nid' [= _ ->]].
    + intros [= ->]. by exists nid.
  - destruct (haplotypes st) as [|a rest] eqn:Hh; [simpl in Hlen; lia|].
    simpl in Hlen.
    cbn [for_acc length seq zip zip_with take drop for_].
    rewrite !bind_run. unfold next_haplotype at 1.
    rewrite !bind_run. unfold get at 1. rewrite Hh.
    rewrite bind_run. unfold modify at 1. unfold mret at 1, M_MRet, M_ret.
    unfold ancestor_match_worker_step at 1. rewrite !bind_run.
    rewrite !(ancestor_find_path_framed x nid a 0 _ st).
    destruct (__ancestor_find_path find_path x nid a 0 st) as [[h'|e] s0]
      eqn:Hafp.
    + unfold mret at 1 2, M_MRet, M_ret.
      specialize (IH (nid + 1) (set_haplotypes rest s0) st1).
      cbn [haplotypes set_haplotypes] in IH.
      replace (S nid) with (nid + 1) by lia.
      apply IH. lia.
    + split; [by intros [nid' ?]|done].
Qed.

(** An epoch of the single-threaded scheduler returns, in some state,
    exactly when these three steps return one after the other, ending in
    that state: the producer of the multi-threaded scheduler takes the work
    items of the epoch from the haplotype iterator; the body of the worker
    loop handles them on thread 0 in queue order; the epoch is completed. *)
Theorem single_threaded_epoch_is_dispatch_then_work j st st' :
  match_epoch_single_threaded uninit find_path j st = (Ok tt, st') ↔
  ∃ work st1 st2,
    epoch_dispatch j st = (Ok work, st1) ∧
    for_ work (ancestor_match_worker_step find_path 0) st1 = (Ok tt, st2) ∧
    __complete_epoch uninit j st2 = (Ok tt, st').
Proof.
  unfold match_epoch_single_threaded, epoch_dispatch.
  rewrite !bind_run.
  destruct (__epoch_info_dict j st) as [[info|e] s0] eqn:Hinfo.
  2: { split; [done|]. by intros (? & ? & ? & ? & _). }
  apply epoch_info_same in Hinfo as ->.
  rewrite !bind_run. unfold get at 1 2. rewrite !bind_run. unfold lift at 1 2.
  destruct (np.item (epoch_slices st) j) as [[s e]|err].
  2: { split; [done|]. by intros (? & ? & ? & ? & _). }
  rewrite !bind_run, dispatch_loop, length_seq.
  set (nid := TreeSequenceBuilder.num_nodes (tree_sequence_builder st)).
  destruct (decide (e - s ≤ length (haplotypes st))) as [Hlen|Hlen].
  - pose proof (consume_equiv (seq s (e - s)) nid st) as Heq.
    rewrite length_seq in Heq. cbn [app]. unfold mret at 2, M_MRet, M_ret.
    split.
    + destruct (for_acc _ _ _ st) as [[nid'|err] st1] eqn:Hloop; [|done].
      intros Hcomplete. eexists _, _, st1. split; [done|].
      split; [|done]. apply Heq; [done|]. by exists nid'.
    + intros (work & st1 & st2 & [= <- <-] & Hwork & Hcomplete).
      apply Heq in Hwork as [nid' Hloop]; [|done].
      destruct (for_acc _ _ _ st) as [r1 s1] eqn:Hloop'.
      injection Hloop as -> ->. exact Hcomplete.
  - split; [|by intros (? & ? & ? & ? & _)].
    destruct (for_acc _ _ _ st) as [[nid'|err] st1] eqn:Hloop; [|done].
    apply matching_loop_haplotypes in Hloop as [_ Hle].
    rewrite length_seq in Hle. lia.
Qed.

(** The node id put on the queue with each ancestor of an epoch is the id
    [add_node] returns for that ancestor when the epoch is completed,
    whatever the workers did in between to the buffers and the scratch
    arrays: the work items pair the ancestors of the range [(s, e)], in
    order, with the next [e - s] haplotypes of the iterator and with the ids
    that the commit then hands out. *)
Theorem dispatched_ids_are_committed j st work st1 st2 st' :
  epoch_dispatch j st = (Ok work, st1) →
  tree_sequence_builder st2 = tree_sequence_builder st →
  epoch_slices st2 = epoch_slices st →
  __complete_epoch uninit j st2 = (Ok tt, st') →
  ∃ s e,
    np.item (epoch_slices st) j = Ok (s, e) ∧
    (λ w, w.1.1) <$> work = seq s (e - s) ∧
    (λ w, w.2) <$> work = take (e - s) (haplotypes st) ∧
    (λ w, w.1.2) <$> work = new_node_ids st2 st' ∧
    haplotypes st1 = drop (e - s) (haplotypes st).
Proof.
  intros Hdispatch Htsb Hslices Hcomplete.
  unfold epoch_dispatch in Hdispatch.
  apply bind_ok in Hdispatch as (info & s0 & Hinfo & Hdispatch).
  apply epoch_info_same in Hinfo as ->.
  apply bind_ok in Hdispatch as (self & s0 & [= <- <-] & Hdispatch).
  apply bind_ok in Hdispatch as ([s e] & s0 & [Hse ->]%lift_ok & Hdispatch).
  apply bind_ok in Hdispatch as ([nid' work'] & s0 & Hloop & [= <- <-]).
  rewrite dispatch_loop, length_seq in Hloop.
  destruct (decide (e - s ≤ length (haplotypes st))) as [Hlen|]; [|done].
  injection Hloop as _ <- <-. cbn [app].
  set (nid := TreeSequenceBuilder.num_nodes (tree_sequence_builder st)).
  exists s, e. split; [done|].
  assert (length (take (e - s) (haplotypes st)) = e - s) as Htake
    by (rewrite length_take; lia).
  split.
  { trans (fst <$> (fst <$> zip (zip (seq s (e - s)) (seq nid (e - s)))
                              (take (e - s) (haplotypes st))));
      [by rewrite <- list_fmap_compose|].
    rewrite fst_zip by (rewrite length_zip, !length_seq, Htake; lia).
    rewrite fst_zip by (rewrite !length_seq; lia). done. }
  split.
  { rewrite snd_zip; [done|].
    rewrite length_zip, !length_seq, Htake. lia. }
  split; [|done].
  trans (snd <$> (fst <$> zip (zip (seq s (e - s)) (seq nid (e - s)))
                            (take (e - s) (haplotypes st))));
    [by rewrite <- list_fmap_compose|].
  rewrite fst_zip by (rewrite length_zip, !length_seq, Htake; lia).
  rewrite snd_zip by (rewrite !length_seq; lia).
  destruct (complete_epoch_times uninit j st2 st' Hcomplete)
    as (s' & e' & time & Hse' & _ & Htimes).
  rewrite Hslices, Hse in Hse'. injection Hse' as <- <-.
  destruct (stable_run _ _ _ _ _ (complete_epoch_advances uninit j) Hcomplete)
    as (m & Hm & Hn).
  unfold new_node_ids, node_ids. rewrite Hm, drop_app_length.
  pose proof (add_node_ids_times
                (TreeSequenceBuilder.calls (tree_sequence_builder st')))
    as Hlen'.
  rewrite Hm, Htimes, !length_app, length_seq, length_replicate,
    add_node_ids_times in Hlen'.
  rewrite Htsb. f_equal. lia.
Qed.

End Collaborators.

Lemma dispatched_ids_are_committed_witness :
  ∃ st work st1 sa sb st',
    __init__ Example.uninit Example.input_file Example.ancestors_file None 2
      = Ok st ∧
    epoch_dispatch 1 st = (Ok work, st1) ∧
    work = [(1, 1, [1; 0; 0]%Z); (2, 2, [255; 1; 0]%Z)] ∧
    ancestor_match_worker_step Example.find_path 1 (1, 1, [1; 0; 0]%Z) st1
      = (Ok tt, sa) ∧
    ancestor_match_worker_step Example.find_path 0 (2, 2, [255; 1; 0]%Z) sa
      = (Ok tt, sb) ∧
    __complete_epoch Example.uninit 1 sb = (Ok tt, st') ∧
    new_node_ids sb st' = [1; 2].
Proof.
  evaluate_ok (__init__ Example.uninit Example.input_file
                 Example.ancestors_file None 2) st.
  evaluate_ok (epoch_dispatch 1 st) st1.
  evaluate_ok (ancestor_match_worker_step Example.find_path 1
                 (1, 1, [1; 0; 0]%Z) st1) sa.
  evaluate_ok (ancestor_match_worker_step Example.find_path 0
                 (2, 2, [255; 1; 0]%Z) sa) sb.
  evaluate_ok (__complete_epoch Example.uninit 1 sb) st'.
  exists st, [(1, 1, [1; 0; 0]%Z); (2, 2, [255; 1; 0]%Z)], st1, sa, sb, st'.
  assert (epoch_dispatch 1 st
          = (Ok [(1, 1, [1; 0; 0]%Z); (2, 2, [255; 1; 0]%Z)], st1)) as Hd
    by (vm_compute; reflexivity).
  assert (__complete_epoch Example.uninit 1 sb = (Ok tt, st')) as Hc
    by (vm_compute; reflexivity).
  destruct (dispatched_ids_are_committed Example.uninit 1 st _ st1 sb st' Hd)
    as (s & e & _ & _ & _ & Hids & _);
    [vm_compute; reflexivity|vm_compute; reflexivity|exact Hc|].
  split; [vm_compute; reflexivity|]. split; [exact Hd|]. split; [done|].
  split; [vm_compute; reflexivity|]. split; [vm_compute; reflexivity|].
  split; [exact Hc|]. rewrite <- Hids. reflexivity.
Defined.

End DispatchFacts.

(** ** Sample matching *)

Module SampleFacts.
Import BufferSpec BuilderSpec MatcherSpec RunSpec IsolationSpec.
Import BufferFacts BuilderFacts MatcherFacts RunFacts IsolationFacts.
Import SampleMatcher Workers SampleSpec.




Section Collaborators.
Context (find_path : TreeSequenceBuilder.t → list Z → nat → nat →
                     result (list Z * list Z * list Z * list Z)).

Lemma find_path_ok child_id h s e ti st l r p st' :
  Forall wf (Matcher.results st) →
  Matcher._find_path find_path child_id h s e ti st = (Ok (l, r, p), st') →
  ∃ m b b',
    find_path (Matcher.tree_sequence_builder st) h s e = Ok (l, r, p, m) ∧
    Matcher.results st !! ti = Some b ∧
    ti < length (Matcher.match_ st) ∧
    wf b' ∧
    views b' = append (views b)
                 (Columns l r p (replicate (length l) (Z.of_nat child_id))
                    [] [] []) ∧
    Matcher.results st' = <[ti := b']> (Matcher.results st) ∧
    Matcher.match_ st' = <[ti := m]> (Matcher.match_ st) ∧
    Matcher.tree_sequence_builder st' = Matcher.tree_sequence_builder st ∧
    Matcher.num_sites st' = Matcher.num_sites st ∧
    length r = length l ∧ length p = length l.
Proof.
  intros Hwf Hrun. unfold Matcher._find_path in Hrun.
  apply bind_ok in Hrun as (self & s0 & [= <- <-] & Hrun).
  apply bind_ok in Hrun as (b & s0 & [Hb ->]%lift_ok & Hrun).
  apply bind_ok in Hrun as (m0 & s0 & [Hm0 ->]%lift_ok & Hrun).
  apply bind_ok in Hrun as ([[[l' r'] p'] m] & s0 & [Hfp ->]%lift_ok & Hrun).
  apply bind_ok in Hrun as ([] & s1 & [= <-] & Hrun).
  apply bind_ok in Hrun as ([] & s2 & Hadd & [= <- <- <- <-]).
  apply item_nat in Hb. apply item_nat in Hm0.
  apply zoom_run in Hadd as (rs & Hadd & ->).
  apply zoom_index_ok in Hadd as (o & b' & Ho & Hadd & ->).
  cbn in Ho. rewrite Hb in Ho. injection Ho as <-.
  assert (wf b) as Hwfb by (by eapply Forall_lookup_1).
  destruct (add_edges_run l' r' p' (np.Scalar (Z.of_nat child_id)) b Hwfb)
    as (res & b'' & Hadd' & Hwf' & _ & _ & _ & Hres).
  rewrite Hadd in Hadd'. injection Hadd' as <- <-.
  destruct Hres as [Hviews _].
  assert (length r' = length l' ∧ length p' = length l') as [Hlr Hlp].
  { unfold ResultBuffer.add_edges, np.shape0 in Hadd.
    apply bind_ok in Hadd as ([] & ? & [Hr ->]%assert_ok & Hadd).
    apply bind_ok in Hadd as ([] & ? & [Hp ->]%assert_ok & Hadd).
    apply bool_decide_eq_true in Hr. apply bool_decide_eq_true in Hp. done. }
  exists m, b, b'. split; [done|]. split; [done|].
  split; [by eapply lookup_lt_Some|]. split; [done|].
  split; [exact Hviews|]. by destruct st.
Qed.


End Collaborators.

Lemma sample_init_run uninit input_file ancestors_ts num_threads :
  ∃ st,
    __init__ uninit input_file ancestors_ts num_threads = Ok st ∧
    sample_haplotypes st = input_sample_haplotypes input_file ∧
    sample_ids st =
      seq (length (ts_nodes ancestors_ts)) (input_num_samples input_file) ∧
    Matcher.num_samples (base st) = input_num_samples input_file ∧
    Matcher.num_sites (base st) = input_num_sites input_file ∧
    TreeSequenceBuilder.num_nodes (Matcher.tree_sequence_builder (base st))
      = length (ts_nodes ancestors_ts) ∧
    TreeSequenceBuilder.calls (Matcher.tree_sequence_builder (base st)) = [] ∧
    Forall wf (Matcher.results (base st)) ∧
    length (Matcher.results (base st)) = Z.to_nat (Z.max 1 num_threads).
Proof.
  unfold __init__, Matcher.__init__.
  destruct (init_run uninit 1024) as (b & -> & Hwf & _); [lia|].
  eexists. split.
  { unfold Matcher.restore_tree_sequence_builder, Matcher.on_builder, zoom,
      TreeSequenceBuilder.restore_nodes, TreeSequenceBuilder.restore_edges,
      TreeSequenceBuilder.restore_mutations.
    rewrite !bind_run. unfold get, put. cbn [fst snd]. reflexivity. }
  cbn. unfold TreeSequenceBuilder.num_nodes. cbn.
  rewrite length_zip, !length_fmap, Nat.min_id.
  split_and!; try done.
  - by apply Forall_replicate.
  - by rewrite length_replicate.
Qed.

Section Collaborators.
Context (uninit : nat → Z).
Context (find_path : TreeSequenceBuilder.t → list Z → nat → nat →
                     result (list Z * list Z * list Z * list Z)).

Lemma sample_loop_thread_local haps j0 :
  stable (sample_thread_local 0)
    (for_acc haps j0 (λ a j,
       self' ← get;
       let sample_id :=
         TreeSequenceBuilder.num_nodes
           (Matcher.tree_sequence_builder (base self')) + j in
       __process_sample find_path sample_id a 0 ;;
       mret (j + 1))).
Proof.
  apply stable_for_acc; [apply _|apply _|intros a j].
  apply stable_bind; [apply _|apply stable_get; apply _|intros self'].
  apply stable_bind; [apply _| |intros _; apply stable_ret; apply _].
  apply process_sample_thread_local.
Qed.

Lemma sample_loop_count (haps : list (list Z)) : ∀ j0 st j' st1,
  for_acc haps j0 (λ a j,
    self' ← get;
    let sample_id :=
      TreeSequenceBuilder.num_nodes
        (Matcher.tree_sequence_builder (base self')) + j in
    __process_sample find_path sample_id a 0 ;;
    mret (j + 1)) st = (Ok j', st1) →
  j' = j0 + length haps.
Proof.
  induction haps as [|a haps IH]; intros j0 st j' st1 Hrun; simpl in Hrun.
  - injection Hrun as <- <-. simpl. lia.
  - apply bind_ok in Hrun as (j1 & s1 & Hbody & Hrest).
    apply bind_ok in Hbody as (self' & s0 & [= <- <-] & Hbody).
    apply bind_ok in Hbody as ([] & s2 & Hps & [= <- <-]).
    apply IH in Hrest. simpl. lia.
Qed.

Lemma sample_loop_equiv (haps : list (list Z)) : ∀ j0 st st1 N,
  TreeSequenceBuilder.num_nodes (Matcher.tree_sequence_builder (base st)) = N →
  (∃ j',
     for_acc haps j0 (λ a j,
       self' ← get;
       let sample_id :=
         TreeSequenceBuilder.num_nodes
           (Matcher.tree_sequence_builder (base self')) + j in
       __process_sample find_path sample_id a 0 ;;
       mret (j + 1)) st = (Ok j', st1)) ↔
  for_ (zip (seq (N + j0) (length haps)) haps)
    (sample_match_worker_step find_path 0) st = (Ok tt, st1).
Proof.
  induction haps as [|a haps IH]; intros j0 st st1 N HN.
  - simpl. split.
    + by intros [j' [= _ ->]].
    + intros [= ->]. by exists j0.
  - cbn [for_acc length seq zip zip_with for_].
    rewrite !bind_run. unfold get at 1. cbv zeta. rewrite !bind_run, HN.
    unfold sample_match_worker_step at 1.
    pose proof (process_sample_thread_local find_path 0 (N + j0) a st)
      as [_ (Htsb & _)].
    destruct (__process_sample find_path (N + j0) a 0 st) as [[[]|e] sa].
    + unfold mret at 1, M_MRet, M_ret. simpl in Htsb.
      replace (S (N + j0)) with (N + (j0 + 1)) by lia.
      apply IH. by rewrite Htsb.
    + split; [by intros [j' ?]|done].
Qed.

(** For a sample matcher as its constructor returns it, single-threaded
    matching returns, in some state, exactly when the input yields
    [num_samples] haplotypes and handling the work items of the
    multi-threaded producer, [zip(sample_ids, sample_haplotypes)], on
    thread 0 in queue order returns in that state: in particular the
    [j]-th haplotype is matched under the id [sample_ids[j]]. *)
Theorem single_threaded_samples_are_the_work_items input_file ancestors_ts
    num_threads st st1 :
  __init__ uninit input_file ancestors_ts num_threads = Ok st →
  __match_samples_single_threaded find_path st = (Ok tt, st1) ↔
  length (input_sample_haplotypes input_file)
    = input_num_samples input_file ∧
  for_ (samples_dispatch st) (sample_match_worker_step find_path 0) st
    = (Ok tt, st1).
Proof.
  intros Hinit.
  destruct (sample_init_run uninit input_file ancestors_ts num_threads)
    as (st0 & Hst0 & Hhaps & Hids & Hns & _ & Hnodes & _).
  rewrite Hinit in Hst0. injection Hst0 as <-.
  unfold __match_samples_single_threaded, samples_dispatch.
  rewrite bind_run. unfold get at 1. rewrite bind_run.
  rewrite Hids, Hhaps, Hns.
  pose proof (sample_loop_equiv (input_sample_haplotypes input_file) 0 st)
    as Heq.
  pose proof (sample_loop_count (input_sample_haplotypes input_file) 0 st)
    as Hcount.
  destruct (for_acc _ _ _ st) as [[j'|e] s1] eqn:Hloop.
  - specialize (Hcount _ _ eq_refl). simpl in Hcount. subst j'.
    unfold assert. case_bool_decide as Hlen.
    + split.
      * intros [= <-]. split; [done|]. rewrite <- Hlen.
        specialize (Heq s1 _ Hnodes). rewrite Nat.add_0_r in Heq.
        apply Heq. eauto.
      * intros [_ Hwork]. rewrite <- Hlen in Hwork.
        specialize (Heq st1 _ Hnodes). rewrite Nat.add_0_r in Heq.
        apply Heq in Hwork as [j' [= _ ->]]. done.
    + split; [done|]. intros [Hlen' _]. done.
  - split; [done|]. intros [Hlen Hwork]. rewrite <- Hlen in Hwork.
    specialize (Heq st1 _ Hnodes). rewrite Nat.add_0_r in Heq.
    by apply Heq in Hwork as [j' ?].
Qed.

(** For a sample matcher as its constructor returns it, when single-threaded
    [match_samples] returns: the input yielded [num_samples] haplotypes, and
    the builder has received [num_samples] calls of [add_node], each with
    time 0, which returned exactly the ids in [sample_ids], in order; these
    are the ids [finalise] passes to [simplify] as the samples. *)
Theorem samples_are_committed_under_sample_ids input_file ancestors_ts
    num_threads st st' :
  __init__ uninit input_file ancestors_ts num_threads = Ok st →
  match_samples_single_threaded uninit find_path st = (Ok tt, st') →
  length (input_sample_haplotypes input_file)
    = input_num_samples input_file ∧
  sample_ids st' = sample_ids st ∧
  sample_ids st =
    seq (length (ts_nodes ancestors_ts)) (input_num_samples input_file) ∧
  TreeSequenceBuilder.add_node_ids
    (TreeSequenceBuilder.calls (Matcher.tree_sequence_builder (base st')))
  = sample_ids st ∧
  add_node_times
    (TreeSequenceBuilder.calls (Matcher.tree_sequence_builder (base st')))
  = replicate (input_num_samples input_file) 0%Z.
Proof.
  intros Hinit Hrun.
  destruct (sample_init_run uninit input_file ancestors_ts num_threads)
    as (st0 & Hst0 & Hhaps & Hids & Hns & _ & Hnodes & Hcalls & _).
  rewrite Hinit in Hst0. injection Hst0 as <-.
  unfold match_samples_single_threaded in Hrun.
  apply bind_ok in Hrun as ([] & st1 & Hmatch & Hcommit).
  unfold __match_samples_single_threaded in Hmatch.
  apply bind_ok in Hmatch as (self & s0 & [= <- <-] & Hmatch).
  apply bind_ok in Hmatch as (j' & s1 & Hloop & [Hj ->]%assert_ok).
  apply bool_decide_eq_true in Hj.
  pose proof (sample_loop_count _ _ _ _ _ Hloop) as Hcount.
  pose proof (stable_run _ _ _ _ _ (sample_loop_thread_local _ _) Hloop)
    as [Hfields (Htsb & _ & Hns1 & _)].
  unfold match_samples_commit in Hcommit.
  apply bind_ok in Hcommit as (er & s2 & Hcomb & Hcommit).
  apply bind_ok in Hcommit as (self & s0 & [= <- <-] & Hcommit).
  apply zoom_run in Hcomb as (b1 & Hcomb & ->).
  pose proof (stable_run _ _ _ _ _ (AncestorFacts.combine_same_builder uninit) Hcomb)
    as Hb1.
  assert (Matcher.num_samples b1 = Matcher.num_samples (base s1)) as Hns2.
  { apply zoom_run in Hcomb as (l1 & _ & ->). done. }
  apply zoom_run in Hcommit as (b2 & Hcommit & ->).
  cbn [base set_base] in Hcommit. rewrite Hns2, Hns1, Hns in Hcommit.
  pose proof (commit_times _ _ _ _ _ Hcommit) as Htimes.
  apply commit_ok in Hcommit as ((Hg & _) & _).
  unfold same_builder in Hb1. rewrite Hb1, Htsb in Hg, Htimes.
  rewrite Hcalls, Hnodes in Hg. rewrite Hcalls in Htimes.
  cbn [base set_base sample_ids].
  split; [simpl in Hcount; congruence|].
  split; [by rewrite <- Hfields|]. split; [done|].
  split; [by rewrite Hg, Hids|done].
Qed.

End Collaborators.


Lemma single_threaded_samples_are_the_work_items_witness :
  ∃ st st1,
    __init__ Example.uninit Example.input_file
      {| ts_nodes := [(1, 4); (1, 3)]%Z; ts_edges := []; ts_mutations := [] |}
      0 = Ok st ∧
    __match_samples_single_threaded Example.find_path st = (Ok tt, st1) ∧
    samples_dispatch st = [(2, [1; 0; 1]%Z); (3, [0; 1; 1]%Z)] ∧
    for_ (samples_dispatch st) (sample_match_worker_step Example.find_path 0)
      st = (Ok tt, st1).
Proof.
  pose (ts := {| ts_nodes := [(1, 4); (1, 3)]%Z; ts_edges := [];
                 ts_mutations := [] |}).
  evaluate_ok (__init__ Example.uninit Example.input_file ts 0) st.
  evaluate_ok (__match_samples_single_threaded Example.find_path st) st1.
  exists st, st1.
  assert (__init__ Example.uninit Example.input_file ts 0 = Ok st) as Hst
    by (vm_compute; reflexivity).
  assert (__match_samples_single_threaded Example.find_path st
          = (Ok tt, st1)) as Hrun by (vm_compute; reflexivity).
  destruct (proj1 (single_threaded_samples_are_the_work_items
                     Example.uninit Example.find_path Example.input_file ts 0
                     st st1 Hst) Hrun) as [_ Hwork].
  split; [exact Hst|]. split; [exact Hrun|].
  split; [vm_compute; reflexivity|exact Hwork].
Defined.

Lemma samples_are_committed_under_sample_ids_witness :
  ∃ st st',
    __init__ Example.uninit Example.input_file
      {| ts_nodes := [(1, 4); (1, 3)]%Z; ts_edges := []; ts_mutations := [] |}
      0 = Ok st ∧
    match_samples_single_threaded Example.uninit Example.find_path st
      = (Ok tt, st') ∧
    sample_ids st = [2; 3] ∧
    TreeSequenceBuilder.add_node_ids
      (TreeSequenceBuilder.calls (Matcher.tree_sequence_builder (base st')))
    = [2; 3].
Proof.
  pose (ts := {| ts_nodes := [(1, 4); (1, 3)]%Z; ts_edges := [];
                 ts_mutations := [] |}).
  evaluate_ok (__init__ Example.uninit Example.input_file ts 0) st.
  evaluate_ok (match_samples_single_threaded Example.uninit Example.find_path
                 st) st'.
  exists st, st'.
  assert (__init__ Example.uninit Example.input_file ts 0 = Ok st) as Hst
    by (vm_compute; reflexivity).
  assert (match_samples_single_threaded Example.uninit Example.find_path st
          = (Ok tt, st')) as Hrun by (vm_compute; reflexivity).
  destruct (samples_are_committed_under_sample_ids Example.uninit
              Example.find_path Example.input_file ts 0 st st' Hst Hrun)
    as (_ & _ & Hids & Hnew & _).
  split; [exact Hst|]. split; [exact Hrun|]. split; [exact Hids|].
  rewrite Hnew. exact Hids.
Defined.

End SampleFacts.

(** ** Verification *)

Module VerifyFacts.
Import Verify.

Lemma verify_loop_inr pairs : ∀ count count',
  verify_loop pairs count = inr count' ↔
  count' = count + length pairs ∧
  Forall (λ pair, unknown_to_zero pair.1 = pair.2.2) pairs.
Proof.
  induction pairs as [|[g1 [index g2]] pairs IH]; intros count count'.
  - simpl. split.
    + intros [= <-]. split; [lia|done].
    + intros [-> _]. f_equal. lia.
  - cbn [verify_loop length]. destruct (decide (unknown_to_zero g1 = g2)) as [Heq|Hne].
    + rewrite IH. split.
      * intros [-> Hall]. split; [lia|]. by constructor.
      * intros [-> Hall]. split; [lia|]. by inversion Hall.
    + split; [done|]. intros [_ Hall]. by inversion Hall.
Qed.

Lemma verify_loop_inl pairs : ∀ count index,
  verify_loop pairs count = inl (Unequal_genotypes_at_site index) ↔
  ∃ k g1 g2,
    pairs !! k = Some (g1, (index, g2)) ∧ unknown_to_zero g1 ≠ g2 ∧
    Forall (λ pair, unknown_to_zero pair.1 = pair.2.2) (take k pairs).
Proof.
  induction pairs as [|[g1 [index' g2]] pairs IH]; intros count index.
  - simpl. split; [done|]. by intros (k & ? & ? & ? & _).
  - cbn [verify_loop]. destruct (decide (unknown_to_zero g1 = g2)) as [Heq|Hne].
    + rewrite IH. split.
      * intros (k & h1 & h2 & Hk & Hne & Hall).
        exists (S k), h1, h2. split; [done|]. split; [done|].
        simpl. by constructor.
      * intros ([|k] & h1 & h2 & Hk & Hne & Hall).
        { simpl in Hk. injection Hk as <- <- <-. done. }
        exists k, h1, h2. split; [done|]. split; [done|].
        simpl in Hall. by inversion Hall.
    + split.
      * intros [= <-]. exists 0, g1, g2. split; [done|]. split; [done|].
        simpl. constructor.
      * intros ([|k] & h1 & h2 & Hk & Hne' & Hall).
        { simpl in Hk. by injection Hk as <- <- <-. }
        simpl in Hall. inversion Hall. done.
Qed.

(** [verify] returns exactly when the tree sequence has one node for every
    ancestor and the number of sites of the input, the two iterators yield
    together exactly that number of pairs, and in every pair the genotypes
    of the ancestors, with the unknown allele read as 0, are the genotypes
    of the variant. *)
Theorem verify_returns_iff input_file ancestors_file site_genotypes
    ancestors_ts :
  verify input_file ancestors_file site_genotypes ancestors_ts = Returns ↔
  ts_num_nodes ancestors_ts = file_num_ancestors ancestors_file ∧
  ts_num_sites ancestors_ts = input_num_sites input_file ∧
  length site_genotypes `min` length (ts_variants ancestors_ts)
    = ts_num_sites ancestors_ts ∧
  ∀ i g1 v,
    site_genotypes !! i = Some g1 → ts_variants ancestors_ts !! i = Some v →
    unknown_to_zero g1 = v.2.
Proof.
  unfold verify.
  destruct (decide (ts_num_nodes ancestors_ts
                    ≠ file_num_ancestors ancestors_file)) as [Hn|Hn].
  { split; [done|]. by intros [? _]. }
  destruct (decide (ts_num_sites ancestors_ts ≠ input_num_sites input_file))
    as [Hs|Hs].
  { split; [done|]. by intros (_ & ? & _). }
  apply dec_stable in Hn. apply dec_stable in Hs.
  destruct (verify_loop _ 0) as [e|count] eqn:Hloop.
  - split; [done|]. intros (_ & _ & Hlen & Hall).
    assert (verify_loop (zip site_genotypes (ts_variants ancestors_ts)) 0
            = inr (0 + length (zip site_genotypes (ts_variants ancestors_ts))))
      as Hok.
    { apply verify_loop_inr. split; [done|].
      apply Forall_lookup_2. intros k [g1 v] Hk.
      apply lookup_zip_with_Some in Hk as (x & y & [= <- <-] & Hx & Hy).
      simpl. by eapply Hall. }
    congruence.
  - apply verify_loop_inr in Hloop as [-> Hall].
    rewrite length_zip in *. simpl.
    destruct (decide (length site_genotypes `min`
                        length (ts_variants ancestors_ts)
                      ≠ ts_num_sites ancestors_ts)) as [Hc|Hc].
    + split; [done|]. by intros (_ & _ & ? & _).
    + apply dec_stable in Hc. split; [|done]. intros _.
      do 3 (split; [done|]). intros i g1 v Hg Hv.
      assert (zip site_genotypes (ts_variants ancestors_ts) !! i
              = Some (g1, v)) as Hk.
      { apply lookup_zip_with_Some. eauto. }
      by apply (Forall_lookup_1 _ _ _ _ Hall Hk).
Qed.

(** Which [ValueError] [verify] raises. The node count is checked first and
    the site count second. Then the pairs are compared in order, and the
    site reported is the [index] of the first variant whose genotypes
    differ from those of the ancestors, whatever the pairs after it hold.
    When all the pairs agree, "Iteration stopped early" is raised exactly
    when their number is not [num_sites]: also when it is greater. *)
Theorem verify_raises input_file ancestors_file site_genotypes ancestors_ts :
  let pairs := zip site_genotypes (ts_variants ancestors_ts) in
  let counts :=
    ts_num_nodes ancestors_ts = file_num_ancestors ancestors_file ∧
    ts_num_sites ancestors_ts = input_num_sites input_file in
  (verify input_file ancestors_file site_genotypes ancestors_ts
   = Raises Incorrect_number_of_ancestors ↔
   ts_num_nodes ancestors_ts ≠ file_num_ancestors ancestors_file) ∧
  (verify input_file ancestors_file site_genotypes ancestors_ts
   = Raises Incorrect_number_of_sites ↔
   ts_num_nodes ancestors_ts = file_num_ancestors ancestors_file ∧
   ts_num_sites ancestors_ts ≠ input_num_sites input_file) ∧
  (∀ index,
     verify input_file ancestors_file site_genotypes ancestors_ts
     = Raises (Unequal_genotypes_at_site index) ↔
     counts ∧
     ∃ k g1 g2,
       pairs !! k = Some (g1, (index, g2)) ∧ unknown_to_zero g1 ≠ g2 ∧
       Forall (λ pair, unknown_to_zero pair.1 = pair.2.2) (take k pairs)) ∧
  (verify input_file ancestors_file site_genotypes ancestors_ts
   = Raises Iteration_stopped_early ↔
   counts ∧
   Forall (λ pair, unknown_to_zero pair.1 = pair.2.2) pairs ∧
   length pairs ≠ ts_num_sites ancestors_ts).
Proof.
  cbv zeta. unfold verify.
  destruct (decide (ts_num_nodes ancestors_ts
                    ≠ file_num_ancestors ancestors_file)) as [Hn|Hn].
  { split_and!; [done|..].
    - split; [done|]. by intros [? _].
    - intros index. split; [done|]. by intros [[? _] _].
    - split; [done|]. by intros [[? _] _]. }
  destruct (decide (ts_num_sites ancestors_ts ≠ input_num_sites input_file))
    as [Hs|Hs].
  { apply dec_stable in Hn. split_and!.
    - split; [done|]. done.
    - done.
    - intros index. split; [done|]. by intros [[_ ?] _].
    - split; [done|]. by intros [[_ ?] _]. }
  apply dec_stable in Hn. apply dec_stable in Hs.
  destruct (verify_loop _ 0) as [e|count] eqn:Hloop.
  - destruct e as [| |index'|].
    1, 2, 4: exfalso; clear -Hloop; revert Hloop; generalize 0;
      induction (zip site_genotypes (ts_variants ancestors_ts))
        as [|[g1 [i g2]] pairs IH]; intros count Hloop; [done|];
      simpl in Hloop; destruct (decide _); [by eapply IH|done].
    split_and!.
    + split; [done|]. done.
    + split; [done|]. by intros [_ ?].
    + intros index. split.
      * intros [= <-]. split; [done|]. by apply verify_loop_inl in Hloop.
      * intros [_ Hk]. apply (verify_loop_inl _ 0) in Hk. congruence.
    + split; [done|]. intros (_ & Hall & _).
      assert (verify_loop (zip site_genotypes (ts_variants ancestors_ts)) 0
              = inr (0 + length (zip site_genotypes
                                   (ts_variants ancestors_ts)))) as Hok
        by (by apply verify_loop_inr).
      congruence.
  - apply verify_loop_inr in Hloop as [-> Hall]. simpl.
    destruct (decide (length (zip site_genotypes (ts_variants ancestors_ts))
                      ≠ ts_num_sites ancestors_ts)) as [Hc|Hc].
    + split_and!.
      * split; [done|]. done.
      * split; [done|]. by intros [_ ?].
      * intros index. split; [done|].
        intros (_ & k & g1 & g2 & Hk & Hne & _).
        by apply (Forall_lookup_1 _ _ _ _ Hall) in Hk.
      * done.
    + split_and!.
      * split; [done|]. done.
      * split; [done|]. by intros [_ ?].
      * intros index. split; [done|].
        intros (_ & k & g1 & g2 & Hk & Hne & _).
        by apply (Forall_lookup_1 _ _ _ _ Hall) in Hk.
      * split; [done|]. by intros (_ & _ & ?).
Qed.

End VerifyFacts.

(** ** What can be observed of a buffer *)

Module ObservableFacts.
Import ResultBuffer BufferSpec BufferFacts ObservableSpec.

Lemma add_edges_observed l r p c b :
  wf b →
  let '(res, b') := add_edges l r p c b in
  (res, observe b') = observed_call (Request (AddEdges l r p c)) (observe b)
  ∧ wf b'.
Proof.
  intros Hwf.
  destruct (views_lengths b Hwf) as (Hvl & _).
  unfold observed_call, capacity_after, request_outcome, observe.
  cbn [o_views o_chunk_size o_max_edges o_max_mutations views c_left].
  rewrite Hvl.
  unfold add_edges, np.shape0. munfold.
  case_bool_decide as Hr; [|by destruct b].
  case_bool_decide as Hp; [|by destruct b].
  cbn [andb].
  pose proof (grow_edges_facts (length l) b Hwf) as Hb1.
  destruct (check_edges_size (length l) b) as [res1 b1] eqn:Hc.
  assert (res1 = Ok tt) as ->
    by (rewrite check_edges_size_run in Hc; by injection Hc).
  simpl in Hb1. clear Hc.
  destruct Hb1 as (Hwf1 & Hn & Hcap & Hchunk & Hmax & Hl & Hr' & Hp' & Hc'
                   & Hs & Hnd & Hd & Hnm & Hmm).
  destruct Hwf1.
  rewrite !slice_assign_run by lia.
  rewrite !broadcast_array by done.
  unfold batch, expand.
  destruct (np.broadcast (length l) c) as [vs|e] eqn:Hbc.
  - apply broadcast_length in Hbc. split.
    + f_equal. simpl. rewrite Hchunk, Hmax, Hmm. f_equal.
      unfold views, append, left, right, parent, child, site, node,
        derived_state. simpl.
      rewrite Hs, Hnd, Hd, Hnm, !app_nil_r, <- Hl, <- Hr', <- Hp', <- Hc', Hn.
      f_equal.
      * apply written_take. lia.
      * rewrite <- Hr. apply written_take. lia.
      * rewrite <- Hp. apply written_take. lia.
      * rewrite <- Hbc. apply written_take. lia.
    + split; simpl; try done; try lia.
      * rewrite written_length; lia.
      * rewrite <- Hr, written_length; lia.
      * rewrite <- Hp, written_length; lia.
      * rewrite <- Hbc, written_length; lia.
  - split.
    + f_equal. simpl. rewrite Hchunk, Hmax, Hmm. f_equal.
      unfold views, left, right, parent, child, site, node, derived_state.
      simpl.
      rewrite Hs, Hnd, Hd, Hnm, <- Hl, <- Hr', <- Hp', <- Hc', Hn.
      f_equal.
      * apply written_prefix; lia.
      * rewrite <- Hr. apply written_prefix; lia.
      * rewrite <- Hp. apply written_prefix; lia.
    + split; simpl; try done; try lia.
      * rewrite written_length; lia.
      * rewrite <- Hr, written_length; lia.
      * rewrite <- Hp, written_length; lia.
Qed.

Lemma add_mutations_observed s n d b :
  wf b →
  let '(res, b') := add_mutations s n d b in
  (res, observe b')
  = observed_call (Request (AddMutations s n d)) (observe b)
  ∧ wf b'.
Proof.
  intros Hwf.
  destruct (views_lengths b Hwf) as (_ & _ & _ & _ & Hvs & _).
  unfold observed_call, capacity_after, request_outcome, observe.
  cbn [o_views o_chunk_size o_max_edges o_max_mutations views c_site].
  rewrite Hvs.
  unfold add_mutations, np.shape0. munfold.
  pose proof (grow_mutations_facts (length s) b Hwf) as Hb1.
  destruct (check_mutations_size (length s) b) as [res1 b1] eqn:Hc.
  assert (res1 = Ok tt) as ->
    by (rewrite check_mutations_size_run in Hc; by injection Hc).
  simpl in Hb1. clear Hc.
  destruct Hb1 as (Hwf1 & Hn & Hcap & Hchunk & Hmax & Hs & Hnd & Hd
                   & Hl & Hr & Hp & Hc & Hne & Hme).
  destruct Hwf1.
  rewrite !slice_assign_run by lia.
  rewrite !broadcast_array by done.
  unfold batch, expand. fold (fill_of d).
  destruct (np.broadcast (length s) n) as [ns|e] eqn:Hbn.
  - apply broadcast_length in Hbn.
    destruct (np.broadcast (length s) (fill_of d)) as [ds|e] eqn:Hbd.
    + apply broadcast_length in Hbd. split.
      * f_equal. simpl. rewrite Hchunk, Hmax, Hme. f_equal.
        unfold views, append, left, right, parent, child, site, node,
          derived_state. simpl.
        rewrite Hl, Hr, Hp, Hc, Hne, !app_nil_r, <- Hs, <- Hnd, <- Hd, Hn.
        f_equal.
        -- apply written_take. lia.
        -- rewrite <- Hbn. apply written_take. lia.
        -- rewrite <- Hbd. apply written_take. lia.
      * split; simpl; try done; try lia.
        -- rewrite written_length; lia.
        -- rewrite <- Hbn, written_length; lia.
        -- rewrite <- Hbd, written_length; lia.
    + split.
      * f_equal. simpl. rewrite Hchunk, Hmax, Hme. f_equal.
        unfold views, left, right, parent, child, site, node,
          derived_state. simpl.
        rewrite Hl, Hr, Hp, Hc, Hne, <- Hs, <- Hnd, <- Hd, Hn.
        f_equal.
        -- apply written_prefix; lia.
        -- rewrite <- Hbn. apply written_prefix; lia.
      * split; simpl; try done; try lia.
        -- rewrite written_length; lia.
        -- rewrite <- Hbn, written_length; lia.
  - split.
    + f_equal. simpl. rewrite Hchunk, Hmax, Hme. f_equal.
      unfold views, left, right, parent, child, site, node,
        derived_state. simpl.
      rewrite Hl, Hr, Hp, Hc, Hne, <- Hs, <- Hnd, <- Hd, Hn.
      f_equal. apply written_prefix; lia.
    + split; simpl; try done; try lia.
      rewrite written_length; lia.
Qed.

Lemma call_observed m b :
  wf b →
  let '(res, b') := invoke m b in
  (res, observe b') = observed_call m (observe b) ∧ wf b'.
Proof.
  intros Hwf. destruct m as [[l r p c|s n d|s n]|].
  - apply add_edges_observed, Hwf.
  - apply add_mutations_observed, Hwf.
  - cbn [invoke perform].
    destruct (add_back_mutation_run s n b Hwf)
      as (b' & -> & Hwf' & Hchunk & Hme & _ & Hviews & Hmm).
    split; [|done].
    destruct (views_lengths b Hwf) as (_ & _ & _ & _ & Hvs & _).
    unfold observed_call, capacity_after, request_outcome, observe, batch.
    cbn [o_views o_chunk_size o_max_edges o_max_mutations views c_site].
    rewrite Hvs. f_equal. by rewrite Hchunk, Hme, Hmm, <- Hviews.
  - cbn [invoke]. destruct (clear_run b Hwf) as [-> Hwf']. split; [|done].
    by destruct b.
Qed.



Lemma run_calls_observed ms : ∀ b1 b2,
  wf b1 → wf b2 → observe b1 = observe b2 →
  (run_calls ms b1).1 = (run_calls ms b2).1 ∧
  observe (run_calls ms b1).2 = observe (run_calls ms b2).2.
Proof.
  induction ms as [|m ms IH]; intros b1 b2 Hwf1 Hwf2 Hobs; [done|].
  cbn [run_calls].
  pose proof (call_observed m b1 Hwf1) as H1.
  pose proof (call_observed m b2 Hwf2) as H2.
  destruct (invoke m b1) as [r1 b1'], (invoke m b2) as [r2 b2'].
  destruct H1 as [H1 Hwf1'], H2 as [H2 Hwf2'].
  rewrite Hobs, <- H2 in H1. apply pair_equal_spec in H1 as [-> Hobs'].
  specialize (IH b1' b2' Hwf1' Hwf2' Hobs').
  destruct (run_calls ms b1') as [rs1 c1], (run_calls ms b2') as [rs2 c2].
  simpl in *. destruct IH as [-> ->]. done.
Qed.

(** The contents of the memory that [np.empty] hands out are never
    observable: two buffers made with the same chunk size, over whatever
    memory, that receive the same calls, give the same outcomes call for
    call, and end with the same chunk size, capacities and views. *)
Theorem uninitialised_memory_is_not_observable uninit1 uninit2 chunk ms :
  match __init__ uninit1 chunk, __init__ uninit2 chunk with
  | Ok b1, Ok b2 =>
      (run_calls ms b1).1 = (run_calls ms b2).1 ∧
      observe (run_calls ms b1).2 = observe (run_calls ms b2).2
  | Raise e1, Raise e2 => e1 = e2
  | _, _ => False
  end.
Proof.
  destruct (decide (chunk < 1)%Z) as [Hlt|Hge].
  - unfold __init__. by rewrite !decide_True by done.
  - destruct (init_run uninit1 chunk) as (b1 & -> & Hwf1 & Hv1 & Hc1 & He1
                                          & Hm1 & _); [lia|].
    destruct (init_run uninit2 chunk) as (b2 & -> & Hwf2 & Hv2 & Hc2 & He2
                                          & Hm2 & _); [lia|].
    apply run_calls_observed; [done..|].
    unfold observe. by rewrite Hv1, Hv2, Hc1, Hc2, He1, He2, Hm1, Hm2.
Qed.

End ObservableFacts.

(** ** The edges an epoch commits *)

Module PathFacts.
Import BufferSpec BuilderSpec MatcherSpec AncestorSpec RunSpec IsolationSpec
  CommitSpec PathSpec.
Import BufferFacts EpochFacts BuilderFacts MatcherFacts AncestorFacts RunFacts
  IsolationFacts CommitFacts SampleFacts.
Import AncestorMatcher.

Lemma combine_run_wf uninit bufs :
  Forall wf bufs →
  ∃ c, ResultBuffer.combine uninit bufs = (Ok c, bufs) ∧ wf c ∧
       views c = concat_views bufs.
Proof.
  intros Hwf.
  unfold ResultBuffer.combine. rewrite bind_run. unfold get at 1.
  rewrite bind_run.
  set (size := 1 `max` sum_list (ResultBuffer.num_edges <$> bufs)).
  destruct (init_run uninit (Z.of_nat size))
    as (b0 & Hb0 & Hwf0 & Hv0 & _ & Hme0 & _ & Hne0 & _); [lia|].
  unfold lift at 1. rewrite Hb0.
  destruct (combine_loop bufs b0 bufs Hwf0 Hwf)
    as (c & Hrun & Hwfc & Hv & Hme & Hne); [lia|].
  exists c. split; [exact Hrun|]. split; [done|].
  by rewrite Hv, Hv0, append_no_columns_l.
Qed.

Lemma concat_views_empty bufs :
  Forall (λ b, views b = no_columns) bufs → concat_views bufs = no_columns.
Proof.
  induction 1 as [|b bufs Hb _ IH]; [done|]. simpl. by rewrite Hb, IH.
Qed.

Lemma column_of_child_app col1 col2 ch1 ch2 c :
  length col1 = length ch1 →
  column_of_child (col1 ++ col2) (ch1 ++ ch2) c
  = column_of_child col1 ch1 c ++ column_of_child col2 ch2 c.
Proof.
  intros Hlen. unfold column_of_child.
  rewrite zip_with_app by done. by rewrite filter_app, fmap_app.
Qed.

Lemma column_of_child_replicate col (v c : Z) :
  column_of_child col (replicate (length col) v) c
  = if decide (v = c) then col else [].
Proof.
  unfold column_of_child. induction col as [|x col IH].
  - by destruct (decide _).
  - cbn [length replicate zip_with]. rewrite filter_cons. cbn [snd].
    destruct (decide (v = c)).
    + cbn [fmap list_fmap fst]. by rewrite IH.
    + exact IH.
Qed.

(** The column [col] of the blocks of [found], restricted to the records of
    one child. *)
Lemma column_of_blocks (col : columns → list Z)
    (proj : ancestor_path → list Z) :
  (∀ x y, col (append x y) = col x ++ col y) →
  col no_columns = [] →
  (∀ nid x, col (ancestor_block nid x) = proj x) →
  ∀ found nid,
    Forall (λ x, length (proj x) = length (path_left x)) found →
    (∀ c, c < nid →
       column_of_child (col (ancestor_blocks nid found))
         (c_child (ancestor_blocks nid found)) (Z.of_nat c) = []) ∧
    (∀ j x, found !! j = Some x →
       column_of_child (col (ancestor_blocks nid found))
         (c_child (ancestor_blocks nid found)) (Z.of_nat (nid + j))
       = proj x).
Proof.
  intros Happ Hnil Hblock found.
  induction found as [|x0 found IH]; intros nid Hlen.
  - split; [|done]. intros c _. simpl. by rewrite Hnil.
  - inversion Hlen as [|? ? Hlen0 Hlen']; subst.
    destruct (IH (S nid) Hlen') as [IH1 IH2].
    cbn [ancestor_blocks]. rewrite Happ, Hblock.
    change (c_child (append ?x ?y)) with (c_child x ++ c_child y).
    cbn [ancestor_block c_child]. rewrite <- Hlen0.
    split.
    + intros c Hc.
      rewrite column_of_child_app by (by rewrite length_replicate).
      rewrite column_of_child_replicate, decide_False by lia.
      rewrite IH1 by lia. done.
    + intros j x Hj.
      rewrite column_of_child_app by (by rewrite length_replicate).
      rewrite column_of_child_replicate.
      destruct j as [|j]; simpl in Hj.
      * injection Hj as <-. rewrite Nat.add_0_r, decide_True by done.
        rewrite IH1 by lia. by rewrite app_nil_r.
      * rewrite decide_False by lia.
        replace (nid + S j) with (S nid + j) by lia. by apply IH2.
Qed.

Lemma flat_map_imap {A B} (f : nat → list B) (g : nat → A → list B)
    (l : list A) : ∀ off,
  (∀ k x, l !! k = Some x → f (off + k) = g (off + k) x) →
  flat_map f (seq off (length l)) = mjoin (imap (λ k, g (off + k)) l).
Proof.
  induction l as [|x l IH]; intros off Hfg; [done|].
  cbn [length seq flat_map imap mjoin list_join].
  rewrite <- (Hfg 0 x eq_refl), Nat.add_0_r. f_equal.
  rewrite (IH (S off)).
  - f_equal. apply imap_ext. intros k y _. simpl. f_equal. lia.
  - intros k y Hk. replace (S off + k) with (off + S k) by lia.
    by apply Hfg.
Qed.

Section Collaborators.
Context (uninit : nat → Z).
Context (find_path : TreeSequenceBuilder.t → list Z → nat → nat →
                     result (list Z * list Z * list Z * list Z)).

Lemma ancestor_find_path_views aid nid h ti st h' st' :
  Forall wf (Matcher.results (base st)) →
  __ancestor_find_path find_path aid nid h ti st = (Ok h', st') →
  ∃ F s e l r p m b b',
    focal_sites st !! aid = Some F ∧ start st !! aid = Some s ∧
    end_ st !! aid = Some e ∧
    find_path (tree_sequence_builder st) h s e = Ok (l, r, p, m) ∧
    length r = length l ∧ length p = length l ∧
    Matcher.results (base st) !! ti = Some b ∧
    Matcher.results (base st') !! ti = Some b' ∧
    views b' = append (views b) (ancestor_block nid (Path F l r p)) ∧
    Forall wf (Matcher.results (base st')).
Proof.
  intros Hwf Hrun.
  pose proof (stable_run _ _ _ _ _
                (ancestor_find_path_steady find_path aid nid h ti) Hrun)
    as (_ & _ & _ & _ & _ & _ & Hkeep).
  destruct (Hkeep Hwf) as [Hwf' _].
  unfold __ancestor_find_path in Hrun.
  apply bind_ok in Hrun as (self & s0 & [= <- <-] & Hrun).
  apply bind_ok in Hrun as (F & s0 & [HF ->]%lift_ok & Hrun).
  apply bind_ok in Hrun as (s & s0 & [Hs ->]%lift_ok & Hrun).
  apply bind_ok in Hrun as (e & s0 & [He ->]%lift_ok & Hrun).
  apply bind_ok in Hrun as ([] & s1 & Hmut & Hrun).
  apply bind_ok in Hrun as ([] & s0 & [_ ->]%assert_ok & Hrun).
  apply bind_ok in Hrun as ([] & s0 & [_ ->]%assert_ok & Hrun).
  apply bind_ok in Hrun as (at_focal & s0 & [_ ->]%lift_ok & Hrun).
  apply bind_ok in Hrun as ([] & s0 & [_ ->]%assert_ok & Hrun).
  apply bind_ok in Hrun as ([[l r] p] & s2 & Hfp & Hrun).
  apply bind_ok in Hrun as (h'' & s0 & [_ ->]%lift_ok & Hrun).
  apply bind_ok in Hrun as (self' & s0 & [= <- <-] & Hrun).
  apply bind_ok in Hrun as (m' & s0 & [_ ->]%lift_ok & Hrun).
  apply bind_ok in Hrun as ([] & s0 & [_ ->]%assert_ok & [= <- <-]).
  apply item_nat in HF. apply item_nat in Hs. apply item_nat in He.
  apply zoom_run in Hmut as (b1 & Hmut & ->).
  apply zoom_run in Hmut as (rs & Hmut & ->).
  apply zoom_index_ok in Hmut as (b & bm & Hb & Hmut & ->).
  assert (wf b) as Hwfb by (eapply Forall_lookup_1; [exact Hwf|exact Hb]).
  destruct (add_mutations_run (Z.of_nat <$> F) (np.Scalar (Z.of_nat nid)) None
              b Hwfb) as (res & bm' & Hmut' & Hwfm & _ & _ & _ & Hres).
  rewrite Hmut in Hmut'. injection Hmut' as <- <-.
  destruct Hres as [Hviewsm _].
  apply zoom_run in Hfp as (b2 & Hfp & ->).
  cbn [base set_base] in Hfp.
  assert (Forall wf (Matcher.results
                       (Matcher.set_results
                          (<[ti := bm]> (Matcher.results (base st)))
                          (base st)))) as Hwf1.
  { destruct (base st). cbn. by apply Forall_insert. }
  destruct (find_path_ok find_path _ _ _ _ _ _ _ _ _ _ Hwf1 Hfp)
    as (m & b0 & b' & Hpath & Hb0 & _ & Hwfb' & Hviews & Hres' & _ & _ & _
        & Hlr & Hlp).
  assert (Matcher.results
            (Matcher.set_results (<[ti := bm]> (Matcher.results (base st)))
               (base st)) = <[ti := bm]> (Matcher.results (base st))) as Hrs
    by (by destruct (base st)).
  rewrite Hrs in Hb0, Hres'.
  rewrite list_lookup_insert_eq in Hb0 by (by eapply lookup_lt_Some).
  injection Hb0 as <-.
  exists F, s, e, l, r, p, m, b, b'.
  do 3 (split; [done|]). split.
  { unfold tree_sequence_builder. by destruct (base st). }
  do 2 (split; [done|]). split; [done|]. split.
  { cbn [base set_base]. rewrite Hres', list_insert_insert_eq.
    apply list_lookup_insert_eq. by eapply lookup_lt_Some. }
  split; [|done].
  rewrite Hviews, Hviewsm. unfold append, ancestor_block, expand, fill_of.
  cbn. rewrite !length_fmap, !app_nil_r. done.
Qed.

Lemma others_unchanged (s s' : Matcher.t) :
  thread_local 0 s s' → drop 1 (Matcher.results s') = drop 1 (Matcher.results s).
Proof.
  intros (_ & _ & _ & _ & Hlen & _ & Hother). apply list_eq. intros i.
  rewrite !lookup_drop. by destruct (Hother (1 + i)) as [-> _].
Qed.

Lemma concat_views_first bufs b :
  bufs !! 0 = Some b →
  Forall (λ b, views b = no_columns) (drop 1 bufs) →
  concat_views bufs = views b.
Proof.
  destruct bufs as [|b0 bufs]; [done|]. intros [= ->] Hempty.
  simpl in *. rewrite drop_0 in Hempty.
  by rewrite (concat_views_empty _ Hempty), append_no_columns_r.
Qed.

Lemma matching_loop_blocks xs : ∀ nid st nid' st1,
  Forall wf (Matcher.results (base st)) →
  Forall (λ b, views b = no_columns) (drop 1 (Matcher.results (base st))) →
  for_acc xs nid (λ ancestor_id node_id,
    a ← next_haplotype;
    __ancestor_find_path find_path ancestor_id node_id a 0 ;;
    mret (node_id + 1)) st = (Ok nid', st1) →
  ∃ found,
    length found = length xs ∧
    concat_views (Matcher.results (base st1))
    = append (concat_views (Matcher.results (base st)))
        (ancestor_blocks nid found) ∧
    Forall wf (Matcher.results (base st1)) ∧
    Forall (λ x, length (path_right x) = length (path_left x) ∧
                 length (path_parent x) = length (path_left x)) found ∧
    ∀ k aid x,
      xs !! k = Some aid → found !! k = Some x →
      ∃ h a z m,
        haplotypes st !! k = Some h ∧
        focal_sites st !! aid = Some (path_focal x) ∧
        start st !! aid = Some a ∧ end_ st !! aid = Some z ∧
        find_path (tree_sequence_builder st) h a z
        = Ok (path_left x, path_right x, path_parent x, m).
Proof.
  induction xs as [|x xs IH]; intros nid st nid' st1 Hwf Hempty Hrun;
    simpl in Hrun.
  - injection Hrun as <- <-. exists []. split; [done|].
    split; [by rewrite append_no_columns_r|]. split; [done|].
    split; [done|]. by intros k aid x Hk.
  - apply bind_ok in Hrun as (nid1 & sb & Hbody & Hrest).
    apply bind_ok in Hbody as (a & sa & Hnext & Hbody).
    apply bind_ok in Hbody as (h' & sb' & Hafp & [= <- <-]).
    unfold next_haplotype in Hnext.
    apply bind_ok in Hnext as (self & s0 & [= <- <-] & Hnext).
    destruct (haplotypes st) as [|a0 rest] eqn:Hh; [done|].
    apply bind_ok in Hnext as ([] & s0 & [= <-] & [= <- <-]).
    set (sa := set_haplotypes rest st) in *.
    assert (Forall wf (Matcher.results (base sa))) as Hwfa by done.
    destruct (ancestor_find_path_views _ _ _ _ _ _ _ Hwfa Hafp)
      as (F & s & e & l & r & p & m & b & b' & HF & Hs & He & Hpath & Hlr
          & Hlp & Hb & Hb' & Hviews & Hwfb).
    pose proof (stable_run _ _ _ _ _
                  (ancestor_find_path_thread_local find_path 0 x nid a0) Hafp)
      as [Hfields Htl].
    apply only_base_fields in Hfields
      as (_ & _ & _ & Hhb & Hfb & Hsb & Heb).
    pose proof (stable_run _ _ _ _ _
                  (ancestor_find_path_steady find_path x nid a0 0) Hafp)
      as (_ & _ & _ & _ & _ & Htsb & _).
    pose proof (others_unchanged _ _ Htl) as Hothers.
    assert (Forall (λ b, views b = no_columns)
              (drop 1 (Matcher.results (base sb')))) as Hemptyb
      by (by rewrite Hothers).
    destruct (IH _ _ _ _ Hwfb Hemptyb Hrest)
      as (found & Hlen & Hconcat & Hwf1 & Hlens & Hpaths).
    exists (Path F l r p :: found).
    split; [simpl; lia|]. split.
    { rewrite Hconcat.
      rewrite (concat_views_first _ b' Hb' Hemptyb).
      change (Matcher.results (base sa)) with (Matcher.results (base st))
        in Hb.
      rewrite (concat_views_first _ b Hb Hempty).
      rewrite Hviews, append_assoc. cbn [ancestor_blocks].
      by replace (nid + 1) with (S nid) by lia. }
    split; [done|]. split; [by constructor|].
    intros k aid y Hk Hy. destruct k as [|k]; simpl in Hk, Hy.
    + injection Hk as <-. injection Hy as <-.
      exists a0, s, e, m. done.
    + destruct (Hpaths k aid y Hk Hy) as (h & a & z & m' & Hhk & HFk & Hsk
                                          & Hek & Hfk).
      exists h, a, z, m'.
      rewrite Hhb in Hhk. rewrite Hfb in HFk. rewrite Hsb in Hsk.
      rewrite Heb in Hek.
      unfold same_builder, tree_sequence_builder in *.
      rewrite Htsb in Hfk. done.
Qed.

Lemma blocks_first_child nid x found :
  path_left x ≠ [] →
  c_child (ancestor_blocks nid (x :: found)) !! 0 = Some (Z.of_nat nid).
Proof.
  intros Hne. cbn [ancestor_blocks].
  change (c_child (append ?a ?b)) with (c_child a ++ c_child b).
  cbn [ancestor_block c_child].
  destruct (path_left x) as [|l0 ls]; [done|]. done.
Qed.

(** A single-threaded epoch that starts with empty buffers and returns.
    Each ancestor of the epoch was matched with the next haplotype of the
    iterator, against the builder as it was when the epoch began. When the
    path found for the first ancestor of the epoch has at least one edge,
    the builder has received, for the [k]-th ancestor of the epoch, one
    [add_node] with the time of the epoch, which returned the next node id,
    followed by one [add_path] for that id with exactly the edges of the
    path found for that ancestor, last edge first; and then one
    [add_mutations] with, for each ancestor of the epoch in order, its focal
    sites under its node id with derived state 1. *)
Theorem epoch_gives_each_node_its_path j st st' :
  Forall wf (Matcher.results (base st)) →
  Forall (λ b, views b = no_columns) (Matcher.results (base st)) →
  match_epoch_single_threaded uninit find_path j st = (Ok tt, st') →
  ∃ s e time found,
    np.item (epoch_slices st) j = Ok (s, e) ∧
    np.item (epoch st) (Z.of_nat s) = Ok time ∧
    length found = e - s ∧
    (∀ k x, found !! k = Some x →
       ∃ h a z m,
         haplotypes st !! k = Some h ∧
         focal_sites st !! (s + k) = Some (path_focal x) ∧
         start st !! (s + k) = Some a ∧ end_ st !! (s + k) = Some z ∧
         find_path (tree_sequence_builder st) h a z
         = Ok (path_left x, path_right x, path_parent x, m)) ∧
    ((∀ x, found !! 0 = Some x → path_left x ≠ []) →
       TreeSequenceBuilder.calls (tree_sequence_builder st') =
       TreeSequenceBuilder.calls (tree_sequence_builder st) ++
       mjoin (imap (λ k x,
                [TreeSequenceBuilder.AddNode time
                   (TreeSequenceBuilder.num_nodes (tree_sequence_builder st)
                    + k);
                 TreeSequenceBuilder.AddPath
                   (TreeSequenceBuilder.num_nodes (tree_sequence_builder st)
                    + k)
                   (reverse (path_left x)) (reverse (path_right x))
                   (reverse (path_parent x))]) found) ++
       [let recorded :=
          ancestor_blocks
            (TreeSequenceBuilder.num_nodes (tree_sequence_builder st)) found in
        TreeSequenceBuilder.AddMutations (c_site recorded) (c_node recorded)
          (c_derived_state recorded)]).
Proof.
  intros Hwf Hempty Hrun. unfold match_epoch_single_threaded in Hrun.
  apply bind_ok in Hrun as (info & s0 & Hinfo & Hrun).
  apply epoch_info_same in Hinfo as ->.
  apply bind_ok in Hrun as (self & s0 & [= <- <-] & Hrun).
  apply bind_ok in Hrun as ([s e] & s0 & [Hse ->]%lift_ok & Hrun).
  apply bind_ok in Hrun as (nid' & st1 & Hloop & Hrun).
  pose proof (stable_run _ _ _ _ _ (matching_loop_steady find_path _ _) Hloop)
    as (_ & _ & _ & Hepoch & Hslices & Htsb & _).
  destruct (matching_loop_blocks _ _ _ _ _ Hwf (Forall_drop _ _ _ Hempty)
              Hloop)
    as (found & Hlen & Hconcat & Hwf1 & Hlens & Hpaths).
  rewrite length_seq in Hlen.
  rewrite (concat_views_empty _ Hempty), append_no_columns_l in Hconcat.
  set (N := TreeSequenceBuilder.num_nodes (tree_sequence_builder st)) in *.
  unfold __complete_epoch in Hrun.
  apply bind_ok in Hrun as (self & s0 & [= <- <-] & Hrun).
  apply bind_ok in Hrun as ([s' e'] & s0 & [Hse' ->]%lift_ok & Hrun).
  rewrite Hslices, Hse in Hse'. injection Hse' as <- <-.
  apply bind_ok in Hrun as (time & s0 & [Htime ->]%lift_ok & Hrun).
  rewrite Hepoch in Htime.
  apply bind_ok in Hrun as (er & st2 & Hcomb & Hrun).
  apply bind_ok in Hrun as ([] & st3 & Hcommit & Hrun).
  apply bind_ok in Hrun as (self' & s0 & [= <- <-] & Hrun).
  exists s, e, time, found. do 3 (split; [done|]). split.
  { intros k x Hx. apply (Hpaths k (s + k) x); [|done].
    rewrite lookup_seq. split; [done|].
    apply lookup_lt_Some in Hx. lia. }
  intros Hfirst.
  apply zoom_run in Hcomb as (b1 & Hcomb & ->).
  apply zoom_run in Hcomb as (l1 & Hcomb & ->).
  destruct (combine_run_wf uninit _ Hwf1) as (c & Hc & Hwfc & Hviews).
  rewrite Hc in Hcomb. injection Hcomb as <- <-.
  rewrite Hconcat in Hviews.
  apply zoom_run in Hcommit as (b2 & Hcommit & ->).
  pose proof (stable_run _ _ _ _ _ (clear_all_same_tsb _) Hrun) as Hsame.
  unfold same_tsb, same_builder, tree_sequence_builder in *.
  rewrite Hsame. cbn [base set_base] in *.
  assert (Matcher.tree_sequence_builder
            (Matcher.set_results (Matcher.results (base st1)) (base st1))
          = Matcher.tree_sequence_builder (base st)) as Htsb1
    by (rewrite <- Htsb; by destruct (base st1)).
  destruct found as [|x0 found'].
  - simpl in Hlen. rewrite <- Hlen in Hcommit.
    unfold Matcher.commit in Hcommit. cbn [seq for_] in Hcommit.
    rewrite bind_run in Hcommit. unfold mret at 1, M_MRet, M_ret in Hcommit.
    apply on_builder_run in Hcommit as (tsb' & Hmut & ->).
    unfold TreeSequenceBuilder.add_mutations in Hmut.
    rewrite bind_run in Hmut. unfold get, put in Hmut.
    injection Hmut as <-.
    change (ResultBuffer.site c) with (c_site (views c)).
    change (ResultBuffer.node c) with (c_node (views c)).
    change (ResultBuffer.derived_state c) with (c_derived_state (views c)).
    rewrite Hviews.
    destruct (base st1); cbn in *. by rewrite Htsb.
  - assert (ResultBuffer.child c !! 0 = Some (Z.of_nat N)) as Hc0.
    { change (ResultBuffer.child c) with (c_child (views c)).
      rewrite Hviews. apply blocks_first_child. by apply (Hfirst x0). }
    destruct (commit_run_some (e - s) time c
                (Matcher.set_results (Matcher.results (base st1)) (base st1))
                (Z.of_nat N) Hwfc Hc0)
      as (s4 & Hcommit' & Hcalls & _).
    rewrite Hcommit in Hcommit'. injection Hcommit' as <-.
    rewrite Hcalls, Htsb1. fold N.
    unfold commit_calls. f_equal. cbv zeta. f_equal;
      [|change (ResultBuffer.site c) with (c_site (views c));
        change (ResultBuffer.node c) with (c_node (views c));
        change (ResultBuffer.derived_state c)
          with (c_derived_state (views c));
        by rewrite Hviews].
    rewrite <- Hlen.
    rewrite (flat_map_imap _
               (λ k x,
                  [TreeSequenceBuilder.AddNode time (N + k);
                   TreeSequenceBuilder.AddPath (N + k)
                     (reverse (path_left x)) (reverse (path_right x))
                     (reverse (path_parent x))]) (x0 :: found') 0);
      [done|].
    intros k x Hx. cbv zeta. rewrite Nat.add_0_l.
    replace (Z.of_nat N + Z.of_nat k)%Z with (Z.of_nat (N + k)) by lia.
    change (ResultBuffer.left c) with (c_left (views c)).
    change (ResultBuffer.right c) with (c_right (views c)).
    change (ResultBuffer.parent c) with (c_parent (views c)).
    change (ResultBuffer.child c) with (c_child (views c)).
    rewrite Hviews.
    destruct (column_of_blocks c_left path_left) with (found := x0 :: found')
      (nid := N) as [_ Hl]; [done|done|done| |].
    { apply Forall_true. done. }
    destruct (column_of_blocks c_right path_right) with (found := x0 :: found')
      (nid := N) as [_ Hr]; [done|done|done| |].
    { eapply Forall_impl; [exact Hlens|]. by intros ? [? ?]. }
    destruct (column_of_blocks c_parent path_parent)
      with (found := x0 :: found') (nid := N) as [_ Hp]; [done|done|done| |].
    { eapply Forall_impl; [exact Hlens|]. by intros ? [? ?]. }
    by rewrite (Hl k x Hx), (Hr k x Hx), (Hp k x Hx).
Qed.

End Collaborators.

Lemma epoch_gives_each_node_its_path_witness :
  ∃ st st',
    __init__ Example.uninit Example.input_file Example.ancestors_file None 1
      = Ok st ∧
    match_epoch_single_threaded Example.uninit Example.find_path 1 st
      = (Ok tt, st') ∧
    TreeSequenceBuilder.calls (tree_sequence_builder st') =
      TreeSequenceBuilder.calls (tree_sequence_builder st) ++
      [TreeSequenceBuilder.AddNode 3 1;
       TreeSequenceBuilder.AddPath 1 [0]%Z [3]%Z [0]%Z;
       TreeSequenceBuilder.AddNode 3 2;
       TreeSequenceBuilder.AddPath 2 [1]%Z [3]%Z [0]%Z;
       TreeSequenceBuilder.AddMutations [0; 1]%Z [1; 2]%Z [1; 1]%Z].
Proof.
  evaluate_ok (__init__ Example.uninit Example.input_file
                 Example.ancestors_file None 1) st.
  evaluate_ok (match_epoch_single_threaded Example.uninit Example.find_path
                 1 st) st'.
  assert (__init__ Example.uninit Example.input_file Example.ancestors_file
            None 1 = Ok st) as Hst by (vm_compute; reflexivity).
  destruct (epoch_gives_each_node_its_path Example.uninit Example.find_path
              1 st st')
    as (s & e & time & found & Hse & Htime & Hlen & Hpaths & Hcalls).
  { exact (init_results_wf _ _ _ _ _ _ Hst). }
  { vm_compute. repeat constructor. }
  { vm_compute. reflexivity. }
  vm_compute in Hse. injection Hse as <- <-.
  vm_compute in Htime. injection Htime as <-.
  destruct found as [|[f0 l0 r0 p0] [|[f1 l1 r1 p1] [|? ?]]]; try discriminate.
  destruct (Hpaths 0 _ eq_refl) as (h & a & z & m & Hh & Hf & Ha & Hz & Hfp).
  vm_compute in Hh, Hf, Ha, Hz.
  injection Hh as <-. injection Hf as <-. injection Ha as <-.
  injection Hz as <-. injection Hfp as <- <- <- _.
  destruct (Hpaths 1 _ eq_refl) as (h & a & z & m' & Hh & Hf & Ha & Hz & Hfp).
  vm_compute in Hh, Hf, Ha, Hz.
  injection Hh as <-. injection Hf as <-. injection Ha as <-.
  injection Hz as <-. injection Hfp as <- <- <- _.
  exists st, st'.
  split; [exact Hst|]. split; [vm_compute; reflexivity|].
  rewrite Hcalls; [reflexivity|]. intros x [= <-]. done.
Defined.

End PathFacts.
